(** * Crawl engine of the enhanced site scraper (scraper_enhanced.py)

    A shallow embedding of [URLUtils], [UICollector.update_inventory], the
    command-line overrides of [main] and the worker pool of [SiteScraper],
    with the properties of the crawl engine stated over it.

    Conventions of the embedding
    - A Python [str] is a Rocq [string]: the embedding covers the strings
      whose code points are below 256.  A link text can hold other
      characters, and Python treats some of them in its own way ([re.I]
      also matches U+0130 and U+0131 with [i] and U+017F with [s];
      [str.lower] and [str.isspace] know more letters and more spaces);
      a statement that depends on this is made on ASCII input.
    - A Python [int] is a [Z].
    - A Python [set] of strings is a [gset string], a [dict] with string
      keys a [gmap string _], a [list] a [list].
    - A call that may raise returns an [option]: [None] stands for a raised
      [Exception].
    - [asyncio] tasks are cooperative: a task runs without interruption
      between two suspension points.  A worker is therefore a small state
      machine whose states are the suspension points of [_worker] and
      [_scrape_page], and the pool is the interleaving of these machines. *)

From Stdlib Require Import ZArith Ascii.
From stdpp Require Import base tactics option list gmap strings sorting.

Local Open Scope Z_scope.
#[local] Set Warnings "-register-all".

(* ===================================================================== *)
(** ** Strings *)
(* ===================================================================== *)

Module Str.

(** [str.isspace] on the code points below 256. *)
Definition isspace (c : ascii) : bool :=
  let n := N_of_ascii c in
  ((9 <=? n) && (n <=? 13) || (28 <=? n) && (n <=? 32)
   || (n =? 133) || (n =? 160))%N.

Fixpoint lstrip (s : string) : string :=
  match s with
  | String c s' => if isspace c then lstrip s' else s
  | EmptyString => EmptyString
  end.

Definition rstrip (s : string) : string :=
  String.rev (lstrip (String.rev s)).

(** [s.strip()] *)
Definition strip (s : string) : string := rstrip (lstrip s).

(** [s.startswith(p)] *)
Fixpoint startswith (s p : string) {struct p} : bool :=
  match p, s with
  | EmptyString, _ => true
  | String a p', String b s' => if decide (a = b) then startswith s' p' else false
  | String _ _, EmptyString => false
  end.

(** [s.startswith((p1, ..., pn))] *)
Definition startswith_any (s : string) (ps : list string) : bool :=
  existsb (startswith s) ps.

(** [s.endswith(p)] *)
Definition endswith (s p : string) : bool :=
  startswith (String.rev s) (String.rev p).

(** [s.isascii()] *)
Fixpoint isascii (s : string) : bool :=
  match s with
  | EmptyString => true
  | String c s' => (N_of_ascii c <? 128)%N && isascii s'
  end.

(** ASCII lower-casing of one character and of a string: [str.lower] on
    a string of ASCII characters.  ([str.lower] also changes letters
    beyond ASCII; [lower] is applied to ASCII text only, or stands in a
    statement with that as its condition.) *)
Definition lower_ascii (c : ascii) : ascii :=
  let n := N_of_ascii c in
  if ((65 <=? n) && (n <=? 90))%N then ascii_of_N (n + 32) else c.

Fixpoint lower (s : string) : string :=
  match s with
  | EmptyString => EmptyString
  | String c s' => String (lower_ascii c) (lower s')
  end.

(** [c in s] *)
Fixpoint contains (c : ascii) (s : string) : bool :=
  match s with
  | EmptyString => false
  | String a s' => if decide (a = c) then true else contains c s'
  end.

(** [s.split(c, 1)] when [c in s]: the text before and after the first
    occurrence of [c]; [(s, "")] otherwise. *)
Fixpoint cut (c : ascii) (s : string) : string * string :=
  match s with
  | EmptyString => (EmptyString, EmptyString)
  | String a s' =>
      if decide (a = c) then (EmptyString, s')
      else let '(l, r) := cut c s' in (String a l, r)
  end.

(** [s.split(c)] *)
Fixpoint split (c : ascii) (s : string) : list string :=
  match s with
  | EmptyString => [EmptyString]
  | String a s' =>
      if decide (a = c) then EmptyString :: split c s'
      else match split c s' with
           | w :: ws => String a w :: ws
           | [] => [String a EmptyString]
           end
  end.

(** [sep.join(ws)] *)
Fixpoint join (sep : string) (ws : list string) : string :=
  match ws with
  | [] => EmptyString
  | [w] => w
  | w :: ws' => w +:+ sep +:+ join sep ws'
  end.

(** [s.lstrip(c)] for a single character [c] *)
Fixpoint lstrip_char (c : ascii) (s : string) : string :=
  match s with
  | String a s' => if decide (a = c) then lstrip_char c s' else s
  | EmptyString => EmptyString
  end.

(** [s.replace(a, b)] for single characters *)
Fixpoint replace_char (a b : ascii) (s : string) : string :=
  match s with
  | EmptyString => EmptyString
  | String x s' => String (if decide (x = a) then b else x) (replace_char a b s')
  end.

End Str.

(* ===================================================================== *)
(** ** Regular expressions of the source

    The only pattern written in the source is [asset_extensions].  It uses
    literals, grouping with alternation, [?] and [$]; [Re.search] models
    [re.search] on that fragment (backtracking, leftmost start first),
    with the [re.I] flag as a parameter. *)
(* ===================================================================== *)

Module Re.

Inductive regex : Type :=
| Eps                          (* the empty pattern *)
| Chr (c : ascii)              (* a literal character, escaped or not *)
| Seq (r1 r2 : regex)          (* r1 r2 *)
| Alt (r1 r2 : regex)          (* r1|r2 *)
| Opt (r : regex)              (* r? *)
| Eol.                         (* $ *)

(** A literal word. *)
Fixpoint lit (s : string) : regex :=
  match s with
  | EmptyString => Eps
  | String c s' => Seq (Chr c) (lit s')
  end.

(** [(r1|r2|...|rn)] *)
Fixpoint alts (rs : list regex) : regex :=
  match rs with
  | [] => Eps
  | [r] => r
  | r :: rs' => Alt r (alts rs')
  end.

(** Character comparison, under [re.I] when [icase] is set.  The pattern
    of the source is made of ASCII characters; against such a character
    [re.I] folds, among the code points below 256, the ASCII letters
    only. *)
Definition chr_eq (icase : bool) (c a : ascii) : bool :=
  if icase then bool_decide (Str.lower_ascii c = Str.lower_ascii a)
  else bool_decide (c = a).

(** Without [re.M], [$] matches at the end of the string and just
    before a newline that ends the string. *)
Definition at_end (s : string) : bool :=
  match s with
  | EmptyString => true
  | String c EmptyString => bool_decide (c = "010"%char)
  | _ => false
  end.

(** [rmatch icase r s k]: [r] matches a prefix of [s] and the
    continuation [k] accepts what is left. *)
Fixpoint rmatch (icase : bool) (r : regex) (s : string) (k : string → bool) : bool :=
  match r with
  | Eps => k s
  | Chr c =>
      match s with
      | String a s' => chr_eq icase c a && k s'
      | EmptyString => false
      end
  | Seq r1 r2 => rmatch icase r1 s (λ s', rmatch icase r2 s' k)
  | Alt r1 r2 => rmatch icase r1 s k || rmatch icase r2 s k
  | Opt r1 => rmatch icase r1 s k || k s
  | Eol => at_end s && k s
  end.

(** [bool(re.search(r, s, flags))] *)
Fixpoint search (icase : bool) (r : regex) (s : string) : bool :=
  rmatch icase r s (λ _, true)
  || match s with
     | EmptyString => false
     | String _ s' => search icase r s'
     end.

(** The words of a pattern without [$], lower-cased: the finite language
    it denotes under [re.I]. *)
Fixpoint words (r : regex) : list string :=
  match r with
  | Eps => [EmptyString]
  | Chr c => [String (Str.lower_ascii c) EmptyString]
  | Seq r1 r2 => w1 ← words r1; w2 ← words r2; [w1 +:+ w2]
  | Alt r1 r2 => words r1 ++ words r2
  | Opt r1 => words r1 ++ [EmptyString]
  | Eol => []
  end.

Fixpoint eol_free (r : regex) : bool :=
  match r with
  | Eps | Chr _ => true
  | Seq r1 r2 | Alt r1 r2 => eol_free r1 && eol_free r2
  | Opt r1 => eol_free r1
  | Eol => false
  end.

End Re.

(* ===================================================================== *)
(** ** urllib.parse and re as used by the scraper

    [urljoin], [urldefrag], [urlparse] and [re.search] on configured
    patterns belong to the Python standard library, not to the repository.
    The scraper is embedded over this interface; [None] is a raised
    exception ([ValueError] for an invalid IPv6 netloc, for instance). *)
(* ===================================================================== *)

(** The components of a parsed URL that the scraper reads or that decide
    them. *)
Record ParseResult : Type := mkParse {
  scheme : string;
  netloc : string;
  path : string;
  query : string;
  fragment : string
}.

Class UrlLib : Type := {
  urlparse : string → option ParseResult;
  urljoin : string → string → option string;
  urldefrag : string → option (string * string);
  (** [re.search(pattern, s) is not None] for a configured pattern *)
  re_search : string → string → bool
}.

(* ===================================================================== *)
(** ** URLUtils *)
(* ===================================================================== *)

Module URLUtils.
Section with_lib.
Context `{UrlLib}.

(** [URLUtils.normalize_link]; [None] is Python's [None]. *)
Definition normalize_link (current_url href : string) : option string :=
  if decide (href = EmptyString) then None
  else
    let href := Str.strip href in
    if Str.startswith_any href ["mailto:"; "tel:"; "javascript:"; "#"] then None
    else
      match urljoin current_url href with
      | None => None
      | Some abs_url =>
          match urldefrag abs_url with
          | None => None
          | Some (abs_url, _frag) => Some abs_url
          end
      end.

(** [URLUtils.is_same_origin]; [None] when [urlparse] raises. *)
Definition is_same_origin (seed candidate : string) : option bool :=
  a ← urlparse seed;
  b ← urlparse candidate;
  Some (bool_decide ((scheme a, netloc a) = (scheme b, netloc b))).

(** [URLUtils.matches_blocklist] *)
Definition matches_blocklist (url : string) (patterns : list string) : bool :=
  existsb (λ p, re_search p url) patterns.

(** [URLUtils.sanitize_path]; [None] when [urlparse] raises. *)
Definition sanitize_path (url : string) : option string :=
  u ← urlparse url;
  let p := path u in
  if bool_decide (p = EmptyString) || Str.endswith p "/"
  then Some (p +:+ "index.html")
  else Some p.

End with_lib.

(** The pattern
    [\.(pdf|zip|png|jpe?g|webp|gif|svg|ico|mp4|mov|mp3|wav|woff2?|ttf|eot)$] *)
Definition asset_extensions : Re.regex :=
  Re.Seq (Re.Chr ".")
    (Re.Seq
       (Re.alts
          [ Re.lit "pdf"; Re.lit "zip"; Re.lit "png";
            Re.Seq (Re.lit "jp") (Re.Seq (Re.Opt (Re.Chr "e")) (Re.Chr "g"));
            Re.lit "webp"; Re.lit "gif"; Re.lit "svg"; Re.lit "ico";
            Re.lit "mp4"; Re.lit "mov"; Re.lit "mp3"; Re.lit "wav";
            Re.Seq (Re.lit "woff") (Re.Opt (Re.Chr "2"));
            Re.lit "ttf"; Re.lit "eot" ])
       Re.Eol).

(** [URLUtils.is_asset_url]: the pattern is searched in the whole URL
    string, with [re.I]. *)
Definition is_asset_url (url : string) : bool :=
  Re.search true asset_extensions url.

(** The seventeen endings that [asset_extensions] spells out. *)
Definition asset_endings : list string :=
  [".pdf"; ".zip"; ".png"; ".jpeg"; ".jpg"; ".webp"; ".gif"; ".svg"; ".ico";
   ".mp4"; ".mov"; ".mp3"; ".wav"; ".woff2"; ".woff"; ".ttf"; ".eot"].

End URLUtils.

(* ===================================================================== *)
(** ** A model of the standard library

    An executable model of [urllib.parse] (CPython 3.11: [urlsplit],
    [urlparse], [urlunparse], [urljoin], [urldefrag]) and of [re.search]
    on patterns made of literal and backslash-escaped characters, which is
    the shape of the default [block_host_patterns].  The general results
    below hold for every [UrlLib]; this instance is what the scraper is
    run on when a site is given explicitly. *)
(* ===================================================================== *)

Module PyUrl.

Definition uses_relative : list string :=
  [""; "ftp"; "http"; "gopher"; "nntp"; "imap"; "wais"; "file"; "https";
   "shttp"; "mms"; "prospero"; "rtsp"; "rtspu"; "sftp"; "svn"; "svn+ssh";
   "ws"; "wss"].

Definition uses_netloc : list string :=
  [""; "ftp"; "http"; "gopher"; "nntp"; "telnet"; "imap"; "wais"; "file";
   "mms"; "https"; "shttp"; "snews"; "prospero"; "rtsp"; "rtspu"; "rsync";
   "svn"; "svn+ssh"; "sftp"; "nfs"; "git"; "git+ssh"; "ws"; "wss"].

Definition uses_params : list string :=
  [""; "ftp"; "hdl"; "prospero"; "http"; "imap"; "https"; "shttp"; "rtsp";
   "rtspu"; "sip"; "sips"; "mms"; "sftp"; "tel"].

Definition mem (s : string) (l : list string) : bool := bool_decide (s ∈ l).

Definition is_alpha (c : ascii) : bool :=
  let n := N_of_ascii c in
  ((65 <=? n) && (n <=? 90) || (97 <=? n) && (n <=? 122))%N.

Definition is_digit (c : ascii) : bool :=
  let n := N_of_ascii c in ((48 <=? n) && (n <=? 57))%N.

(** [c in scheme_chars] *)
Definition scheme_char (c : ascii) : bool :=
  is_alpha c || is_digit c || bool_decide (c = "+"%char)
  || bool_decide (c = "-"%char) || bool_decide (c = "."%char).

Fixpoint all_chars (p : ascii → bool) (s : string) : bool :=
  match s with
  | EmptyString => true
  | String c s' => p c && all_chars p s'
  end.

Fixpoint filter_chars (p : ascii → bool) (s : string) : string :=
  match s with
  | EmptyString => EmptyString
  | String c s' => if p c then String c (filter_chars p s') else filter_chars p s'
  end.

(** [url.lstrip(_WHATWG_C0_CONTROL_OR_SPACE)] *)
Fixpoint lstrip_c0 (s : string) : string :=
  match s with
  | String c s' => if (N_of_ascii c <=? 32)%N then lstrip_c0 s' else s
  | EmptyString => EmptyString
  end.

(** Removal of [_UNSAFE_URL_BYTES_TO_REMOVE] (tab, CR, LF). *)
Definition remove_unsafe (s : string) : string :=
  filter_chars (λ c, negb (bool_decide (c = "009"%char) || bool_decide (c = "010"%char)
                           || bool_decide (c = "013"%char))) s.

(** [_splitnetloc(url, 2)] on a [url] that starts with two slashes, given
    without them: the netloc runs up to the first of [/?#]. *)
Fixpoint splitnetloc (s : string) : string * string :=
  match s with
  | EmptyString => (EmptyString, EmptyString)
  | String c s' =>
      if bool_decide (c = "/"%char) || bool_decide (c = "?"%char) || bool_decide (c = "#"%char)
      then (EmptyString, s)
      else let '(n, r) := splitnetloc s' in (String c n, r)
  end.

Definition nonempty (s : string) : bool := negb (bool_decide (s = EmptyString)).

(** [int(s, 10)] on a string of decimal digits. *)
Definition decimal (s : string) : N :=
  (fix go (s : string) (acc : N) : N :=
     match s with
     | EmptyString => acc
     | String c s' => go s' (10 * acc + (N_of_ascii c - 48))%N
     end) s 0%N.

(** [ipaddress.IPv4Address._parse_octet] returns. *)
Definition octet_ok (o : string) : bool :=
  nonempty o && all_chars is_digit o && (String.length o <=? 3)%nat
  && (bool_decide (o = "0") || negb (Str.startswith o "0"))
  && (decimal o <=? 255)%N.

(** [ipaddress.IPv4Address(a)] returns. *)
Definition ipv4_ok (a : string) : bool :=
  negb (Str.contains "/" a) && nonempty a
  && (let octets := Str.split "." a in
      bool_decide (length octets = 4%nat) && forallb octet_ok octets).

(** [c in _HEX_DIGITS] *)
Definition is_hex (c : ascii) : bool :=
  let n := N_of_ascii c in
  is_digit c || ((65 <=? n) && (n <=? 70) || (97 <=? n) && (n <=? 102))%N.

(** [ipaddress.IPv6Address._parse_hextet] returns. *)
Definition hextet_ok (h : string) : bool :=
  all_chars is_hex h && (String.length h <=? 4)%nat && nonempty h.

(** The search for [skip_index] in [_ip_int_from_string] over
    [parts[1:-1]], from index [i]: [None] when a second empty part is
    found. *)
Fixpoint find_skip (i : nat) (inner : list string) (found : option nat)
  : option (option nat) :=
  match inner with
  | [] => Some found
  | p :: inner' =>
      if nonempty p then find_skip (S i) inner' found
      else match found with
           | Some _ => None
           | None => find_skip (S i) inner' (Some i)
           end
  end.

(** [ipaddress.IPv6Address(a)] returns.  The two hextets that replace an
    IPv4 suffix are valid whatever the address is; ["0"] stands for
    them. *)
Definition ipv6_ok (a : string) : bool :=
  negb (Str.contains "/" a)
  && (let '(addr, scope_id) := Str.cut "%" a in
      (negb (Str.contains "%" a)
       || nonempty scope_id && negb (Str.contains "%" scope_id))
      && nonempty addr
      && (let parts := Str.split ":" addr in
          (3 <=? length parts)%nat
          && (let suffix := default EmptyString (last parts) in
              (if Str.contains "." suffix then ipv4_ok suffix else true)
              && (let parts :=
                    if Str.contains "." suffix
                    then removelast parts ++ ["0"; "0"] else parts in
                  let first_empty := negb (nonempty (default EmptyString (head parts))) in
                  let last_empty := negb (nonempty (default EmptyString (last parts))) in
                  (length parts <=? 9)%nat
                  && match find_skip 1 (removelast (tail parts)) None with
                     | None => false
                     | Some (Some skip_index) =>
                         let parts_hi := skip_index in
                         let parts_lo := (length parts - skip_index - 1)%nat in
                         let parts_hi' := if first_empty then pred parts_hi else parts_hi in
                         let parts_lo' := if last_empty then pred parts_lo else parts_lo in
                         (if first_empty then bool_decide (parts_hi' = 0%nat) else true)
                         && (if last_empty then bool_decide (parts_lo' = 0%nat) else true)
                         && (parts_hi' + parts_lo' <=? 7)%nat
                         && forallb hextet_ok (take parts_hi' parts)
                         && forallb hextet_ok (drop (length parts - parts_lo') parts)
                     | Some None =>
                         bool_decide (length parts = 8%nat)
                         && negb first_empty && negb last_empty
                         && forallb hextet_ok parts
                     end)))).

(** [re.match] of the IPvFuture pattern, [v], hexadecimal digits, a dot
    and at least one more character up to the end, on a string that starts
    with [v]: the digits run up to the dot, and [.] matches no newline. *)
Fixpoint after_hex (s : string) : string :=
  match s with
  | String c s' => if is_hex c then after_hex s' else s
  | EmptyString => EmptyString
  end.

Definition ipvfuture_ok (h : string) : bool :=
  match h with
  | String "v" (String c rest) =>
      is_hex c
      && match after_hex rest with
         | String "." tail => nonempty tail && negb (Str.contains "010" tail)
         | _ => false
         end
  | _ => false
  end.

(** [_check_bracketed_host(hostname)] returns. *)
Definition check_bracketed_host (hostname : string) : bool :=
  if Str.startswith hostname "v" then ipvfuture_ok hostname
  else negb (ipv4_ok hostname) && ipv6_ok hostname.

(** [_check_bracketed_netloc(netloc)] returns. *)
Definition check_bracketed_netloc (netloc : string) : bool :=
  let hostname_and_port := String.rev (fst (Str.cut "@" (String.rev netloc))) in
  if Str.contains "[" hostname_and_port then
    let '(before_bracket, bracketed) := Str.cut "[" hostname_and_port in
    if nonempty before_bracket then false
    else
      let '(hostname, port) := Str.cut "]" bracketed in
      if nonempty port && negb (Str.startswith port ":") then false
      else check_bracketed_host hostname
  else check_bracketed_host (fst (Str.cut ":" hostname_and_port)).

Record SplitResult : Type := mkSplit {
  s_scheme : string; s_netloc : string; s_path : string;
  s_query : string; s_fragment : string
}.

(** [urlsplit(url, scheme)] *)
Definition urlsplit (url default_scheme : string) : option SplitResult :=
  let url := remove_unsafe (lstrip_c0 url) in
  let '(sch, url) :=
    match url with
    | String c0 _ =>
        if Str.contains ":" url && is_alpha c0 then
          let '(pre, post) := Str.cut ":" url in
          if all_chars scheme_char pre then (Str.lower pre, post)
          else (default_scheme, url)
        else (default_scheme, url)
    | EmptyString => (default_scheme, url)
    end in
  nl ←
    match url with
    | String "/" (String "/" rest) =>
        let '(n, r) := splitnetloc rest in
        if xorb (Str.contains "[" n) (Str.contains "]" n) then None
        else if Str.contains "[" n && Str.contains "]" n
                && negb (check_bracketed_netloc n) then None
        else Some (n, r)
    | _ => Some (EmptyString, url)
    end;
  let '(n, url) := nl in
  let '(url, frag) :=
    if Str.contains "#" url then Str.cut "#" url else (url, EmptyString) in
  let '(url, q) :=
    if Str.contains "?" url then Str.cut "?" url else (url, EmptyString) in
  Some (mkSplit sch n url q frag).

(** The text up to and including the last slash, and the text after it. *)
Definition rcut_slash (s : string) : string * string :=
  let '(rtail, rhead) := Str.cut "/" (String.rev s) in
  (String.rev rhead +:+ "/", String.rev rtail).

(** [_splitparams(url)], called when [';' in url] *)
Definition splitparams (url : string) : string * string :=
  if Str.contains "/" url then
    let '(head, tail) := rcut_slash url in
    if Str.contains ";" tail then
      let '(t, p) := Str.cut ";" tail in (head +:+ t, p)
    else (url, EmptyString)
  else Str.cut ";" url.

(** [urlparse(url, scheme)] *)
Definition urlparse6 (url default_scheme : string) : option (SplitResult * string) :=
  r ← urlsplit url default_scheme;
  if mem (s_scheme r) uses_params && Str.contains ";" (s_path r) then
    let '(p, params) := splitparams (s_path r) in
    Some (mkSplit (s_scheme r) (s_netloc r) p (s_query r) (s_fragment r), params)
  else Some (r, EmptyString).

(** [urlunsplit] *)
Definition urlunsplit (r : SplitResult) : string :=
  let url := s_path r in
  let url :=
    if nonempty (s_netloc r)
       || (nonempty (s_scheme r) && mem (s_scheme r) uses_netloc
           && negb (Str.startswith url "//"))
    then
      let url := if nonempty url && negb (Str.startswith url "/")
                 then "/" +:+ url else url in
      "//" +:+ s_netloc r +:+ url
    else url in
  let url := if nonempty (s_scheme r) then s_scheme r +:+ ":" +:+ url else url in
  let url := if nonempty (s_query r) then url +:+ "?" +:+ s_query r else url in
  if nonempty (s_fragment r) then url +:+ "#" +:+ s_fragment r else url.

(** [urlunparse] *)
Definition urlunparse (r : SplitResult) (params : string) : string :=
  let p := if nonempty params then s_path r +:+ ";" +:+ params else s_path r in
  urlunsplit (mkSplit (s_scheme r) (s_netloc r) p (s_query r) (s_fragment r)).

(** [segments[1:-1] = filter(None, segments[1:-1])] *)
Definition drop_inner_empty (segments : list string) : list string :=
  match segments with
  | [] => []
  | first :: rest =>
      match last rest with
      | None => [first]
      | Some l => first :: filter (λ w, w ≠ EmptyString) (removelast rest) ++ [l]
      end
  end.

(** The loop of [urljoin] over the segments; [resolved] is kept reversed. *)
Fixpoint resolve (segments : list string) (resolved : list string) : list string :=
  match segments with
  | [] => rev resolved
  | seg :: segments' =>
      if bool_decide (seg = "..") then resolve segments' (tail resolved)
      else if bool_decide (seg = ".") then resolve segments' resolved
      else resolve segments' (seg :: resolved)
  end.

(** [urljoin(base, url)] *)
Definition urljoin (base url : string) : option string :=
  if bool_decide (base = EmptyString) then Some url
  else if bool_decide (url = EmptyString) then Some base
  else
    '(b, bparams) ← urlparse6 base EmptyString;
    '(u, params) ← urlparse6 url (s_scheme b);
    if negb (bool_decide (s_scheme u = s_scheme b)) || negb (mem (s_scheme u) uses_relative)
    then Some url
    else if mem (s_scheme u) uses_netloc && nonempty (s_netloc u)
    then Some (urlunparse u params)
    else
      let nl := if mem (s_scheme u) uses_netloc then s_netloc b else s_netloc u in
      if negb (nonempty (s_path u)) && negb (nonempty params) then
        let q := if nonempty (s_query u) then s_query u else s_query b in
        Some (urlunparse (mkSplit (s_scheme u) nl (s_path b) q (s_fragment u)) bparams)
      else
        let base_parts := Str.split "/" (s_path b) in
        let base_parts :=
          if bool_decide (last base_parts = Some EmptyString) then base_parts
          else removelast base_parts in
        let segments :=
          if Str.startswith (s_path u) "/" then Str.split "/" (s_path u)
          else drop_inner_empty (base_parts ++ Str.split "/" (s_path u)) in
        let resolved := resolve segments [] in
        let resolved :=
          if bool_decide (last segments = Some ".") || bool_decide (last segments = Some "..")
          then resolved ++ [EmptyString] else resolved in
        let p := Str.join "/" resolved in
        let p := if nonempty p then p else "/" in
        Some (urlunparse (mkSplit (s_scheme u) nl p (s_query u) (s_fragment u)) params).

(** [urldefrag(url)] *)
Definition urldefrag (url : string) : option (string * string) :=
  if Str.contains "#" url then
    '(r, params) ← urlparse6 url EmptyString;
    Some (urlunparse (mkSplit (s_scheme r) (s_netloc r) (s_path r) (s_query r) EmptyString) params,
          s_fragment r)
  else Some (url, EmptyString).

(** [urlparse(url)] as the scraper reads it. *)
Definition urlparse (url : string) : option ParseResult :=
  '(r, _) ← urlparse6 url EmptyString;
  Some (mkParse (s_scheme r) (s_netloc r) (s_path r) (s_query r) (s_fragment r)).

(** A pattern of literal and backslash-escaped characters. *)
Fixpoint literal_pattern (p : string) : Re.regex :=
  match p with
  | EmptyString => Re.Eps
  | String "\" (String c p') => Re.Seq (Re.Chr c) (literal_pattern p')
  | String c p' => Re.Seq (Re.Chr c) (literal_pattern p')
  end.

Definition re_search (pattern s : string) : bool :=
  Re.search false (literal_pattern pattern) s.

#[export] Instance lib : UrlLib :=
  Build_UrlLib urlparse urljoin urldefrag re_search.

End PyUrl.


(* ===================================================================== *)
(** ** UICollector *)
(* ===================================================================== *)

(** The structured values handed over by the renderer ([page.evaluate])
    and stored as they are in the inventory. *)
Inductive json : Type :=
| JNull
| JBool (b : bool)
| JNum (n : Z)
| JStr (s : string)
| JArr (items : list json)
| JObj (fields : list (string * json)).

(** [ui_data]: a dict read with [.get(key, [])]; an absent key is [None]. *)
Record UiData : Type := mkUiData {
  ui_fonts : option (list string);
  ui_colors : option (list string);
  ui_links : option (list json);
  ui_buttons : option (list json);
  ui_canvases : option (list json);
  ui_controls : option (list json);
  ui_components : option (list json)
}.

(** [page_data]: the dict returned by [collect_from_page]; an absent key
    is [None], so that [{}] is the record of four [None]. *)
Record PageData : Type := mkPageData {
  pd_ui_data : option UiData;
  pd_css_variables : option (list (string * json));
  pd_page_meta : option json;
  pd_url : option string
}.

Record PageRecord : Type := mkPageRecord {
  pr_url : string;
  pr_meta : json;
  pr_links : list json
}.

Record InventoryMeta : Type := mkMeta {
  total_pages : Z;
  total_assets : Z;
  scraping_start : string;
  scraping_end : string
}.

(** [UICollector.inventory] *)
Record Inventory : Type := mkInventory {
  inv_seed : string;
  inv_pages : list PageRecord;
  inv_fonts : gset string;
  inv_colors : gset string;
  inv_buttons : list json;
  inv_links : list json;
  inv_css_variables : gmap string string;
  inv_canvases : list json;
  inv_interactive_controls : list json;
  inv_components : list json;
  inv_meta : InventoryMeta
}.

Module UICollector.

(** [UICollector.__init__] *)
Definition init : Inventory :=
  mkInventory "" [] ∅ ∅ [] [] ∅ [] [] [] (mkMeta 0 0 "" "").

Definition empty_ui_data : UiData :=
  mkUiData None None None None None None None.

(** [d.get(key, [])] *)
Definition get_list {A} (o : option (list A)) : list A := default [] o.

(** [not page_data]: [None] or the empty dict. *)
Definition falsy (page_data : option PageData) : bool :=
  match page_data with
  | None => true
  | Some (mkPageData None None None None) => true
  | Some _ => false
  end.

Definition add_all (xs : list string) (X : gset string) : gset string :=
  foldl (λ acc x, acc ∪ {[x]}) X xs.

(** The loop over [css_variables.items()]: a value is kept when it is a
    non-empty string. *)
Definition merge_css (items : list (string * json)) (m : gmap string string)
  : gmap string string :=
  foldl (λ acc kv,
           match kv.2 with
           | JStr v => if decide (v = EmptyString) then acc else <[kv.1 := v]> acc
           | _ => acc
           end) m items.

(** [UICollector.update_inventory].  The inventory is mutated in place:
    the result is the inventory after the call and whether the call
    returned ([true]) or raised [KeyError] on [page_data["url"]]
    ([false]), in which case fonts and colors are already merged. *)
Definition update_inventory (inv : Inventory) (page_data : option PageData)
  : Inventory * bool :=
  if falsy page_data then (inv, true)
  else
    match page_data with
    | None => (inv, true)
    | Some pd =>
        let ui_data := default empty_ui_data (pd_ui_data pd) in
        let fonts := add_all (get_list (ui_fonts ui_data)) (inv_fonts inv) in
        let colors := add_all (get_list (ui_colors ui_data)) (inv_colors inv) in
        match pd_url pd with
        | None =>
            (mkInventory (inv_seed inv) (inv_pages inv) fonts colors
               (inv_buttons inv) (inv_links inv) (inv_css_variables inv)
               (inv_canvases inv) (inv_interactive_controls inv)
               (inv_components inv) (inv_meta inv), false)
        | Some url =>
            let page :=
              mkPageRecord url (default (JObj []) (pd_page_meta pd))
                (take 200 (get_list (ui_links ui_data))) in
            (mkInventory (inv_seed inv) (inv_pages inv ++ [page]) fonts colors
               (inv_buttons inv ++ take 100 (get_list (ui_buttons ui_data)))
               (inv_links inv)
               (merge_css (default [] (pd_css_variables pd)) (inv_css_variables inv))
               (inv_canvases inv ++ get_list (ui_canvases ui_data))
               (inv_interactive_controls inv ++ get_list (ui_controls ui_data))
               (inv_components inv ++ get_list (ui_components ui_data))
               (inv_meta inv), true)
        end
    end.

(** The inventory once [finalize_inventory] has replaced the two sets by
    lists. *)
Record FinalInventory : Type := mkFinalInventory {
  fin_seed : string;
  fin_pages : list PageRecord;
  fin_fonts : list string;
  fin_colors : list string;
  fin_buttons : list json;
  fin_links : list json;
  fin_css_variables : gmap string string;
  fin_canvases : list json;
  fin_interactive_controls : list json;
  fin_components : list json;
  fin_meta : InventoryMeta
}.

(** [sorted(list(X))] for a set of strings: [str] is ordered by code
    points, as [String.le] is, and the elements of a set are distinct, so
    that the sorted list does not depend on the sorting algorithm. *)
Definition sorted (X : gset string) : list string :=
  merge_sort String.le (elements X).

(** [UICollector.finalize_inventory]; [now] is the reading of
    [time.strftime]. *)
Definition finalize_inventory (now : string) (inv : Inventory) : FinalInventory :=
  mkFinalInventory (inv_seed inv) (inv_pages inv)
    (sorted (inv_fonts inv)) (sorted (inv_colors inv))
    (inv_buttons inv) (inv_links inv) (inv_css_variables inv)
    (inv_canvases inv) (inv_interactive_controls inv) (inv_components inv)
    (mkMeta (total_pages (inv_meta inv)) (total_assets (inv_meta inv))
       (scraping_start (inv_meta inv)) now).

End UICollector.

(* ===================================================================== *)
(** ** ScraperConfig and the command line *)
(* ===================================================================== *)

Record ScraperConfig : Type := mkConfig {
  max_pages : Z;
  max_depth : Z;
  concurrency_pages : Z;
  navigation_timeout_ms : Z;
  network_idle_ms : Z;
  page_delay_ms : Z;
  save_content_types : list string;
  block_host_patterns : list string;
  headless : bool;
  user_agent : string;
  viewport_desktop : Z * Z;
  viewport_mobile : Z * Z;
  save_screenshots : bool;
  save_html : bool;
  save_assets : bool;
  collect_ui_inventory : bool;
  retry_failed_pages : bool;
  max_retries : Z;
  respect_robots_txt : bool;
  custom_headers : list (string * string)
}.

(** The defaults of the dataclass. *)
Definition default_config : ScraperConfig := {|
  max_pages := 200;
  max_depth := 3;
  concurrency_pages := 4;
  navigation_timeout_ms := 30000;
  network_idle_ms := 1500;
  page_delay_ms := 100;
  save_content_types :=
    ["text/html"; "text/css"; "application/javascript";
     "application/x-javascript"; "image/"; "font/"];
  block_host_patterns :=
    ["googletagmanager\.com"; "google-analytics\.com"; "hotjar\.com";
     "facebook\.com"; "doubleclick\.net"; "googlesyndication\.com"];
  headless := true;
  user_agent :=
    "Mozilla/5.0 (Windows NT 10.0; Win64; x64) AppleWebKit/537.36 (KHTML, like Gecko) Chrome/123.0.0.0 Safari/537.36";
  viewport_desktop := (1920, 1080);
  viewport_mobile := (390, 844);
  save_screenshots := true;
  save_html := true;
  save_assets := true;
  collect_ui_inventory := true;
  retry_failed_pages := true;
  max_retries := 3;
  respect_robots_txt := false;
  custom_headers := []
|}.

(** The namespace returned by [parser.parse_args()].  [arg_config] is the
    configuration read by [ScraperConfig.from_file] when [--config] is
    given. *)
Record Args : Type := mkArgs {
  arg_url : string;
  arg_output : string;
  arg_config : option ScraperConfig;
  arg_save_config : option string;
  arg_max_pages : option Z;
  arg_max_depth : option Z;
  arg_concurrency : option Z;
  arg_headless : bool;
  arg_cross_origin : bool;
  arg_respect_robots : bool;
  arg_save_screenshots : bool;
  arg_save_html : bool;
  arg_save_assets : bool;
  arg_collect_ui_inventory : bool;
  arg_timeout : option Z;
  arg_delay : option Z;
  arg_user_agent : option string
}.

Module Cli.

Definition set_max_pages (v : Z) (c : ScraperConfig) : ScraperConfig :=
  mkConfig v (max_depth c) (concurrency_pages c) (navigation_timeout_ms c)
    (network_idle_ms c) (page_delay_ms c) (save_content_types c)
    (block_host_patterns c) (headless c) (user_agent c) (viewport_desktop c)
    (viewport_mobile c) (save_screenshots c) (save_html c) (save_assets c)
    (collect_ui_inventory c) (retry_failed_pages c) (max_retries c)
    (respect_robots_txt c) (custom_headers c).

Definition set_max_depth (v : Z) (c : ScraperConfig) : ScraperConfig :=
  mkConfig (max_pages c) v (concurrency_pages c) (navigation_timeout_ms c)
    (network_idle_ms c) (page_delay_ms c) (save_content_types c)
    (block_host_patterns c) (headless c) (user_agent c) (viewport_desktop c)
    (viewport_mobile c) (save_screenshots c) (save_html c) (save_assets c)
    (collect_ui_inventory c) (retry_failed_pages c) (max_retries c)
    (respect_robots_txt c) (custom_headers c).

Definition set_concurrency_pages (v : Z) (c : ScraperConfig) : ScraperConfig :=
  mkConfig (max_pages c) (max_depth c) v (navigation_timeout_ms c)
    (network_idle_ms c) (page_delay_ms c) (save_content_types c)
    (block_host_patterns c) (headless c) (user_agent c) (viewport_desktop c)
    (viewport_mobile c) (save_screenshots c) (save_html c) (save_assets c)
    (collect_ui_inventory c) (retry_failed_pages c) (max_retries c)
    (respect_robots_txt c) (custom_headers c).

Definition set_headless (v : bool) (c : ScraperConfig) : ScraperConfig :=
  mkConfig (max_pages c) (max_depth c) (concurrency_pages c)
    (navigation_timeout_ms c) (network_idle_ms c) (page_delay_ms c)
    (save_content_types c) (block_host_patterns c) v (user_agent c)
    (viewport_desktop c) (viewport_mobile c) (save_screenshots c) (save_html c)
    (save_assets c) (collect_ui_inventory c) (retry_failed_pages c)
    (max_retries c) (respect_robots_txt c) (custom_headers c).

Definition set_navigation_timeout_ms (v : Z) (c : ScraperConfig) : ScraperConfig :=
  mkConfig (max_pages c) (max_depth c) (concurrency_pages c) v
    (network_idle_ms c) (page_delay_ms c) (save_content_types c)
    (block_host_patterns c) (headless c) (user_agent c) (viewport_desktop c)
    (viewport_mobile c) (save_screenshots c) (save_html c) (save_assets c)
    (collect_ui_inventory c) (retry_failed_pages c) (max_retries c)
    (respect_robots_txt c) (custom_headers c).

Definition set_page_delay_ms (v : Z) (c : ScraperConfig) : ScraperConfig :=
  mkConfig (max_pages c) (max_depth c) (concurrency_pages c)
    (navigation_timeout_ms c) (network_idle_ms c) v (save_content_types c)
    (block_host_patterns c) (headless c) (user_agent c) (viewport_desktop c)
    (viewport_mobile c) (save_screenshots c) (save_html c) (save_assets c)
    (collect_ui_inventory c) (retry_failed_pages c) (max_retries c)
    (respect_robots_txt c) (custom_headers c).

Definition set_user_agent (v : string) (c : ScraperConfig) : ScraperConfig :=
  mkConfig (max_pages c) (max_depth c) (concurrency_pages c)
    (navigation_timeout_ms c) (network_idle_ms c) (page_delay_ms c)
    (save_content_types c) (block_host_patterns c) (headless c) v
    (viewport_desktop c) (viewport_mobile c) (save_screenshots c) (save_html c)
    (save_assets c) (collect_ui_inventory c) (retry_failed_pages c)
    (max_retries c) (respect_robots_txt c) (custom_headers c).

Definition set_respect_robots_txt (v : bool) (c : ScraperConfig) : ScraperConfig :=
  mkConfig (max_pages c) (max_depth c) (concurrency_pages c)
    (navigation_timeout_ms c) (network_idle_ms c) (page_delay_ms c)
    (save_content_types c) (block_host_patterns c) (headless c) (user_agent c)
    (viewport_desktop c) (viewport_mobile c) (save_screenshots c) (save_html c)
    (save_assets c) (collect_ui_inventory c) (retry_failed_pages c)
    (max_retries c) v (custom_headers c).

(** [if args.x is not None: config.x = args.x] *)
Definition override {A} (o : option A) (set : A → ScraperConfig → ScraperConfig)
    (c : ScraperConfig) : ScraperConfig :=
  match o with Some v => set v c | None => c end.

(** The configuration that [main] hands to [SiteScraper]: the file
    configuration or the defaults, then the overrides, in the order of
    the source.  [args.headless] is a [store_true]/[store_false] flag and
    is never [None]; an empty [--user-agent] is falsy. *)
Definition main_config (args : Args) : ScraperConfig :=
  let config := default default_config (arg_config args) in
  let config := override (arg_max_pages args) set_max_pages config in
  let config := override (arg_max_depth args) set_max_depth config in
  let config := override (arg_concurrency args) set_concurrency_pages config in
  let config := set_headless (arg_headless args) config in
  let config := override (arg_timeout args) set_navigation_timeout_ms config in
  let config := override (arg_delay args) set_page_delay_ms config in
  let config :=
    match arg_user_agent args with
    | Some ua => if decide (ua = EmptyString) then config else set_user_agent ua config
    | None => config
    end in
  (* Handle cross-origin setting *)
  if arg_cross_origin args then set_respect_robots_txt false config else config.

(** The namespace of a command line that gives only the URL. *)
Definition args_of_url (url : string) : Args :=
  mkArgs url "scrape_output" None None None None None false false false
    true true true true None None None.

End Cli.

(* ===================================================================== *)
(** ** FileUtils *)
(* ===================================================================== *)

(** [pathlib.Path] and [mimetypes] as [FileUtils] and [AssetProcessor] use
    them; they belong to the standard library.  [None] is a raised
    exception ([with_suffix] raises [ValueError] on a path without a name
    or on an invalid suffix). *)
Class PathLib : Type := {
  Path : Type;
  (** [base / part] *)
  joinpath : Path → string → Path;
  (** [p.name] *)
  path_name : Path → string;
  (** [p.suffix] *)
  path_suffix : Path → string;
  (** [p.with_suffix(suffix)] *)
  with_suffix : Path → string → option Path;
  (** [mimetypes.guess_extension(type)] *)
  guess_extension : string → option string
}.

Module FileUtils.

(** The character class of [safe_filename]: the characters [<], [>], [:],
    the double quote, [/], the backslash, [|], [?] and [*]. *)
Definition unsafe_char (c : ascii) : bool :=
  bool_decide (c ∈ ["<"; ">"; ":"; "034"; "/"; "\"; "|"; "?"; "*"]%char).

(** [FileUtils.safe_filename]: [re.sub] of a one-character class by [_]. *)
Fixpoint safe_filename (filename : string) : string :=
  match filename with
  | EmptyString => EmptyString
  | String c rest =>
      String (if unsafe_char c then "_"%char else c) (safe_filename rest)
  end.

Section with_lib.
Context `{UrlLib} `{PathLib}.

(** [FileUtils.get_output_path] up to the creation of the parent
    directories; [None] when [urlparse] or [with_suffix] raises. *)
Definition get_output_path (base_dir : Path) (url content_type : string) : option Path :=
  u ← urlparse url;
  let safe_host := Str.replace_char ":" "_" (netloc u) in
  path ← URLUtils.sanitize_path url;
  let target := joinpath (joinpath base_dir safe_host) (Str.lstrip_char "/" path) in
  if Str.startswith content_type "text/html"
     && negb (Str.endswith (path_name target) ".html")
  then with_suffix target ".html"
  else Some target.

End with_lib.
End FileUtils.

(* ===================================================================== *)
(** ** AssetProcessor *)
(* ===================================================================== *)

(** A network response as [handle_response] reads it. *)
Record Response : Type := mkResponse {
  resp_url : string;
  resp_headers : gmap string string
}.

Module AssetProcessor.
Section with_lib.
Context `{UrlLib} `{PathLib}.
Variable config : ScraperConfig.
Variable output_dir : Path.

(** A file written by [handle_response]. *)
Record Stored : Type := mkStored {
  stored_url : string;
  stored_path : Path;
  stored_body : string
}.

(** [saved_assets], the files written so far, oldest first, and the
    handlers that wait in [await response.body()]. *)
Record assets : Type := mkAssets {
  saved_assets : gset string;
  files : list Stored;
  waiting : list Response
}.

(** [response.headers.get("content-type", "")] *)
Definition content_type_of (response : Response) : string :=
  default EmptyString (resp_headers response !! "content-type").

(** [handle_response] up to [await response.body()]: whether the handler
    goes on to read the body. *)
Definition wants_body (response : Response) (saved : gset string) : bool :=
  if negb (save_assets config) then false
  else
    let url := resp_url response in
    if URLUtils.matches_blocklist url (block_host_patterns config) then false
    else
      let content_type := content_type_of response in
      if bool_decide (content_type = EmptyString) then false
      else if negb (existsb (Str.startswith content_type) (save_content_types config))
      then false
      else if bool_decide (url ∈ saved) then false
      else true.

(** [mimetypes.guess_extension(content_type.split(";")[0].strip()) or ".bin"] *)
Definition guessed_extension (content_type : string) : string :=
  match guess_extension (Str.strip (fst (Str.cut ";" content_type))) with
  | Some ext => if bool_decide (ext = EmptyString) then ".bin" else ext
  | None => ".bin"
  end.

(** The path the body is written to; [None] when a step raises. *)
Definition asset_path (response : Response) : option Path :=
  path ← FileUtils.get_output_path output_dir (resp_url response) (content_type_of response);
  if bool_decide (path_suffix path = EmptyString)
  then with_suffix path (guessed_extension (content_type_of response))
  else Some path.

(** [handle_response] from the moment [response.body()] completes.
    [body = None]: reading the body raised; [io_ok = false]: creating the
    directories, opening or writing the file raised.  Every exception is
    caught and logged by [handle_response]. *)
Definition save_body (response : Response) (body : option string) (io_ok : bool)
    (a : assets) : assets :=
  match body with
  | None => a
  | Some body =>
      if bool_decide (body = EmptyString) then a
      else
        match asset_path response with
        | None => a
        | Some path =>
            if io_ok then
              mkAssets (saved_assets a ∪ {[resp_url response]})
                (files a ++ [mkStored (resp_url response) path body])
                (waiting a)
            else a
        end
  end.

(** What the event loop delivers to the handlers of one session. *)
Inductive asset_event : Type :=
| Arrives (response : Response)
    (* the context emits a response: a handler starts *)
| BodyRead (k : nat) (body : option string) (io_ok : bool).
    (* [response.body()] completes in the [k]-th waiting handler *)

Definition asset_step (ev : asset_event) (a : assets) : option assets :=
  match ev with
  | Arrives response =>
      if wants_body response (saved_assets a)
      then Some (mkAssets (saved_assets a) (files a) (waiting a ++ [response]))
      else Some a
  | BodyRead k body io_ok =>
      match waiting a !! k with
      | Some response =>
          Some (save_body response body io_ok
                  (mkAssets (saved_assets a) (files a) (delete k (waiting a))))
      | None => None
      end
  end.

Fixpoint asset_exec (evs : list asset_event) (a : assets) : option assets :=
  match evs with
  | [] => Some a
  | ev :: evs' => a' ← asset_step ev a; asset_exec evs' a'
  end.

(** [AssetProcessor.__init__] *)
Definition asset_init : assets := mkAssets ∅ [] [].

(** One handler that runs from the response to the end without another
    handler in between. *)
Definition handle_response (response : Response) (body : option string) (io_ok : bool)
    (a : assets) : assets :=
  if wants_body response (saved_assets a)
  then save_body response body io_ok a
  else a.

(** The responses handled one after the other. *)
Fixpoint handle_all (rs : list (Response * option string * bool)) (a : assets) : assets :=
  match rs with
  | [] => a
  | (response, body, io_ok) :: rs' =>
      handle_all rs' (handle_response response body io_ok a)
  end.

(** The filters of [handle_response] that do not depend on what was
    saved before. *)
Definition acceptable (response : Response) : Prop :=
  save_assets config = true
  ∧ URLUtils.matches_blocklist (resp_url response) (block_host_patterns config) = false
  ∧ content_type_of response ≠ EmptyString
  ∧ existsb (Str.startswith (content_type_of response)) (save_content_types config) = true.

(** The file was written for a response that passed the filters, with a
    body that is not empty, at the path computed for the response. *)
Definition justified (f : Stored) : Prop :=
  stored_body f ≠ EmptyString
  ∧ ∃ response, acceptable response ∧ resp_url response = stored_url f
                ∧ asset_path response = Some (stored_path f).

Record asset_invariant (a : assets) : Prop := mkAssetInvariant {
  files_justified : Forall justified (files a);
  waiting_acceptable : Forall acceptable (waiting a);
  saved_are_files : saved_assets a = list_to_set (stored_url <$> files a)
}.

End with_lib.
End AssetProcessor.

(* ===================================================================== *)
(** ** SiteScraper: the frontier and the worker pool *)
(* ===================================================================== *)

(** Where a worker task is suspended.  Between [to_visit.get()] returning
    and [context.new_page()] nothing suspends: the queue is unbounded and
    the semaphore has as many permits as there are workers, each of which
    holds at most one, so [acquire] never waits; the semaphore is therefore
    not part of the state. *)
Inductive wstate : Type :=
| WGet                              (* in [await self.to_visit.get()] *)
| WNewPage (url : string) (depth : Z)  (* in [context.new_page()] / [set_viewport_size] *)
| WGoto (url : string) (depth : Z)     (* in [page.goto] and the page delay *)
| WProcess (url : string) (depth : Z)  (* in the processors and [collect_from_page] *)
| WLinks (url : string) (depth : Z)    (* in [page.eval_on_selector_all] *)
| WClose (url : string) (depth : Z) (load_failed : bool)
    (* in [await page.close()]: in the [except] clause of [goto], with
       [failed_urls.add] still to come, when [load_failed] is set; in the
       [finally] clause of the processing otherwise *)
| WExit.                            (* the task has returned or died *)

(** What the event loop delivers to a worker. *)
Inductive event : Type :=
| Dequeue (i : nat)
    (* [get()] returns in worker [i] *)
| PageOpened (i : nat) (ok : bool)
    (* the renderer page is ready, or [new_page] raised *)
| Navigated (i : nat) (ok : bool)
    (* [goto] and the delay returned, or [goto] raised *)
| Collected (i : nat) (page_data : option PageData)
    (* the processors are done and [collect_from_page] returned *)
| Hrefs (i : nat) (hrefs : option (list string))
    (* [eval_on_selector_all] returned the hrefs, or raised *)
| Closed (i : nat) (ok : bool).
    (* [page.close()] returned, or raised *)

(** The mutable state of a [SiteScraper] during [run].  [opened] is a
    history variable: the entries for which [_scrape_page] went past its
    guards and opened a renderer page, oldest first. *)
Record state : Type := mkState {
  to_visit : list (string * Z);
  unfinished_tasks : Z;
  seen_urls : gset string;
  failed_urls : gset string;
  page_count : Z;
  inventory : Inventory;
  workers : list wstate;
  opened : list (string * Z)
}.

Module SiteScraper.
Section with_session.
Context `{UrlLib}.
Variable config : ScraperConfig.
Variable start_url : string.
(** The reading of [time.strftime] in [__init__]. *)
Variable start_stamp : string.

Definition set_to_visit (q : list (string * Z)) (s : state) : state :=
  mkState q (unfinished_tasks s) (seen_urls s) (failed_urls s) (page_count s)
    (inventory s) (workers s) (opened s).

Definition set_worker (i : nat) (w : wstate) (s : state) : state :=
  mkState (to_visit s) (unfinished_tasks s) (seen_urls s) (failed_urls s)
    (page_count s) (inventory s) (<[i := w]> (workers s)) (opened s).

Definition set_inventory (inv : Inventory) (s : state) : state :=
  mkState (to_visit s) (unfinished_tasks s) (seen_urls s) (failed_urls s)
    (page_count s) inv (workers s) (opened s).

(** [await self.to_visit.put(item)] *)
Definition put (item : string * Z) (s : state) : state :=
  mkState (to_visit s ++ [item]) (unfinished_tasks s + 1) (seen_urls s)
    (failed_urls s) (page_count s) (inventory s) (workers s) (opened s).

(** [self.to_visit.task_done()] *)
Definition task_done (s : state) : state :=
  mkState (to_visit s) (unfinished_tasks s - 1) (seen_urls s) (failed_urls s)
    (page_count s) (inventory s) (workers s) (opened s).

(** [self.seen_urls.add(url)] *)
Definition seen_add (url : string) (s : state) : state :=
  mkState (to_visit s) (unfinished_tasks s) (seen_urls s ∪ {[url]})
    (failed_urls s) (page_count s) (inventory s) (workers s) (opened s).

(** [self.failed_urls.add(url)] *)
Definition failed_add (url : string) (s : state) : state :=
  mkState (to_visit s) (unfinished_tasks s) (seen_urls s)
    (failed_urls s ∪ {[url]}) (page_count s) (inventory s) (workers s) (opened s).

(** [self.page_count += 1] *)
Definition count_page (s : state) : state :=
  mkState (to_visit s) (unfinished_tasks s) (seen_urls s) (failed_urls s)
    (page_count s + 1) (inventory s) (workers s) (opened s).

Definition record_opened (item : string * Z) (s : state) : state :=
  mkState (to_visit s) (unfinished_tasks s) (seen_urls s) (failed_urls s)
    (page_count s) (inventory s) (workers s) (opened s ++ [item]).

(** [SiteScraper._check_robots_txt] *)
Definition check_robots_txt (url : string) : bool := true.

(** The test that guards [put] in [_discover_links]. *)
Definition should_visit (next_url : string) (current_depth : Z) (s : state) : bool :=
  bool_decide (next_url ∉ seen_urls s) && bool_decide (next_url ∉ failed_urls s)
  && (current_depth + 1 <=? max_depth config).

(** The guarded [put] that ends the body of the loop in
    [_discover_links]: the enqueue operation of the frontier. *)
Definition enqueue (next_url : string) (current_depth : Z) (s : state) : state :=
  if should_visit next_url current_depth s
  then put (next_url, current_depth + 1) s
  else s.

(** The [for href in hrefs] loop of [_discover_links].  An exception
    raised by [is_same_origin] leaves the loop: the [except] clause of
    [_discover_links] logs it. *)
Fixpoint discover_loop (current_url : string) (current_depth : Z)
    (hrefs : list string) (s : state) : state :=
  match hrefs with
  | [] => s
  | href :: hrefs' =>
      match URLUtils.normalize_link current_url href with
      | None => discover_loop current_url current_depth hrefs' s
      | Some next_url =>
          if decide (next_url = EmptyString)
          then discover_loop current_url current_depth hrefs' s
          else
            let off_site :=
              if respect_robots_txt config then Some false
              else negb <$> URLUtils.is_same_origin start_url next_url in
            match off_site with
            | None => s
            | Some true => discover_loop current_url current_depth hrefs' s
            | Some false =>
                if URLUtils.is_asset_url next_url
                then discover_loop current_url current_depth hrefs' s
                else discover_loop current_url current_depth hrefs'
                       (enqueue next_url current_depth s)
            end
      end
  end.

(** [SiteScraper._discover_links], from the moment the hrefs arrive;
    [None] is [eval_on_selector_all] raising. *)
Definition discover_links (current_url : string) (current_depth : Z)
    (hrefs : option (list string)) (s : state) : state :=
  match hrefs with
  | None => s
  | Some hrefs => discover_loop current_url current_depth hrefs s
  end.

(** The worker leaves [_scrape_page] by a [return] or at its end:
    [task_done] in the [finally] of [_worker], then back to [get()]. *)
Definition finish (i : nat) (s : state) : state :=
  set_worker i WGet (task_done s).

(** The worker leaves [_worker]: by the [return] under the page cap or
    by an exception that [_scrape_page] lets through ([new_page],
    [set_viewport_size] or [page.close] raising); [task_done] still
    runs. *)
Definition leave (i : nat) (s : state) : state :=
  set_worker i WExit (task_done s).

(** [_scrape_page] up to [await context.new_page()]. *)
Definition scrape_page_begin (i : nat) (url : string) (depth : Z) (s : state) : state :=
  if bool_decide (url ∈ seen_urls s) then finish i s
  else
    let s := seen_add url s in
    if respect_robots_txt config && negb (check_robots_txt url) then finish i s
    else if URLUtils.matches_blocklist url (block_host_patterns config) then finish i s
    else set_worker i (WNewPage url depth) (record_opened (url, depth) s).

(** One resumption of one worker.  [None]: the event is not enabled in
    this state. *)
Definition step (ev : event) (s : state) : option state :=
  match ev with
  | Dequeue i =>
      match workers s !! i, to_visit s with
      | Some WGet, (url, depth) :: q =>
          let s := set_to_visit q s in
          if max_pages config <=? page_count s then Some (leave i s)
          else Some (scrape_page_begin i url depth s)
      | _, _ => None
      end
  | PageOpened i ok =>
      match workers s !! i with
      | Some (WNewPage url depth) =>
          if ok then Some (set_worker i (WGoto url depth) s)
          else Some (leave i s)
      | _ => None
      end
  | Navigated i ok =>
      match workers s !! i with
      | Some (WGoto url depth) =>
          if ok then Some (set_worker i (WProcess url depth) (count_page s))
          else Some (set_worker i (WClose url depth true) s)
      | _ => None
      end
  | Collected i page_data =>
      match workers s !! i with
      | Some (WProcess url depth) =>
          if collect_ui_inventory config then
            let '(inv, returned) := UICollector.update_inventory (inventory s) page_data in
            let s := set_inventory inv s in
            if returned then Some (set_worker i (WLinks url depth) s)
            else Some (set_worker i (WClose url depth false) (failed_add url s))
          else Some (set_worker i (WLinks url depth) s)
      | _ => None
      end
  | Hrefs i hrefs =>
      match workers s !! i with
      | Some (WLinks url depth) =>
          Some (set_worker i (WClose url depth false) (discover_links url depth hrefs s))
      | _ => None
      end
  | Closed i ok =>
      match workers s !! i with
      | Some (WClose url depth load_failed) =>
          if ok then Some (finish i (if load_failed then failed_add url s else s))
          else Some (leave i s)
      | _ => None
      end
  end.

(** A schedule: the events in the order the event loop delivers them. *)
Fixpoint exec (evs : list event) (s : state) : option state :=
  match evs with
  | [] => Some s
  | ev :: evs' => s' ← step ev s; exec evs' s'
  end.

(** [__init__] and [run] up to [await self.to_visit.join()], in a run
    whose browser and browser context could be launched.  [__init__]
    parses the start URL for [seed_origin], so it raises when [urlparse]
    does; [asyncio.Semaphore] raises [ValueError] on a negative value. *)
Definition start : option state :=
  if bool_decide (urlparse start_url = None) then None
  else if concurrency_pages config <? 0 then None
  else
    let inv := UICollector.init in
    let inv :=
      mkInventory start_url (inv_pages inv) (inv_fonts inv) (inv_colors inv)
        (inv_buttons inv) (inv_links inv) (inv_css_variables inv)
        (inv_canvases inv) (inv_interactive_controls inv) (inv_components inv)
        (mkMeta (total_pages (inv_meta inv)) (total_assets (inv_meta inv))
           start_stamp (scraping_end (inv_meta inv))) in
    Some (put (start_url, 0)
            (mkState [] 0 ∅ ∅ 0 inv
               (replicate (Z.to_nat (concurrency_pages config)) WGet) [])).

(** The states a session can be in. *)
Definition reachable (s : state) : Prop :=
  ∃ s0 evs, start = Some s0 ∧ exec evs s0 = Some s.

(** [to_visit.join()] returns: every entry put was marked done. *)
Definition joined (s : state) : Prop := unfinished_tasks s = 0.

(** No event is enabled: no worker will ever run again. *)
Definition stuck (s : state) : Prop := ∀ ev, step ev s = None.

End with_session.
End SiteScraper.

(* ===================================================================== *)
(** ** Invariants of a session *)
(* ===================================================================== *)

Module Crawl.
Section invariant.
Context `{UrlLib}.
Variable config : ScraperConfig.
Variable start_url : string.

(** The entry a worker has in hand. *)
Definition holds (w : wstate) : option (string * Z) :=
  match w with
  | WNewPage u d | WGoto u d | WProcess u d | WLinks u d | WClose u d _ => Some (u, d)
  | WGet | WExit => None
  end.

Record invariant (s : state) : Prop := mkInvariant {
  failed_seen : failed_urls s ⊆ seen_urls s;
  held_seen : ∀ i w u d,
    workers s !! i = Some w → holds w = Some (u, d) → u ∈ seen_urls s;
  opened_seen : ∀ u d, (u, d) ∈ opened s → u ∈ seen_urls s;
  opened_once : NoDup ((opened s).*1);
  depth_bound : ∀ u d,
    (u, d) ∈ to_visit s ++ opened s → d ≤ Z.max 0 (max_depth config)
}.

(** A worker that passed the page cap test and whose page is not counted
    yet. *)
Definition loading (w : wstate) : bool :=
  match w with
  | WNewPage _ _ | WGoto _ _ => true
  | WGet | WProcess _ _ | WLinks _ _ | WClose _ _ _ | WExit => false
  end.

Definition loading_count (ws : list wstate) : Z :=
  Z.of_nat (length (filter (λ w, loading w = true) ws)).

(** The pages counted and the pages that will be counted if they load. *)
Record cap_invariant (s : state) : Prop := mkCapInvariant {
  pool_size : Z.of_nat (length (workers s)) = concurrency_pages config;
  cap_slack :
    page_count s + loading_count (workers s)
    ≤ Z.max 0 (max_pages config + concurrency_pages config - 1)
}.

(** The configuration [c] with other retry settings. *)
Definition retry_settings (enabled : bool) (retries : Z) (c : ScraperConfig)
  : ScraperConfig :=
  mkConfig (max_pages c) (max_depth c) (concurrency_pages c)
    (navigation_timeout_ms c) (network_idle_ms c) (page_delay_ms c)
    (save_content_types c) (block_host_patterns c) (headless c) (user_agent c)
    (viewport_desktop c) (viewport_mobile c) (save_screenshots c) (save_html c)
    (save_assets c) (collect_ui_inventory c) enabled retries
    (respect_robots_txt c) (custom_headers c).

(** What [_discover_links] may add to the frontier of [s] from a page at
    depth [current_depth]. *)
Definition admissible (current_depth : Z) (s : state) (item : string * Z) : Prop :=
  snd item = current_depth + 1 ∧ current_depth + 1 ≤ max_depth config
  ∧ (fst item ∉ seen_urls s) ∧ (fst item ∉ failed_urls s).

End invariant.
End Crawl.

(* ===================================================================== *)
(** ** The moves of a session and its books *)
(* ===================================================================== *)

Module Ledger.
Section ledger.
Context `{UrlLib}.
Variable config : ScraperConfig.
Variable start_url : string.
Variable start_stamp : string.

Import SiteScraper.

(** The moves of [SiteScraper.step], one constructor for each path
    through [_worker] and [_scrape_page] between two suspension points. *)
Inductive transition (s : state) : state → Prop :=
| t_discard i url depth q :
    workers s !! i = Some WGet → to_visit s = (url, depth) :: q →
    max_pages config ≤ page_count s →
    transition s (leave i (set_to_visit q s))
| t_duplicate i url depth q :
    workers s !! i = Some WGet → to_visit s = (url, depth) :: q →
    page_count s < max_pages config → url ∈ seen_urls s →
    transition s (finish i (set_to_visit q s))
| t_blocked i url depth q :
    workers s !! i = Some WGet → to_visit s = (url, depth) :: q →
    page_count s < max_pages config → url ∉ seen_urls s →
    URLUtils.matches_blocklist url (block_host_patterns config) = true →
    transition s (finish i (seen_add url (set_to_visit q s)))
| t_open i url depth q :
    workers s !! i = Some WGet → to_visit s = (url, depth) :: q →
    page_count s < max_pages config → url ∉ seen_urls s →
    URLUtils.matches_blocklist url (block_host_patterns config) = false →
    transition s
      (set_worker i (WNewPage url depth)
         (record_opened (url, depth) (seen_add url (set_to_visit q s))))
| t_page_ready i url depth :
    workers s !! i = Some (WNewPage url depth) →
    transition s (set_worker i (WGoto url depth) s)
| t_page_error i url depth :
    workers s !! i = Some (WNewPage url depth) →
    transition s (leave i s)
| t_loaded i url depth :
    workers s !! i = Some (WGoto url depth) →
    transition s (set_worker i (WProcess url depth) (count_page s))
| t_load_failed i url depth :
    workers s !! i = Some (WGoto url depth) →
    transition s (set_worker i (WClose url depth true) s)
| t_collected i url depth page_data inv :
    workers s !! i = Some (WProcess url depth) →
    collect_ui_inventory config = true →
    UICollector.update_inventory (inventory s) page_data = (inv, true) →
    transition s (set_worker i (WLinks url depth) (set_inventory inv s))
| t_collect_error i url depth page_data inv :
    workers s !! i = Some (WProcess url depth) →
    collect_ui_inventory config = true →
    UICollector.update_inventory (inventory s) page_data = (inv, false) →
    transition s
      (set_worker i (WClose url depth false) (failed_add url (set_inventory inv s)))
| t_not_collected i url depth :
    workers s !! i = Some (WProcess url depth) →
    collect_ui_inventory config = false →
    transition s (set_worker i (WLinks url depth) s)
| t_links i url depth hrefs :
    workers s !! i = Some (WLinks url depth) →
    transition s
      (set_worker i (WClose url depth false)
         (discover_links config start_url url depth hrefs s))
| t_closed i url depth load_failed :
    workers s !! i = Some (WClose url depth load_failed) →
    transition s (finish i (if load_failed then failed_add url s else s))
| t_close_error i url depth load_failed :
    workers s !! i = Some (WClose url depth load_failed) →
    transition s (leave i s).

(** The number of workers in a state that [p] accepts. *)
Definition tally (p : wstate → bool) (ws : list wstate) : Z :=
  Z.of_nat (length (filter (λ w, p w = true) ws)).

(** The worker has an entry in hand: [task_done] is still to come. *)
Definition holding (w : wstate) : bool :=
  match w with
  | WNewPage _ _ | WGoto _ _ | WProcess _ _ | WLinks _ _ | WClose _ _ _ => true
  | WGet | WExit => false
  end.

(** The page is counted and its data is not merged yet. *)
Definition processing (w : wstate) : bool :=
  match w with
  | WProcess _ _ => true
  | _ => false
  end.

(** Where a frontier entry comes from: it is the seed, or a link that
    [_discover_links] let through. *)
Definition provenance (item : string * Z) : Prop :=
  item = (start_url, 0)
  ∨ (1 ≤ snd item ∧ fst item ≠ EmptyString
     ∧ URLUtils.is_asset_url (fst item) = false
     ∧ (respect_robots_txt config = false →
        URLUtils.is_same_origin start_url (fst item) = Some true)).

(** What [_discover_links] appends for a page at [current_url]. *)
Definition discovered (current_url : string) (current_depth : Z)
    (hrefs : list string) (item : string * Z) : Prop :=
  snd item = current_depth + 1
  ∧ fst item ≠ EmptyString
  ∧ (∃ href, href ∈ hrefs ∧ URLUtils.normalize_link current_url href = Some (fst item))
  ∧ URLUtils.is_asset_url (fst item) = false
  ∧ (respect_robots_txt config = false →
     URLUtils.is_same_origin start_url (fst item) = Some true).

(** The books of a session. *)
Record ledger (s : state) : Prop := mkLedger {
  queue_account :
    unfinished_tasks s
    = Z.of_nat (length (to_visit s)) + tally holding (workers s);
  held_opened : ∀ i w u d,
    workers s !! i = Some w → Crawl.holds w = Some (u, d) → (u, d) ∈ opened s;
  failed_opened : ∀ u, u ∈ failed_urls s → u ∈ (opened s).*1;
  opened_allowed : ∀ u d,
    (u, d) ∈ opened s →
    URLUtils.matches_blocklist u (block_host_patterns config) = false;
  counted_opened :
    0 ≤ page_count s
    ∧ page_count s + tally Crawl.loading (workers s) ≤ Z.of_nat (length (opened s));
  pages_counted :
    Z.of_nat (length (inv_pages (inventory s))) + tally processing (workers s)
    ≤ page_count s;
  inventory_frame :
    inv_seed (inventory s) = start_url
    ∧ inv_links (inventory s) = []
    ∧ inv_meta (inventory s) = mkMeta 0 0 start_stamp EmptyString;
  frontier_provenance : ∀ item, item ∈ to_visit s ++ opened s → provenance item
}.

(** One state comes after the other in a session. *)
Definition follows (s s' : state) : Prop :=
  ∃ evs, exec config start_url evs s = Some s'.

(** What [update_inventory] leaves of the inventory it is given. *)
Definition inventory_grows (inv inv' : Inventory) : Prop :=
  inv_pages inv `prefix_of` inv_pages inv'
  ∧ inv_fonts inv ⊆ inv_fonts inv'
  ∧ inv_colors inv ⊆ inv_colors inv'
  ∧ inv_buttons inv `prefix_of` inv_buttons inv'
  ∧ inv_canvases inv `prefix_of` inv_canvases inv'
  ∧ inv_interactive_controls inv `prefix_of` inv_interactive_controls inv'
  ∧ inv_components inv `prefix_of` inv_components inv'.

(** What a session keeps of an earlier state. *)
Definition grows (s s' : state) : Prop :=
  seen_urls s ⊆ seen_urls s'
  ∧ failed_urls s ⊆ failed_urls s'
  ∧ page_count s ≤ page_count s'
  ∧ opened s `prefix_of` opened s'
  ∧ inventory_grows (inventory s) (inventory s')
  ∧ length (workers s') = length (workers s)
  ∧ (∀ i, workers s !! i = Some WExit → workers s' !! i = Some WExit).

(** The worker that an event resumes. *)
Definition worker_of (ev : event) : nat :=
  match ev with
  | Dequeue i | PageOpened i _ | Navigated i _ | Collected i _ | Hrefs i _
  | Closed i _ => i
  end.

(** The first event of a schedule that resumes worker [i]. *)
Fixpoint next_event (i : nat) (evs : list event) : option event :=
  match evs with
  | [] => None
  | ev :: evs' => if decide (worker_of ev = i) then Some ev else next_event i evs'
  end.

(** The URL that an event adds to [failed_urls], if any.  There are two
    [failed_urls.add] in [_scrape_page]: after [page.close()] has returned
    in the [except] clause of [goto], and in the [except] clause of the
    processing, which only [update_inventory] can reach, since the
    processors, [collect_from_page] and [_discover_links] catch their own
    exceptions. *)
Definition records_failure (ev : event) (s : state) : option string :=
  match ev with
  | Closed i true =>
      match workers s !! i with
      | Some (WClose url _ true) => Some url
      | _ => None
      end
  | Collected i page_data =>
      match workers s !! i with
      | Some (WProcess url _) =>
          if collect_ui_inventory config
             && negb (snd (UICollector.update_inventory (inventory s) page_data))
          then Some url else None
      | _ => None
      end
  | _ => None
  end.

(** No failure of the entry in hand has been recorded: the worker is
    anywhere but in the [finally] clause of the processing. *)
Definition clean (w : wstate) : bool :=
  match w with
  | WClose _ _ false => false
  | _ => true
  end.

(** No two workers have the same URL in hand. *)
Definition sole_holders (ws : list wstate) : Prop :=
  ∀ i j wi wj u d d',
    ws !! i = Some wi → ws !! j = Some wj →
    Crawl.holds wi = Some (u, d) → Crawl.holds wj = Some (u, d') → i = j.

(** Who has a URL in hand, and what that says about [failed_urls]. *)
Record custody (s : state) : Prop := mkCustody {
  held_once : sole_holders (workers s);
  held_clean : ∀ i w u d,
    workers s !! i = Some w → Crawl.holds w = Some (u, d) → clean w = true →
    u ∉ failed_urls s
}.

(** From [s] on, [url] has been taken up and no failure of it is
    recorded; only worker [i] may still have it in hand, closing the page
    of its failed navigation. *)
Definition unrecorded (i : nat) (url : string) (depth : Z) (s : state) : Prop :=
  url ∈ seen_urls s ∧ (url ∉ failed_urls s)
  ∧ (∀ j w d, workers s !! j = Some w → Crawl.holds w = Some (url, d) →
              j = i ∧ w = WClose url depth true).

End ledger.
End Ledger.

(* ===================================================================== *)
(** ** The URL classifier as the specification words it *)
(* ===================================================================== *)

Module Spec.

(** Follows the specification, not the source: [isAssetUrl] looks at the
    path component of the URL only, so that a query string does not
    matter.  [None] when the URL does not parse. *)
Definition isAssetUrl `{UrlLib} (url : string) : option bool :=
  p ← urlparse url;
  Some (existsb (Str.endswith (path p)) URLUtils.asset_endings).

End Spec.

(* ===================================================================== *)
(** ** Sessions on explicit sites *)
(* ===================================================================== *)

Module Demo.
Import (hints) PyUrl.

Definition site : string := "https://ex.com/".
Definition stamp : string := "2024-01-01 00:00:00".

(** What [collect_from_page] returns for a page without UI elements. *)
Definition page_data (url : string) : option PageData :=
  Some (mkPageData (Some (mkUiData (Some []) (Some []) (Some []) (Some [])
                            (Some []) (Some []) (Some [])))
          (Some []) (Some (JObj [])) (Some url)).

(** [scraper_enhanced.py https://ex.com/ --max-pages P --max-depth D
    --concurrency N] *)
Definition args (pages depth conc : Z) : Args :=
  mkArgs site "scrape_output" None None (Some pages) (Some depth) (Some conc)
    false false false true true true true None None None.

Definition config (pages depth conc : Z) : ScraperConfig :=
  Cli.main_config (args pages depth conc).

(** Worker [i] takes an entry and carries it through a page whose
    anchors are [hrefs]. *)
Definition visit (i : nat) (url : string) (hrefs : list string) : list event :=
  [Dequeue i; PageOpened i true; Navigated i true;
   Collected i (page_data url); Hrefs i (Some hrefs); Closed i true].

(** Two workers, a cap of two pages: after the seed, both workers pass
    the cap test before either page has loaded. *)
Definition race : list event :=
  visit 0 site ["/a"; "/b"]
  ++ [Dequeue 0; Dequeue 1; PageOpened 0 true; Navigated 0 true;
      PageOpened 1 true; Navigated 1 true].

(** One worker, a cap of one page, a seed with two links: the worker
    reaches the cap, takes the next entry and returns. *)
Definition capped : list event :=
  visit 0 site ["/a"; "/b"] ++ [Dequeue 0].

(** The seed does not load; its page is closed. *)
Definition seed_fails : list event :=
  [Dequeue 0; PageOpened 0 true; Navigated 0 false; Closed 0 true].

(** The seed does not load, and closing its page raises. *)
Definition seed_close_fails : list event :=
  [Dequeue 0; PageOpened 0 true; Navigated 0 false; Closed 0 false].

(** The state after a schedule; the start state when the schedule
    cannot run. *)
Definition after (c : ScraperConfig) (evs : list event) : option state :=
  s0 ← SiteScraper.start c site stamp; SiteScraper.exec c site evs s0.

(** [scraper_enhanced.py https://ex.com/ --cross-origin] *)
Definition cross_origin_args : Args :=
  mkArgs site "scrape_output" None None None None None
    false true false true true true true None None None.

(** [scraper_enhanced.py https://ex.com/ --config robots.yaml], where the
    file sets [respect_robots_txt: true] and nothing else. *)
Definition robots_file_args : Args :=
  mkArgs site "scrape_output"
    (Some (Cli.set_respect_robots_txt true default_config)) None None None None
    false false false true true true true None None None.

(** The state that a schedule leads to. *)
Definition final (c : ScraperConfig) (evs : list event) : state :=
  default (mkState [] 0 ∅ ∅ 0 UICollector.init [] []) (after c evs).

(** The seed page carries the same link twice. *)
Definition twice : list event := visit 0 site ["/a"; "/a"].

(** The seed is being navigated to. *)
Definition seed_loading : list event := [Dequeue 0; PageOpened 0 true].

(** The seed has loaded. *)
Definition seed_loaded : list event :=
  [Dequeue 0; PageOpened 0 true; Navigated 0 true].

(** A plain model of [pathlib] on relative POSIX names and of a few
    entries of [mimetypes], to run [FileUtils] and [AssetProcessor] on
    explicit responses. *)
Definition plain_joinpath (base part : string) : string :=
  if decide (part = EmptyString) then base else base +:+ "/" +:+ part.

Definition plain_name (p : string) : string :=
  if Str.contains "/" p then snd (PyUrl.rcut_slash p) else p.

(** The text of [name] from its last dot on, when that dot is not the
    first character. *)
Definition plain_suffix (p : string) : string :=
  match plain_name p with
  | EmptyString => EmptyString
  | String c rest =>
      if Str.contains "." rest
      then "." +:+ String.rev (fst (Str.cut "." (String.rev rest)))
      else EmptyString
  end.

Definition plain_with_suffix (p suffix : string) : option string :=
  if decide (plain_name p = EmptyString) then None
  else
    let old := String.length (plain_suffix p) in
    Some (String.substring 0 (String.length p - old) p +:+ suffix).

Definition plain_guess_extension (type : string) : option string :=
  if decide (type = "text/html") then Some ".html"
  else if decide (type = "text/css") then Some ".css"
  else if decide (type = "application/javascript") then Some ".js"
  else if decide (type = "image/png") then Some ".png"
  else None.

#[export] Instance paths : PathLib :=
  Build_PathLib string plain_joinpath plain_name plain_suffix plain_with_suffix
    plain_guess_extension.

Definition css_response : Response :=
  mkResponse "https://ex.com/static/site.css" {[ "content-type" := "text/css" ]}.

Definition tracker_response : Response :=
  mkResponse "https://www.google-analytics.com/collect"
    {[ "content-type" := "image/png" ]}.

(** A style sheet and a tracker pixel arrive; the body of the style sheet
    is read and written. *)
Definition asset_run : list AssetProcessor.asset_event :=
  [AssetProcessor.Arrives css_response; AssetProcessor.Arrives tracker_response;
   AssetProcessor.BodyRead 0 (Some "body{}") true].

(** The asset store after [asset_run] with the default configuration and
    the output directory [out]. *)
Definition asset_final : AssetProcessor.assets :=
  default AssetProcessor.asset_init
    (AssetProcessor.asset_exec default_config ("out" : string) asset_run
       AssetProcessor.asset_init).

(** The file that [asset_run] writes. *)
Definition css_file : AssetProcessor.Stored :=
  AssetProcessor.mkStored "https://ex.com/static/site.css"
    ("out/ex.com/static/site.css" : string) "body{}".

(** Page data with a font, a color and a CSS variable. *)
Definition styled_page : PageData :=
  mkPageData
    (Some (mkUiData (Some ["Arial"]) (Some ["rgb(0, 0, 0)"]) (Some []) (Some [])
             None None None))
    (Some [("--primary", JStr "red"); ("--primary", JStr ""); ("--gap", JNum 4)])
    (Some (JObj [])) (Some site).

(** The frontier state in which [_discover_links] is exercised below:
    the start state of a default session. *)
Definition fresh (c : ScraperConfig) : state :=
  default (mkState [] 0 ∅ ∅ 0 UICollector.init [] [])
    (SiteScraper.start c site stamp).

End Demo.

(* ===================================================================== *)
(** * Properties *)
(* ===================================================================== *)

Module CrawlFacts.
Section facts.
Context `{UrlLib}.
Variable config : ScraperConfig.
Variable start_url : string.
Variable start_stamp : string.

Import SiteScraper Crawl.

Abbreviation step := (SiteScraper.step config start_url).
Abbreviation exec := (SiteScraper.exec config start_url).
Abbreviation invariant := (Crawl.invariant config).

(** [_discover_links] only appends to the queue, and what it appends was
    admissible when the links arrived. *)
Lemma discover_loop_appends current_url current_depth hrefs s :
  ∃ new,
    discover_loop config start_url current_url current_depth hrefs s
    = mkState (to_visit s ++ new) (unfinished_tasks s + Z.of_nat (length new))
        (seen_urls s) (failed_urls s) (page_count s) (inventory s)
        (workers s) (opened s)
    ∧ Forall (admissible config current_depth s) new.
Proof.
  revert s. induction hrefs as [|href hrefs IH]; intros s.
  - exists []. split; [|constructor].
    destruct s; cbn. rewrite app_nil_r. f_equal. lia.
  - cbn [discover_loop].
    destruct (URLUtils.normalize_link current_url href) as [next_url|]; [|apply IH].
    destruct (decide (next_url = EmptyString)); [apply IH|].
    destruct (if respect_robots_txt config then Some false
              else negb <$> URLUtils.is_same_origin start_url next_url)
      as [[]|].
    + apply IH.
    + destruct (URLUtils.is_asset_url next_url); [apply IH|].
      unfold enqueue.
      destruct (should_visit config next_url current_depth s) eqn:Hv; [|apply IH].
      destruct (IH (put (next_url, current_depth + 1) s)) as (new & -> & Hnew).
      exists ((next_url, current_depth + 1) :: new). split.
      * cbn. rewrite <- app_assoc. cbn. f_equal. lia.
      * unfold should_visit in Hv.
        apply andb_prop in Hv as [Hv Hd]. apply andb_prop in Hv as [Hs Hf].
        apply bool_decide_eq_true in Hs, Hf. apply Z.leb_le in Hd.
        constructor; [done|].
        eapply Forall_impl; [exact Hnew|]. intros [u d] Ha. exact Ha.
    + exists []. split; [|constructor].
      destruct s; cbn. rewrite app_nil_r. f_equal. lia.
Qed.

Lemma discover_links_appends current_url current_depth hrefs s :
  ∃ new,
    discover_links config start_url current_url current_depth hrefs s
    = mkState (to_visit s ++ new) (unfinished_tasks s + Z.of_nat (length new))
        (seen_urls s) (failed_urls s) (page_count s) (inventory s)
        (workers s) (opened s)
    ∧ Forall (admissible config current_depth s) new.
Proof.
  destruct hrefs as [hrefs|]; [apply discover_loop_appends|].
  exists []. split; [|constructor].
  destruct s; cbn. rewrite app_nil_r. f_equal. lia.
Qed.

Lemma holds_insert (ws : list wstate) i w j w' :
  <[i := w]> ws !! j = Some w' → w' = w ∨ ws !! j = Some w'.
Proof.
  intros Hl. apply list_lookup_insert_Some in Hl as [(_ & -> & _)|[_ Hl]]; auto.
Qed.

Lemma failed_add_subseteq (F S : gset string) u :
  F ⊆ S → u ∈ S → F ∪ {[u]} ⊆ S.
Proof.
  intros HFS Hu x Hx. apply elem_of_union in Hx as [Hx|Hx]; [by apply HFS|].
  by apply elem_of_singleton in Hx as ->.
Qed.

(** A session starts when the start URL parses and the pool size is not
    negative. *)
Lemma start_Some s0 :
  start config start_url start_stamp = Some s0 →
  urlparse start_url ≠ None ∧ 0 ≤ concurrency_pages config
  ∧ to_visit s0 = [(start_url, 0)] ∧ unfinished_tasks s0 = 1
  ∧ seen_urls s0 = ∅ ∧ failed_urls s0 = ∅ ∧ page_count s0 = 0
  ∧ workers s0 = replicate (Z.to_nat (concurrency_pages config)) WGet
  ∧ opened s0 = []
  ∧ inv_seed (inventory s0) = start_url ∧ inv_links (inventory s0) = []
  ∧ inv_pages (inventory s0) = []
  ∧ inv_meta (inventory s0) = mkMeta 0 0 start_stamp EmptyString.
Proof.
  unfold start. case_bool_decide as Hp; [done|].
  destruct (Z.ltb_spec (concurrency_pages config) 0); [done|].
  intros [= <-]. by split_and!.
Qed.

Lemma invariant_start s0 :
  start config start_url start_stamp = Some s0 → invariant s0.
Proof.
  intros (_ & _ & Hq & _ & Hs & Hf & _ & Hws & Ho & _)%start_Some.
  split; rewrite ?Hq, ?Hs, ?Hf, ?Hws, ?Ho; cbn.
  - set_solver.
  - intros i w u d Hw Hh. apply lookup_replicate in Hw as [-> _]. done.
  - intros u d Hin. by apply elem_of_nil in Hin.
  - constructor.
  - intros u d Hin. apply list_elem_of_singleton in Hin as [= _ ->]. lia.
Qed.

Lemma invariant_step ev s s' :
  invariant s → step ev s = Some s' → invariant s'.
Proof.
  intros [Hfs Hhs Hos Hnd Hdb] Hstep.
  destruct ev as [i|i ok|i ok|i pd|i hrefs|i ok]; cbn in Hstep.
  - (* Dequeue *)
    destruct (workers s !! i) as [[]|] eqn:Hw; try done.
    destruct (to_visit s) as [|[url depth] q] eqn:Hq; [done|].
    assert (Hdq : ∀ u d, (u, d) ∈ q ++ opened s → d ≤ Z.max 0 (max_depth config)).
    { intros u d Hin. apply (Hdb u d). rewrite <- app_comm_cons. by right. }
    cbn in Hstep. destruct (max_pages config <=? page_count s).
    { injection Hstep as <-. split; cbn; try done.
      intros j w u d Hl Hh. apply holds_insert in Hl as [->|Hl]; [done|eauto]. }
    injection Hstep as <-. unfold scrape_page_begin.
    change (seen_urls (set_to_visit q s)) with (seen_urls s).
    case_bool_decide as Hseen.
    { split; cbn; try done.
      intros j w u d Hl Hh. apply holds_insert in Hl as [->|Hl]; [done|eauto]. }
    assert (Hskip : invariant (finish i (seen_add url (set_to_visit q s)))).
    { split; cbn.
      - set_solver.
      - intros j w u d Hl Hh. apply holds_insert in Hl as [->|Hl]; [done|].
        apply elem_of_union_l. eauto.
      - intros u d Hin. apply elem_of_union_l. eauto.
      - done.
      - done. }
    destruct (respect_robots_txt config && negb (check_robots_txt url));
      [exact Hskip|].
    destruct (URLUtils.matches_blocklist url (block_host_patterns config));
      [exact Hskip|].
    split; cbn.
    + set_solver.
    + intros j w u d Hl Hh. apply holds_insert in Hl as [->|Hl].
      * injection Hh as <- <-. set_solver.
      * apply elem_of_union_l. eauto.
    + intros u d Hin. apply elem_of_app in Hin as [Hin|Hin].
      * apply elem_of_union_l. eauto.
      * apply list_elem_of_singleton in Hin as [= -> ->]. set_solver.
    + rewrite fmap_app. apply NoDup_app. split; [done|]. split.
      * intros u Hin Hu. cbn in Hu. apply list_elem_of_singleton in Hu as ->.
        apply list_elem_of_fmap in Hin as ([u d] & -> & Hin). eauto.
      * apply NoDup_singleton.
    + intros u d Hin. rewrite app_assoc in Hin.
      apply elem_of_app in Hin as [Hin|Hin]; [eauto|].
      apply list_elem_of_singleton in Hin as [= -> ->].
      apply (Hdb url depth). rewrite <- app_comm_cons. left.
  - (* PageOpened *)
    destruct (workers s !! i) as [[| url depth | | | | |]|] eqn:Hw; try done.
    destruct ok; injection Hstep as <-; split; cbn; try done.
    + intros j w u d Hl Hh. apply holds_insert in Hl as [->|Hl]; [|eauto].
      injection Hh as <- <-. eapply Hhs; [exact Hw|done].
    + intros j w u d Hl Hh. apply holds_insert in Hl as [->|Hl]; [done|eauto].
  - (* Navigated *)
    destruct (workers s !! i) as [[| | url depth | | | |]|] eqn:Hw; try done.
    assert (Hu : url ∈ seen_urls s) by (eapply Hhs; [exact Hw|done]).
    destruct ok; injection Hstep as <-; split; cbn; try done.
    + intros j w u d Hl Hh. apply holds_insert in Hl as [->|Hl]; [|eauto].
      by injection Hh as <- <-.
    + intros j w u d Hl Hh. apply holds_insert in Hl as [->|Hl]; [|eauto].
      by injection Hh as <- <-.
  - (* Collected *)
    destruct (workers s !! i) as [[| | | url depth | | |]|] eqn:Hw; try done.
    assert (Hu : url ∈ seen_urls s) by (eapply Hhs; [exact Hw|done]).
    destruct (collect_ui_inventory config).
    + destruct (UICollector.update_inventory (inventory s) pd) as [inv []];
        injection Hstep as <-; split; cbn; try done.
      * intros j w u d Hl Hh. apply holds_insert in Hl as [->|Hl]; [|eauto].
        by injection Hh as <- <-.
      * by apply failed_add_subseteq.
      * intros j w u d Hl Hh. apply holds_insert in Hl as [->|Hl]; [|eauto].
        by injection Hh as <- <-.
    + injection Hstep as <-; split; cbn; try done.
      intros j w u d Hl Hh. apply holds_insert in Hl as [->|Hl]; [|eauto].
      by injection Hh as <- <-.
  - (* Hrefs *)
    destruct (workers s !! i) as [[| | | | url depth | |]|] eqn:Hw; try done.
    assert (Hu : url ∈ seen_urls s) by (eapply Hhs; [exact Hw|done]).
    injection Hstep as <-.
    destruct (discover_links_appends url depth hrefs s) as (new & -> & Hnew).
    split; cbn; try done.
    + intros j w u d Hl Hh. apply holds_insert in Hl as [->|Hl]; [|eauto].
      by injection Hh as <- <-.
    + intros u d Hin. rewrite <- app_assoc in Hin.
      apply elem_of_app in Hin as [Hin|Hin].
      { apply (Hdb u d), elem_of_app. by left. }
      apply elem_of_app in Hin as [Hin|Hin].
      * rewrite Forall_forall in Hnew. destruct (Hnew _ Hin) as (Hd & Hle & _).
        cbn in Hd. lia.
      * apply (Hdb u d), elem_of_app. by right.
  - (* Closed *)
    destruct (workers s !! i) as [[| | | | | url depth load_failed |]|] eqn:Hw;
      try done.
    assert (Hu : url ∈ seen_urls s) by (eapply Hhs; [exact Hw|done]).
    destruct ok; [destruct load_failed|]; injection Hstep as <-; split; cbn;
      try done;
      try (intros j w u d Hl Hh; apply holds_insert in Hl as [->|Hl]; [done|eauto]).
    by apply failed_add_subseteq.
Qed.

Lemma loading_count_cons w ws :
  loading_count (w :: ws) = (if loading w then 1 else 0) + loading_count ws.
Proof.
  unfold loading_count. rewrite filter_cons.
  destruct (loading w); [rewrite decide_True by done|rewrite decide_False by done];
    cbn [length]; lia.
Qed.

Lemma loading_count_insert ws i w w' :
  ws !! i = Some w →
  loading_count (<[i := w']> ws)
  = loading_count ws - (if loading w then 1 else 0) + (if loading w' then 1 else 0).
Proof.
  revert i. induction ws as [|x ws IH]; intros i Hi; [done|].
  destruct i as [|i]; cbn in Hi.
  - injection Hi as ->. change (<[0%nat := w']> (w :: ws)) with (w' :: ws).
    rewrite !loading_count_cons. lia.
  - change (<[S i := w']> (x :: ws)) with (x :: <[i := w']> ws).
    rewrite !loading_count_cons, (IH i Hi). lia.
Qed.

Lemma loading_count_idle ws i w :
  ws !! i = Some w → loading w = false →
  loading_count ws + 1 ≤ Z.of_nat (length ws).
Proof.
  revert i. induction ws as [|x ws IH]; intros i Hi Hw; [done|].
  rewrite loading_count_cons. cbn [length]. destruct i as [|i]; cbn in Hi.
  - injection Hi as ->. rewrite Hw.
    assert (loading_count ws ≤ Z.of_nat (length ws)); [|lia].
    unfold loading_count. pose proof (length_filter (λ w, loading w = true) ws). lia.
  - specialize (IH i Hi Hw). destruct (loading x); lia.
Qed.

Lemma loading_count_replicate n : loading_count (replicate n WGet) = 0.
Proof.
  induction n as [|n IH]; [done|]. cbn [replicate]. by rewrite loading_count_cons, IH.
Qed.

Lemma cap_invariant_start s0 :
  start config start_url start_stamp = Some s0 → cap_invariant config s0.
Proof.
  intros (_ & Hn & _ & _ & _ & _ & Hc & Hw & _)%start_Some.
  split; rewrite Hw, ?Hc.
  - rewrite length_replicate. lia.
  - rewrite loading_count_replicate. lia.
Qed.

Lemma cap_invariant_step ev s s' :
  cap_invariant config s → step ev s = Some s' → cap_invariant config s'.
Proof.
  intros [Hn Hc] Hstep.
  destruct ev as [i|i ok|i ok|i pd|i hrefs|i ok]; cbn in Hstep.
  - destruct (workers s !! i) as [[]|] eqn:Hw; try done.
    destruct (to_visit s) as [|[url depth] q] eqn:Hq; [done|].
    cbn in Hstep. destruct (Z.leb_spec (max_pages config) (page_count s)).
    { injection Hstep as <-. split; cbn.
      - by rewrite length_insert.
      - rewrite (loading_count_insert _ _ _ _ Hw). cbn. lia. }
    injection Hstep as <-. unfold scrape_page_begin.
    assert (Hidle : cap_invariant config (finish i (seen_add url (set_to_visit q s)))).
    { split; cbn.
      - by rewrite length_insert.
      - rewrite (loading_count_insert _ _ _ _ Hw). cbn. lia. }
    destruct (bool_decide _).
    { split; cbn.
      - by rewrite length_insert.
      - rewrite (loading_count_insert _ _ _ _ Hw). cbn. lia. }
    destruct (respect_robots_txt config && negb (check_robots_txt url));
      [exact Hidle|].
    destruct (URLUtils.matches_blocklist url (block_host_patterns config));
      [exact Hidle|].
    split; cbn.
    + by rewrite length_insert.
    + rewrite (loading_count_insert _ _ _ _ Hw). cbn.
      pose proof (loading_count_idle _ _ _ Hw eq_refl). lia.
  - destruct (workers s !! i) as [[| url depth | | | | |]|] eqn:Hw; try done.
    destruct ok; injection Hstep as <-; split; cbn;
      rewrite ?length_insert, ?(loading_count_insert _ _ _ _ Hw); cbn; lia.
  - destruct (workers s !! i) as [[| | url depth | | | |]|] eqn:Hw; try done.
    destruct ok; injection Hstep as <-; split; cbn;
      rewrite ?length_insert, ?(loading_count_insert _ _ _ _ Hw); cbn; lia.
  - destruct (workers s !! i) as [[| | | url depth | | |]|] eqn:Hw; try done.
    destruct (collect_ui_inventory config).
    + destruct (UICollector.update_inventory (inventory s) pd) as [inv []];
        injection Hstep as <-; split; cbn;
        rewrite ?length_insert, ?(loading_count_insert _ _ _ _ Hw); cbn; lia.
    + injection Hstep as <-; split; cbn;
        rewrite ?length_insert, ?(loading_count_insert _ _ _ _ Hw); cbn; lia.
  - destruct (workers s !! i) as [[| | | | url depth | |]|] eqn:Hw; try done.
    injection Hstep as <-.
    destruct (discover_links_appends url depth hrefs s) as (new & -> & _).
    split; cbn; rewrite ?length_insert, ?(loading_count_insert _ _ _ _ Hw); cbn; lia.
  - destruct (workers s !! i) as [[| | | | | url depth load_failed |]|] eqn:Hw;
      try done.
    destruct ok; [destruct load_failed|]; injection Hstep as <-; split; cbn;
      rewrite ?length_insert, ?(loading_count_insert _ _ _ _ Hw); cbn; lia.
Qed.

(** Under the cap a dequeued entry is dropped: nothing but the queue, its
    counter and the worker changes, and the worker is gone. *)
Lemma discard_under_cap s i item q :
  workers s !! i = Some WGet → to_visit s = item :: q →
  max_pages config ≤ page_count s →
  step (Dequeue i) s
  = Some (mkState q (unfinished_tasks s - 1) (seen_urls s) (failed_urls s)
            (page_count s) (inventory s) (<[i := WExit]> (workers s)) (opened s)).
Proof.
  intros Hw Hq Hc. cbn. rewrite Hw, Hq. destruct item as [url depth]. cbn.
  by destruct (Z.leb_spec (max_pages config) (page_count s)); [|lia].
Qed.

(** X4. With [N = concurrency_pages] workers the page counter never
    exceeds [max(0, max_pages + N - 1)]: beyond the cap, at most one page
    for each other worker that was loading when the cap was reached. *)
Lemma page_count_bound s :
  reachable config start_url start_stamp s →
  page_count s ≤ Z.max 0 (max_pages config + concurrency_pages config - 1).
Proof.
  intros (s0 & evs & Hs0 & Hex).
  assert (Hinv : cap_invariant config s).
  { apply cap_invariant_start in Hs0. revert s0 Hs0 Hex.
    induction evs as [|ev evs IH]; intros s0 Hs0 Hex; cbn in Hex.
    - by injection Hex as <-.
    - destruct (step ev s0) as [s1|] eqn:Hs; [|done]. cbn in Hex.
      eapply IH; [|exact Hex]. eapply cap_invariant_step; eauto. }
  destruct Hinv as [_ Hc]. unfold loading_count in Hc. lia.
Qed.

Lemma invariant_exec evs s s' :
  invariant s → exec evs s = Some s' → invariant s'.
Proof.
  revert s. induction evs as [|ev evs IH]; intros s Hinv Hex; cbn in Hex.
  - by injection Hex as <-.
  - destruct (step ev s) as [s1|] eqn:Hs; [|done]. cbn in Hex.
    eapply IH; [|exact Hex]. eapply invariant_step; eauto.
Qed.

Lemma invariant_reachable s :
  reachable config start_url start_stamp s → invariant s.
Proof.
  intros (s0 & evs & Hs0 & Hex).
  eapply invariant_exec; [|exact Hex]. by eapply invariant_start.
Qed.

End facts.
End CrawlFacts.

(* ===================================================================== *)
(** ** Strings and patterns *)
(* ===================================================================== *)

Module StrFacts.

Lemma app_nil_l (b : string) : "" +:+ b = b.
Proof. reflexivity. Qed.

Lemma app_cons (x : ascii) (a b : string) :
  String x a +:+ b = String x (a +:+ b).
Proof. reflexivity. Qed.

Lemma app_assoc (a b c : string) : (a +:+ b) +:+ c = a +:+ (b +:+ c).
Proof.
  induction a as [|x a IH]; [done|]. by rewrite !app_cons, IH.
Qed.

Lemma app_nil_r (a : string) : a +:+ "" = a.
Proof. induction a as [|x a IH]; [done|]. by rewrite app_cons, IH. Qed.

Lemma lower_app (a b : string) :
  Str.lower (a +:+ b) = Str.lower a +:+ Str.lower b.
Proof.
  induction a as [|x a IH]; [done|].
  rewrite app_cons. cbn [Str.lower]. by rewrite app_cons, IH.
Qed.

(** A lower-cased text splits where its source splits. *)
Lemma lower_app_inv (w a b : string) :
  Str.lower w = a +:+ b →
  ∃ w1 w2, w = w1 +:+ w2 ∧ Str.lower w1 = a ∧ Str.lower w2 = b.
Proof.
  revert w. induction a as [|x a IH]; intros w Hw.
  - by exists EmptyString, w.
  - destruct w as [|y w]; [done|]. rewrite app_cons in Hw. cbn [Str.lower] in Hw.
    injection Hw as Hy Hw.
    destruct (IH w Hw) as (w1 & w2 & -> & <- & <-).
    exists (String y w1), w2. cbn [Str.lower]. by rewrite Hy.
Qed.

End StrFacts.

Module ReFacts.
Import Re.

Lemma at_end_iff s : at_end s = true ↔ s = "" ∨ s = String "010" "".
Proof.
  destruct s as [|c [|c' s]]; cbn.
  - split; [by left|done].
  - rewrite bool_decide_eq_true. split.
    + intros ->. by right.
    + intros [?|Hc]; [done|]. by injection Hc.
  - split; [done|]. by intros [?|?].
Qed.

(** [rmatch] under [re.I] on a pattern without [$]: it consumes a prefix
    whose lower-casing is one of the words of the pattern. *)
Lemma rmatch_words r : eol_free r = true → ∀ s k,
  rmatch true r s k = true
  ↔ ∃ w t, s = w +:+ t ∧ Str.lower w ∈ words r ∧ k t = true.
Proof.
  induction r as [|c|r1 IH1 r2 IH2|r1 IH1 r2 IH2|r1 IH1|]; intros Hf s k;
    cbn in Hf; try apply andb_prop in Hf as [Hf1 Hf2]; cbn [rmatch words].
  - split.
    + intros Hk. exists EmptyString, s. repeat split; [|done]. by left.
    + intros (w & t & -> & Hw & Hk). apply list_elem_of_singleton in Hw.
      destruct w; [done|discriminate].
  - destruct s as [|a s].
    + split; [done|]. intros (w & t & Hs & Hw & _).
      apply list_elem_of_singleton in Hw. destruct w; discriminate.
    + unfold chr_eq. rewrite andb_true_iff, bool_decide_eq_true. split.
      * intros [Hc Hk]. exists (String a ""), s. cbn. rewrite Hc.
        repeat split; [|done]. by left.
      * intros (w & t & Hs & Hw & Hk). apply list_elem_of_singleton in Hw.
        destruct w as [|b [|]]; try discriminate. cbn in Hs, Hw.
        injection Hs as -> ->. by injection Hw as ->.
  - rewrite (IH1 Hf1). split.
    + intros (w1 & t1 & -> & Hw1 & Hk). apply (IH2 Hf2) in Hk as (w2 & t & -> & Hw2 & Hk).
      exists (w1 +:+ w2), t. rewrite StrFacts.app_assoc, StrFacts.lower_app.
      repeat split; [|done].
      apply list_elem_of_bind. exists (Str.lower w1). split; [|done].
      apply list_elem_of_bind. exists (Str.lower w2). split; [by left|done].
    + intros (w & t & -> & Hw & Hk).
      apply list_elem_of_bind in Hw as (a & Hw & Ha).
      apply list_elem_of_bind in Hw as (b & Hw & Hb).
      apply list_elem_of_singleton in Hw.
      apply StrFacts.lower_app_inv in Hw as (w1 & w2 & -> & <- & <-).
      exists w1, (w2 +:+ t). rewrite StrFacts.app_assoc. repeat split; [done|].
      apply (IH2 Hf2). by exists w2, t.
  - rewrite orb_true_iff, (IH1 Hf1), (IH2 Hf2). split.
    + intros [(w & t & -> & Hw & Hk)|(w & t & -> & Hw & Hk)]; exists w, t;
        repeat split; try done; apply elem_of_app; auto.
    + intros (w & t & -> & Hw & Hk). apply elem_of_app in Hw as [Hw|Hw];
        [left|right]; by exists w, t.
  - rewrite orb_true_iff, (IH1 Hf). split.
    + intros [(w & t & -> & Hw & Hk)|Hk].
      * exists w, t. repeat split; try done. apply elem_of_app; auto.
      * exists EmptyString, s. repeat split; try done.
        apply elem_of_app. right. by left.
    + intros (w & t & -> & Hw & Hk). apply elem_of_app in Hw as [Hw|Hw].
      * left. by exists w, t.
      * right. apply list_elem_of_singleton in Hw. destruct w; [done|discriminate].
  - done.
Qed.

(** [search] tries every start. *)
Lemma search_iff icase r s :
  search icase r s = true
  ↔ ∃ pre t, s = pre +:+ t ∧ rmatch icase r t (λ _, true) = true.
Proof.
  induction s as [|c s IH]; cbn [search]; rewrite orb_true_iff.
  - split.
    + intros [Hm|?]; [|done]. by exists EmptyString, EmptyString.
    + intros (pre & t & Hs & Hm). left.
      destruct pre; [|discriminate]. rewrite StrFacts.app_nil_l in Hs. by subst t.
  - rewrite IH. split.
    + intros [Hm|(pre & t & -> & Hm)].
      * by exists EmptyString, (String c s).
      * by exists (String c pre), t.
    + intros (pre & t & Hs & Hm). destruct pre as [|c' pre].
      * left. rewrite StrFacts.app_nil_l in Hs. by subst t.
      * right. rewrite StrFacts.app_cons in Hs. injection Hs as -> ->.
        by exists pre, t.
Qed.

End ReFacts.

(* ===================================================================== *)
(** ** URLUtils.is_asset_url *)
(* ===================================================================== *)

Module AssetFacts.
Import Re.

Lemma asset_words :
  words (Seq (Chr ".") (alts
    [ lit "pdf"; lit "zip"; lit "png";
      Seq (lit "jp") (Seq (Opt (Chr "e")) (Chr "g"));
      lit "webp"; lit "gif"; lit "svg"; lit "ico";
      lit "mp4"; lit "mov"; lit "mp3"; lit "wav";
      Seq (lit "woff") (Opt (Chr "2"));
      lit "ttf"; lit "eot" ]))
  = URLUtils.asset_endings.
Proof. reflexivity. Qed.

(** The pattern matches at a position exactly when one of the seventeen
    endings stands there, in any letter case, followed by the end of the
    string or by its final newline. *)
Lemma asset_match t :
  rmatch true URLUtils.asset_extensions t (λ _, true) = true
  ↔ ∃ w tail, t = w +:+ tail ∧ Str.lower w ∈ URLUtils.asset_endings
              ∧ (tail = "" ∨ tail = String "010" "").
Proof.
  rewrite <- asset_words.
  change (rmatch true URLUtils.asset_extensions t (λ _, true))
    with (rmatch true (Seq (Chr ".") (alts
      [ lit "pdf"; lit "zip"; lit "png";
        Seq (lit "jp") (Seq (Opt (Chr "e")) (Chr "g"));
        lit "webp"; lit "gif"; lit "svg"; lit "ico";
        lit "mp4"; lit "mov"; lit "mp3"; lit "wav";
        Seq (lit "woff") (Opt (Chr "2"));
        lit "ttf"; lit "eot" ])) t (λ t', at_end t' && true)).
  rewrite ReFacts.rmatch_words by reflexivity.
  split; intros (w & tail & Ht & Hw & He); exists w, tail; repeat split; try done.
  - apply ReFacts.at_end_iff. by rewrite andb_true_r in He.
  - rewrite andb_true_r. by apply ReFacts.at_end_iff.
Qed.

(** On the strings of the embedding, [is_asset_url] accepts exactly those
    that end in one of the seventeen endings, in any letter case, possibly
    followed by one final newline. *)
Lemma asset_url_iff url :
  URLUtils.is_asset_url url = true
  ↔ ∃ pre w tail,
      url = pre +:+ w +:+ tail ∧ Str.lower w ∈ URLUtils.asset_endings
      ∧ (tail = "" ∨ tail = String "010" "").
Proof.
  unfold URLUtils.is_asset_url. rewrite ReFacts.search_iff. split.
  - intros (pre & t & -> & Hm). apply asset_match in Hm as (w & tail & -> & Hw & He).
    by exists pre, w, tail.
  - intros (pre & w & tail & -> & Hw & He). exists pre, (w +:+ tail). split; [done|].
    apply asset_match. by exists w, tail.
Qed.

End AssetFacts.

(* ===================================================================== *)
(** ** URLUtils.normalize_link *)
(* ===================================================================== *)

Module StripFacts.
Import StrFacts.

Lemma rev_app_acc (s acc : string) :
  String.rev_app s acc = String.rev s +:+ acc.
Proof.
  unfold String.rev. revert acc. induction s as [|x s IH]; intros acc; [done|].
  cbn [String.rev_app]. rewrite (IH (String x acc)), (IH (String x "")).
  by rewrite app_assoc.
Qed.

Lemma rev_cons (x : ascii) (s : string) :
  String.rev (String x s) = String.rev s +:+ String x "".
Proof. unfold String.rev at 1. cbn [String.rev_app]. apply rev_app_acc. Qed.

Lemma rev_app (a b : string) :
  String.rev (a +:+ b) = String.rev b +:+ String.rev a.
Proof.
  induction a as [|x a IH].
  - by rewrite app_nil_l, app_nil_r.
  - by rewrite app_cons, !rev_cons, IH, app_assoc.
Qed.

Lemma rev_involutive (s : string) : String.rev (String.rev s) = s.
Proof.
  induction s as [|x s IH]; [done|].
  by rewrite rev_cons, rev_app, IH.
Qed.

Lemma startswith_iff (s p : string) :
  Str.startswith s p = true ↔ ∃ t, s = p +:+ t.
Proof.
  revert s. induction p as [|a p IH]; intros s.
  - split; [|done]. intros _. by exists s.
  - destruct s as [|b s]; cbn [Str.startswith].
    + split; [done|]. by intros [t Ht].
    + destruct (decide (a = b)) as [->|Hne].
      * rewrite IH. split; intros [t Ht]; exists t.
        -- by rewrite app_cons, Ht.
        -- rewrite app_cons in Ht. by injection Ht.
      * split; [done|]. intros [t Ht]. rewrite app_cons in Ht.
        injection Ht as Hb _. by destruct Hne.
Qed.

(** [lstrip] stops at the latest at a character that is not a space. *)
Lemma lstrip_stops (a b : string) (c : ascii) :
  Str.isspace c = false →
  ∃ a', Str.lstrip (a +:+ String c b) = a' +:+ String c b.
Proof.
  intros Hc. induction a as [|x a [a' IH]].
  - exists EmptyString. rewrite !app_nil_l. cbn [Str.lstrip]. by rewrite Hc.
  - rewrite app_cons. cbn [Str.lstrip]. destruct (Str.isspace x).
    + by exists a'.
    + exists (String x a). by rewrite app_cons.
Qed.

(** Stripping keeps a prefix that neither begins nor ends with a space. *)
Lemma strip_keeps_prefix (x c : ascii) (p0 p' href : string) :
  Str.isspace x = false → Str.isspace c = false →
  String x p0 = p' +:+ String c "" →
  Str.startswith href (String x p0) = true →
  Str.startswith (Str.strip href) (String x p0) = true.
Proof.
  intros Hx Hc Hp Hs. apply startswith_iff in Hs as [t ->].
  unfold Str.strip, Str.rstrip.
  assert (Str.lstrip (String x p0 +:+ t) = String x p0 +:+ t) as ->.
  { rewrite app_cons. cbn [Str.lstrip]. by rewrite Hx. }
  rewrite Hp, rev_app, rev_app.
  change (String.rev (String c "")) with (String c "").
  rewrite app_cons, app_nil_l.
  destruct (lstrip_stops (String.rev t) (String.rev p') c Hc) as [a' ->].
  rewrite rev_app, rev_cons, rev_involutive.
  apply startswith_iff. by eexists.
Qed.

Lemma rejected_prefix (p href : string) :
  p ∈ ["mailto:"; "tel:"; "javascript:"; "#"] →
  Str.startswith href p = true →
  Str.startswith_any (Str.strip href) ["mailto:"; "tel:"; "javascript:"; "#"] = true.
Proof.
  intros Hp Hs. unfold Str.startswith_any. apply existsb_exists.
  exists p. split; [by apply list_elem_of_In|].
  repeat (apply elem_of_cons in Hp as [->|Hp]).
  - by apply (strip_keeps_prefix _ ":" _ "mailto").
  - by apply (strip_keeps_prefix _ ":" _ "tel").
  - by apply (strip_keeps_prefix _ ":" _ "javascript").
  - by apply (strip_keeps_prefix _ "#" _ "").
  - by apply elem_of_nil in Hp.
Qed.

End StripFacts.

Module PyUrlFacts.
Import StrFacts StripFacts.

Abbreviation hashless s := (Str.contains "#" s = false).

Lemma contains_app c a b :
  Str.contains c (a +:+ b) = Str.contains c a || Str.contains c b.
Proof.
  induction a as [|x a IH]; [done|]. rewrite app_cons. cbn [Str.contains].
  destruct (decide (x = c)); [done|apply IH].
Qed.

Lemma contains_rev c s : Str.contains c (String.rev s) = Str.contains c s.
Proof.
  induction s as [|x s IH]; [done|]. rewrite rev_cons, contains_app, IH.
  cbn [Str.contains]. destruct (decide (x = c)); by rewrite ?orb_true_r, ?orb_false_r.
Qed.

(** The two parts of a cut are made of the characters of the text. *)
Lemma cut_parts c d s :
  Str.contains c s = false →
  Str.contains c (fst (Str.cut d s)) = false
  ∧ Str.contains c (snd (Str.cut d s)) = false.
Proof.
  induction s as [|x s IH]; [done|]. cbn [Str.contains Str.cut].
  destruct (decide (x = c)); [done|]. intros Hs.
  destruct (decide (x = d)); [done|].
  destruct (Str.cut d s) as [l r]. cbn in *. rewrite decide_False by done. by apply IH.
Qed.

(** The text before the cut does not contain the separator. *)
Lemma cut_self c s : Str.contains c (fst (Str.cut c s)) = false.
Proof.
  induction s as [|x s IH]; [done|]. cbn [Str.cut].
  destruct (decide (x = c)); [done|].
  destruct (Str.cut c s) as [l r]. cbn in *. by rewrite decide_False.
Qed.

Lemma scheme_hashless pre :
  PyUrl.all_chars PyUrl.scheme_char pre = true → hashless (Str.lower pre).
Proof.
  induction pre as [|c pre IH]; [done|]. cbn [PyUrl.all_chars Str.lower Str.contains].
  intros [Hc Hp]%andb_prop. rewrite decide_False; [by apply IH|].
  revert Hc. clear. destruct c as [[] [] [] [] [] [] [] []]; by vm_compute.
Qed.

Lemma splitnetloc_hashless s : hashless (fst (PyUrl.splitnetloc s)).
Proof.
  induction s as [|c s IH]; [done|]. cbn [PyUrl.splitnetloc].
  destruct (bool_decide (c = "/"%char) || bool_decide (c = "?"%char)
            || bool_decide (c = "#"%char)) eqn:Hc; [done|].
  destruct (PyUrl.splitnetloc s) as [n r]. cbn in *. rewrite decide_False; [done|].
  intros ->. by vm_compute in Hc.
Qed.

(** No component that [urlsplit] returns, but the fragment, contains a
    [#]. *)
Lemma urlsplit_hashless url d r :
  hashless d → PyUrl.urlsplit url d = Some r →
  hashless (PyUrl.s_scheme r) ∧ hashless (PyUrl.s_netloc r)
  ∧ hashless (PyUrl.s_path r) ∧ hashless (PyUrl.s_query r).
Proof.
  intros Hd. unfold PyUrl.urlsplit.
  generalize (PyUrl.remove_unsafe (PyUrl.lstrip_c0 url)). clear url. intros url.
  set (first := match url with
                | EmptyString => (d, url)
                | String c0 _ => _
                end).
  assert (Hsch : hashless (fst first)).
  { subst first. destruct url as [|c0 url']; [done|].
    destruct (Str.contains ":" (String c0 url') && PyUrl.is_alpha c0); [|done].
    destruct (Str.cut ":" (String c0 url')) as [pre post].
    destruct (PyUrl.all_chars PyUrl.scheme_char pre) eqn:Hpre; [|done].
    by apply scheme_hashless. }
  destruct first as [sch rest]. cbn [fst] in Hsch. clear url.
  set (second := match rest with
                 | String "/" (String "/" rest') => _
                 | _ => Some (EmptyString, rest)
                 end).
  assert (Hnl : ∀ n u, second = Some (n, u) → hashless n).
  { subst second. intros n u.
    destruct rest as [|a [|b rest']]; [by intros [= <- _]| |].
    { destruct a as [[] [] [] [] [] [] [] []]; by intros [= <- _]. }
    destruct a as [[] [] [] [] [] [] [] []]; try (by intros [= <- _]).
    destruct b as [[] [] [] [] [] [] [] []]; try (by intros [= <- _]).
    pose proof (splitnetloc_hashless rest') as Hn.
    destruct (PyUrl.splitnetloc rest') as [n' r'].
    destruct (xorb _ _); [done|]. destruct (_ && _); [done|].
    by intros [= <- _]. }
  destruct second as [[n u]|]; [|done]. specialize (Hnl n u eq_refl). cbn.
  set (third := if Str.contains "#" u then Str.cut "#" u else (u, EmptyString)).
  assert (Hu : hashless (fst third)).
  { subst third. destruct (Str.contains "#" u) eqn:Hc; [apply cut_self|done]. }
  destruct third as [u' frag]. cbn [fst] in Hu.
  set (fourth := if Str.contains "?" u' then Str.cut "?" u' else (u', EmptyString)).
  assert (Hq : hashless (fst fourth) ∧ hashless (snd fourth)).
  { subst fourth. destruct (Str.contains "?" u'); [by apply cut_parts|done]. }
  destruct fourth as [p q]. cbn [fst snd] in Hq.
  intros [= <-]. cbn. by destruct Hq.
Qed.

Lemma rcut_slash_hashless s :
  hashless s →
  hashless (fst (PyUrl.rcut_slash s)) ∧ hashless (snd (PyUrl.rcut_slash s)).
Proof.
  intros Hs. unfold PyUrl.rcut_slash.
  assert (Hr : hashless (String.rev s)) by (by rewrite contains_rev).
  destruct (cut_parts "#" "/" _ Hr) as [H1 H2].
  destruct (Str.cut "/" (String.rev s)) as [rtail rhead]. cbn in *.
  by rewrite contains_app, !contains_rev, H1, H2.
Qed.

Lemma splitparams_hashless s :
  hashless s →
  hashless (fst (PyUrl.splitparams s)) ∧ hashless (snd (PyUrl.splitparams s)).
Proof.
  intros Hs. unfold PyUrl.splitparams.
  destruct (Str.contains "/" s); [|by apply cut_parts].
  destruct (rcut_slash_hashless s Hs) as [Hh Ht].
  destruct (PyUrl.rcut_slash s) as [head tail]. cbn in Hh, Ht.
  destruct (Str.contains ";" tail); [|done].
  destruct (cut_parts "#" ";" _ Ht) as [H1 H2].
  destruct (Str.cut ";" tail) as [t p]. cbn in *.
  by rewrite contains_app, Hh, H1, H2.
Qed.

Lemma urlparse6_hashless url d r params :
  hashless d → PyUrl.urlparse6 url d = Some (r, params) →
  hashless (PyUrl.s_scheme r) ∧ hashless (PyUrl.s_netloc r)
  ∧ hashless (PyUrl.s_path r) ∧ hashless (PyUrl.s_query r) ∧ hashless params.
Proof.
  intros Hd. unfold PyUrl.urlparse6.
  destruct (PyUrl.urlsplit url d) as [r0|] eqn:Hs; [|done]. cbn.
  destruct (urlsplit_hashless _ _ _ Hd Hs) as (H1 & H2 & H3 & H4).
  destruct (_ && _).
  - destruct (splitparams_hashless _ H3) as [Hp Hq].
    destruct (PyUrl.splitparams (PyUrl.s_path r0)) as [p q]. cbn in Hp, Hq.
    by intros [= <- <-].
  - by intros [= <- <-].
Qed.

Lemma urlunsplit_hashless r :
  hashless (PyUrl.s_scheme r) → hashless (PyUrl.s_netloc r) →
  hashless (PyUrl.s_path r) → hashless (PyUrl.s_query r) →
  PyUrl.s_fragment r = EmptyString →
  hashless (PyUrl.urlunsplit r).
Proof.
  destruct r as [sch n p q f]. cbn. intros H1 H2 H3 H4 ->.
  unfold PyUrl.urlunsplit. cbv zeta.
  cbn [PyUrl.s_scheme PyUrl.s_netloc PyUrl.s_path PyUrl.s_query PyUrl.s_fragment].
  change (PyUrl.nonempty "") with false. cbv iota.
  repeat match goal with
         | |- context [if ?b then _ else _] => destruct b
         end;
    by rewrite ?contains_app, ?H1, ?H2, ?H3, ?H4.
Qed.

Lemma urlunparse_hashless r params :
  hashless (PyUrl.s_scheme r) → hashless (PyUrl.s_netloc r) →
  hashless (PyUrl.s_path r) → hashless (PyUrl.s_query r) → hashless params →
  PyUrl.s_fragment r = EmptyString →
  hashless (PyUrl.urlunparse r params).
Proof.
  intros H1 H2 H3 H4 H5 H6. unfold PyUrl.urlunparse.
  apply urlunsplit_hashless; cbn; try done.
  destruct (PyUrl.nonempty params); [|done].
  by rewrite !contains_app, H3, H5.
Qed.

(** What [urldefrag] returns as the URL contains no [#]. *)
Lemma urldefrag_hashless url defragged frag :
  PyUrl.urldefrag url = Some (defragged, frag) → hashless defragged.
Proof.
  unfold PyUrl.urldefrag. destruct (Str.contains "#" url) eqn:Hc.
  - destruct (PyUrl.urlparse6 url "") as [[r params]|] eqn:Hp; [|done]. cbn.
    intros [= <- _].
    destruct (urlparse6_hashless url "" r params eq_refl Hp) as (H1 & H2 & H3 & H4 & H5).
    by apply urlunparse_hashless.
  - by intros [= <- _].
Qed.

End PyUrlFacts.

(** C7 (amended). [normalize_link] returns [None] for the empty href and
    for an href that, once the surrounding whitespace is stripped, begins
    with the literal text [mailto:], [tel:], [javascript:] or [#]; the
    comparison is case-sensitive.  Otherwise it joins the stripped href to
    the base URL with [urljoin] and strips the fragment with [urldefrag]:
    the result contains no [#], and it is the joined URL itself when that
    has no fragment.  It never raises: it returns [None] exactly when
    [urljoin] or [urldefrag] raises, as on an href with an invalid
    bracketed host.  With ["https://example.com/page"] as the base,
    ["/about"] and ["/about#team"] both give ["https://example.com/about"].
    The functions of [urllib.parse] are those of the model [PyUrl]. *)
Theorem normalize_link_spec :
  let prefixes := ["mailto:"; "tel:"; "javascript:"; "#"] in
  let normalize_link := URLUtils.normalize_link (H:=PyUrl.lib) in
  (∀ base, normalize_link base "" = None)
  ∧ (∀ base href,
       Str.startswith_any (Str.strip href) prefixes = true →
       normalize_link base href = None)
  ∧ (∀ base href p,
       p ∈ prefixes → Str.startswith href p = true →
       normalize_link base href = None)
  ∧ (∀ base href,
       href ≠ "" → Str.startswith_any (Str.strip href) prefixes = false →
       normalize_link base href
       = (abs_url ← PyUrl.urljoin base (Str.strip href);
          fst <$> PyUrl.urldefrag abs_url))
  ∧ (∀ base href url,
       normalize_link base href = Some url → Str.contains "#" url = false)
  ∧ (∀ base href abs_url,
       href ≠ "" → Str.startswith_any (Str.strip href) prefixes = false →
       PyUrl.urljoin base (Str.strip href) = Some abs_url →
       Str.contains "#" abs_url = false →
       normalize_link base href = Some abs_url)
  ∧ (∀ base href,
       href ≠ "" → Str.startswith_any (Str.strip href) prefixes = false →
       (normalize_link base href = None
        ↔ PyUrl.urljoin base (Str.strip href) = None
          ∨ ∃ abs_url, PyUrl.urljoin base (Str.strip href) = Some abs_url
                       ∧ PyUrl.urldefrag abs_url = None))
  ∧ normalize_link "https://example.com/page" "/about"
    = Some "https://example.com/about"
  ∧ normalize_link "https://example.com/page" "/about#team"
    = Some "https://example.com/about"
  ∧ normalize_link "https://example.com/page" "http://[::1]/a#b"
    = Some "http://[::1]/a"
  ∧ normalize_link "https://example.com/page" "http://[::1" = None
  ∧ normalize_link "https://example.com/page" "http://[x]/" = None.
Proof.
  intros prefixes normalize_link.
  assert (Hgen : ∀ base href,
    href ≠ "" → Str.startswith_any (Str.strip href) prefixes = false →
    normalize_link base href
    = (abs_url ← PyUrl.urljoin base (Str.strip href);
       fst <$> PyUrl.urldefrag abs_url)).
  { intros base href Hne Hp. unfold normalize_link, URLUtils.normalize_link.
    rewrite decide_False by done. fold prefixes. rewrite Hp.
    change (@urljoin PyUrl.lib) with PyUrl.urljoin.
    change (@urldefrag PyUrl.lib) with PyUrl.urldefrag.
    destruct (PyUrl.urljoin base (Str.strip href)) as [abs_url|]; [|done]. cbn.
    by destruct (PyUrl.urldefrag abs_url) as [[]|]. }
  split_and!.
  - done.
  - intros base href Hp. unfold normalize_link, URLUtils.normalize_link.
    destruct (decide (href = "")); [done|]. fold prefixes. by rewrite Hp.
  - intros base href p Hp Hs. unfold normalize_link, URLUtils.normalize_link.
    destruct (decide (href = "")); [done|].
    by rewrite (StripFacts.rejected_prefix p href Hp Hs).
  - exact Hgen.
  - intros base href url. unfold normalize_link, URLUtils.normalize_link.
    destruct (decide (href = "")); [done|].
    destruct (Str.startswith_any _ _); [done|].
    change (@urljoin PyUrl.lib) with PyUrl.urljoin.
    change (@urldefrag PyUrl.lib) with PyUrl.urldefrag.
    destruct (PyUrl.urljoin base (Str.strip href)) as [abs_url|]; [|done].
    destruct (PyUrl.urldefrag abs_url) as [[d f]|] eqn:Hd; [|done].
    intros [= <-]. by eapply PyUrlFacts.urldefrag_hashless.
  - intros base href abs_url Hne Hp Hj Hh. rewrite (Hgen base href Hne Hp), Hj. cbn.
    unfold PyUrl.urldefrag. by rewrite Hh.
  - intros base href Hne Hp. rewrite (Hgen base href Hne Hp).
    destruct (PyUrl.urljoin base (Str.strip href)) as [abs_url|]; cbn.
    + destruct (PyUrl.urldefrag abs_url) as [[d f]|] eqn:Hd; cbn.
      * split; [done|]. intros [?|(a & [= <-] & Hn)]; [done|congruence].
      * split; [|done]. intros _. right. by exists abs_url.
    + split; [|done]. intros _. by left.
  - by vm_compute.
  - by vm_compute.
  - by vm_compute.
  - by vm_compute.
  - by vm_compute.
Qed.

(** C7 (counterexample). [MAILTO:a@b.c] has the scheme [mailto] and
    [JavaScript:void(0)] the scheme [javascript], as [urlparse] reads
    them; [normalize_link] returns both as they are. *)
Lemma uppercase_scheme_is_not_rejected :
  scheme <$> PyUrl.urlparse "MAILTO:a@b.c" = Some "mailto"
  ∧ URLUtils.normalize_link (H:=PyUrl.lib) "https://example.com/page" "MAILTO:a@b.c"
    = Some "MAILTO:a@b.c"
  ∧ scheme <$> PyUrl.urlparse "JavaScript:void(0)" = Some "javascript"
  ∧ URLUtils.normalize_link (H:=PyUrl.lib) "https://example.com/page"
      "JavaScript:void(0)"
    = Some "JavaScript:void(0)".
Proof. split_and!; by vm_compute. Qed.

(** C7 (witness). A link with a fragment and surrounding whitespace. *)
Lemma normalize_link_spec_witness :
  Str.contains "#" "https://example.com/about" = false
  ∧ URLUtils.normalize_link (H:=PyUrl.lib) "https://example.com/page" "  mailto:a@b.c"
    = None.
Proof.
  destruct normalize_link_spec as (_ & Hp & _ & _ & Hh & _).
  split.
  - apply (Hh "https://example.com/page" " /about#team "). vm_compute. reflexivity.
  - apply Hp. vm_compute. reflexivity.
Defined.

(* ===================================================================== *)
(** ** UICollector.update_inventory *)
(* ===================================================================== *)

(** C10. [update_inventory] called with [None] or with the empty dict
    returns at once and leaves the inventory, hence every field of it, as
    it was. *)
Theorem update_inventory_empty (inv : Inventory) (page_data : option PageData) :
  page_data = None ∨ page_data = Some (mkPageData None None None None) →
  UICollector.update_inventory inv page_data = (inv, true).
Proof. by intros [-> | ->]. Qed.

(** C10 (witness). *)
Lemma update_inventory_empty_witness :
  UICollector.update_inventory UICollector.init (Some (mkPageData None None None None))
  = (UICollector.init, true).
Proof. apply update_inventory_empty. right. reflexivity. Defined.

(* ===================================================================== *)
(** ** The --cross-origin option *)
(* ===================================================================== *)

(** C9 (the code at the failing input). [--cross-origin] sets
    [respect_robots_txt] to false, and [_discover_links] applies the
    same-origin test exactly when [respect_robots_txt] is false: with the
    option, a link to another origin is dropped, as it is without any
    option; it is enqueued when a configuration file sets
    [respect_robots_txt]. *)
Theorem cross_origin_option_keeps_origin_filter :
  let flagged := Cli.main_config Demo.cross_origin_args in
  let plain := Cli.main_config (Cli.args_of_url Demo.site) in
  let robots := Cli.main_config Demo.robots_file_args in
  respect_robots_txt flagged = false
  ∧ (∀ s, SiteScraper.discover_links (H:=PyUrl.lib) flagged Demo.site Demo.site 0
            (Some ["https://other.com/x"]) s = s)
  ∧ (∀ s, SiteScraper.discover_links (H:=PyUrl.lib) plain Demo.site Demo.site 0
            (Some ["https://other.com/x"]) s = s)
  ∧ to_visit (SiteScraper.discover_links (H:=PyUrl.lib) robots Demo.site Demo.site 0
                (Some ["https://other.com/x"]) (Demo.fresh robots))
    = [(Demo.site, 0); ("https://other.com/x", 1)].
Proof. split_and!; by vm_compute. Qed.

(* ===================================================================== *)
(** ** The frontier: enqueue, dequeue, depth *)
(* ===================================================================== *)

Section frontier.
Context `{UrlLib}.
Variable config : ScraperConfig.
Variable start_url : string.
Variable start_stamp : string.

Import SiteScraper Crawl.

(** C2 (amended). The enqueue of [_discover_links] is a no-op when the
    URL is in [seen_urls] or [failed_urls] or when the depth
    [current_depth + 1] exceeds [max_depth]; otherwise it appends the pair
    to the queue and reserves nothing: [seen_urls] and [failed_urls] are
    as before, and so they are after a whole run of [_discover_links].  The
    URL enters [seen_urls] when [_scrape_page] takes it up, at dequeue
    time; a dequeued URL that is already there is dropped.  So, in every
    interleaving of the workers, a renderer page is opened at most once
    for a URL. *)
Theorem dedup_at_dequeue (s : state) :
  reachable config start_url start_stamp s →
  (∀ url current_depth,
     url ∈ seen_urls s ∨ url ∈ failed_urls s ∨ max_depth config < current_depth + 1 →
     enqueue config url current_depth s = s)
  ∧ (∀ url current_depth,
       url ∉ seen_urls s → url ∉ failed_urls s →
       current_depth + 1 ≤ max_depth config →
       enqueue config url current_depth s
       = mkState (to_visit s ++ [(url, current_depth + 1)]) (unfinished_tasks s + 1)
           (seen_urls s) (failed_urls s) (page_count s) (inventory s)
           (workers s) (opened s))
  ∧ (∀ current_url current_depth hrefs, ∃ new,
     discover_links config start_url current_url current_depth hrefs s
     = mkState (to_visit s ++ new) (unfinished_tasks s + Z.of_nat (length new))
         (seen_urls s) (failed_urls s) (page_count s) (inventory s)
         (workers s) (opened s)
     ∧ Forall (admissible config current_depth s) new)
  ∧ (∀ i url depth q,
       workers s !! i = Some WGet → to_visit s = (url, depth) :: q →
       page_count s < max_pages config → url ∈ seen_urls s →
       step config start_url (Dequeue i) s = Some (finish i (set_to_visit q s)))
  ∧ (∀ i url depth q s',
       workers s !! i = Some WGet → to_visit s = (url, depth) :: q →
       page_count s < max_pages config →
       step config start_url (Dequeue i) s = Some s' →
       url ∈ seen_urls s')
  ∧ NoDup ((opened s).*1).
Proof.
  intros Hreach. split_and!.
  - intros url d Hskip. unfold enqueue, should_visit.
    destruct Hskip as [Hs|[Hf|Hd]].
    + by rewrite (bool_decide_eq_false_2 (url ∉ seen_urls s)) by auto.
    + rewrite (bool_decide_eq_false_2 (url ∉ failed_urls s)) by auto.
      by rewrite andb_false_r.
    + destruct (Z.leb_spec (d + 1) (max_depth config)); [lia|].
      by rewrite andb_false_r.
  - intros url d Hs Hf Hd. unfold enqueue, should_visit.
    rewrite !bool_decide_eq_true_2 by done.
    by destruct (Z.leb_spec (d + 1) (max_depth config)); [|lia].
  - intros. apply CrawlFacts.discover_links_appends.
  - intros i url depth q Hw Hq Hc Hseen. cbn. rewrite Hw, Hq. cbn.
    destruct (Z.leb_spec (max_pages config) (page_count s)); [lia|].
    unfold scrape_page_begin. by rewrite bool_decide_eq_true_2.
  - intros i url depth q s' Hw Hq Hc Hstep. cbn in Hstep. rewrite Hw, Hq in Hstep.
    cbn in Hstep. destruct (Z.leb_spec (max_pages config) (page_count s)); [lia|].
    injection Hstep as <-. unfold scrape_page_begin.
    change (seen_urls (set_to_visit q s)) with (seen_urls s).
    case_bool_decide as Hseen; [done|].
    destruct (respect_robots_txt config && negb (check_robots_txt url));
      [cbn; set_solver|].
    destruct (URLUtils.matches_blocklist url (block_host_patterns config));
      cbn; set_solver.
  - eapply opened_once, CrawlFacts.invariant_reachable, Hreach.
Qed.

(** C6 (amended). The seed is enqueued at depth 0 whatever [max_depth]
    is, and link discovery enqueues a child at depth [current + 1] only
    when that does not exceed [max_depth]: every entry of the frontier
    and every URL visited has a depth of at most [max(0, max_depth)],
    which is [max_depth] when [max_depth] is not negative. *)
Theorem visited_depth_bound (s : state) (url : string) (depth : Z) :
  reachable config start_url start_stamp s →
  (url, depth) ∈ to_visit s ++ opened s →
  depth ≤ Z.max 0 (max_depth config)
  ∧ (0 ≤ max_depth config → depth ≤ max_depth config).
Proof.
  intros Hreach Hin. apply (CrawlFacts.invariant_reachable _ _ start_stamp) in Hreach.
  pose proof (depth_bound _ _ Hreach url depth Hin). lia.
Qed.

End frontier.

(* ===================================================================== *)
(** ** Sessions on an explicit site *)
(* ===================================================================== *)

Section sessions.
Import SiteScraper Crawl.
Import (hints) PyUrl.

Lemma final_reachable c evs s :
  Demo.after c evs = Some s → reachable c Demo.site Demo.stamp s.
Proof.
  unfold Demo.after. intros Hs.
  destruct (start c Demo.site Demo.stamp) as [s0|] eqn:H0; [|done].
  by exists s0, evs.
Qed.

(** C1 (the code at the failing input). Two workers and a cap of two
    pages: the seed page is counted, both workers dequeue a child while
    [page_count] is 1, both pass the cap test, and both pages load.
    The second navigation starts when [page_count] is already 2, and
    [page_count] ends at 3. *)
Theorem page_count_exceeds_max_pages :
  max_pages (Demo.config 2 3 2) = 2
  ∧ (∃ s1 s2,
       Demo.after (Demo.config 2 3 2)
         (Demo.visit 0 Demo.site ["/a"; "/b"]
          ++ [Dequeue 0; Dequeue 1; PageOpened 0 true; Navigated 0 true]) = Some s1
       ∧ page_count s1 = 2
       ∧ workers s1 !! 1%nat = Some (WNewPage "https://ex.com/b" 1)
       ∧ step (Demo.config 2 3 2) Demo.site (PageOpened 1 true) s1 = Some s2
       ∧ workers s2 !! 1%nat = Some (WGoto "https://ex.com/b" 1))
  ∧ (∃ s, reachable (Demo.config 2 3 2) Demo.site Demo.stamp s
          ∧ page_count s = 3).
Proof.
  split; [done|]. split.
  - eexists _, _. split; [by vm_compute|]. split; [done|]. split; [done|].
    split; [by vm_compute|done].
  - exists (Demo.final (Demo.config 2 3 2) Demo.race). split; [|by vm_compute].
    apply (final_reachable _ Demo.race). by vm_compute.
Qed.

(** C5 (the code at the failing input). One worker and a cap of one
    page, a seed page with two links: the worker counts the seed, takes
    the next entry, finds the cap reached and returns from [_worker].
    One entry is left in the queue, [to_visit.join()] still waits for
    it, and no worker is left to take it. *)
Theorem cap_leaves_frontier_undrained :
  ∃ s, reachable (Demo.config 1 3 1) Demo.site Demo.stamp s
       ∧ page_count s = max_pages (Demo.config 1 3 1)
       ∧ to_visit s = [("https://ex.com/b", 1)]
       ∧ unfinished_tasks s = 1
       ∧ workers s = [WExit]
       ∧ ¬ joined s
       ∧ stuck (Demo.config 1 3 1) Demo.site s.
Proof.
  assert (Hw : workers (Demo.final (Demo.config 1 3 1) Demo.capped) = [WExit])
    by (by vm_compute).
  exists (Demo.final (Demo.config 1 3 1) Demo.capped). split_and!.
  - apply (final_reachable _ Demo.capped). by vm_compute.
  - by vm_compute.
  - by vm_compute.
  - by vm_compute.
  - exact Hw.
  - unfold joined. by vm_compute.
  - intros [i|i ok|i ok|i pd|i hrefs|i ok]; unfold step; rewrite Hw;
      by destruct i as [|[|i]].
Qed.

(** C2 (counterexample). The seed page carries the link [/a] twice:
    both copies are enqueued and the URL is not in [seen_urls]. *)
Lemma enqueue_does_not_reserve :
  let s := Demo.final default_config Demo.twice in
  Demo.after default_config Demo.twice = Some s
  ∧ to_visit s = [("https://ex.com/a", 1); ("https://ex.com/a", 1)]
  ∧ "https://ex.com/a" ∉ seen_urls s.
Proof.
  split_and!.
  - by vm_compute.
  - by vm_compute.
  - apply (bool_decide_unpack _). by vm_compute.
Qed.

(** C2 (witness). *)
Lemma dedup_at_dequeue_witness :
  NoDup ((opened (Demo.final (Demo.config 2 3 2) Demo.race)).*1).
Proof.
  apply (dedup_at_dequeue (Demo.config 2 3 2) Demo.site Demo.stamp
           (Demo.final (Demo.config 2 3 2) Demo.race)).
  exists (Demo.fresh (Demo.config 2 3 2)), Demo.race. split; vm_compute; reflexivity.
Defined.

(** C6 (counterexample). [--max-depth -1]: the seed is still visited, at
    depth 0. *)
Lemma seed_visited_beyond_max_depth :
  let c := Demo.config 200 (-1) 1 in
  let s := Demo.final c Demo.seed_loaded in
  Demo.after c Demo.seed_loaded = Some s
  ∧ max_depth c = -1
  ∧ opened s = [(Demo.site, 0)]
  ∧ page_count s = 1
  ∧ ¬ (0 ≤ max_depth c).
Proof. split_and!; by vm_compute. Qed.

(** C6 (witness). *)
Lemma visited_depth_bound_witness :
  1 ≤ Z.max 0 (max_depth (Demo.config 2 3 2))
  ∧ (0 ≤ max_depth (Demo.config 2 3 2) → 1 ≤ max_depth (Demo.config 2 3 2)).
Proof.
  apply (visited_depth_bound (Demo.config 2 3 2) Demo.site Demo.stamp
           (Demo.final (Demo.config 2 3 2) Demo.race) "https://ex.com/b" 1).
  - exists (Demo.fresh (Demo.config 2 3 2)), Demo.race. split; vm_compute; reflexivity.
  - apply (bool_decide_unpack _). vm_compute. reflexivity.
Defined.

End sessions.

(* ===================================================================== *)
(** ** The books of a session *)
(* ===================================================================== *)

Module LedgerFacts.
Section facts.
Context `{UrlLib}.
Variable config : ScraperConfig.
Variable start_url : string.
Variable start_stamp : string.

Import SiteScraper Crawl Ledger.

Abbreviation step := (SiteScraper.step config start_url).
Abbreviation exec := (SiteScraper.exec config start_url).
Abbreviation transition := (Ledger.transition config start_url).
Abbreviation ledger := (Ledger.ledger config start_url start_stamp).

(** Every step is one of the moves, and every move is a step. *)
Lemma step_transition ev s s' : step ev s = Some s' → transition s s'.
Proof.
  intros Hstep. destruct ev as [i|i ok|i ok|i pd|i hrefs|i ok]; cbn in Hstep.
  - destruct (workers s !! i) as [[]|] eqn:Hw; try done.
    destruct (to_visit s) as [|[url depth] q] eqn:Hq; [done|].
    cbn in Hstep. destruct (Z.leb_spec (max_pages config) (page_count s)).
    { injection Hstep as <-. by eapply t_discard. }
    injection Hstep as <-. unfold scrape_page_begin.
    change (seen_urls (set_to_visit q s)) with (seen_urls s).
    case_bool_decide as Hseen; [by eapply t_duplicate|].
    change (respect_robots_txt config && negb (check_robots_txt url)) with
      (respect_robots_txt config && false). rewrite andb_false_r.
    destruct (URLUtils.matches_blocklist url (block_host_patterns config)) eqn:Hb.
    + by eapply t_blocked.
    + by eapply t_open.
  - destruct (workers s !! i) as [[| url depth | | | | |]|] eqn:Hw; try done.
    destruct ok; injection Hstep as <-.
    + by eapply t_page_ready.
    + by eapply t_page_error.
  - destruct (workers s !! i) as [[| | url depth | | | |]|] eqn:Hw; try done.
    destruct ok; injection Hstep as <-.
    + by eapply t_loaded.
    + by eapply t_load_failed.
  - destruct (workers s !! i) as [[| | | url depth | | |]|] eqn:Hw; try done.
    destruct (collect_ui_inventory config) eqn:Hc.
    + destruct (UICollector.update_inventory (inventory s) pd) as [inv []] eqn:Hu;
        injection Hstep as <-.
      * by eapply t_collected.
      * by eapply t_collect_error.
    + injection Hstep as <-. by eapply t_not_collected.
  - destruct (workers s !! i) as [[| | | | url depth | |]|] eqn:Hw; try done.
    injection Hstep as <-. by eapply t_links.
  - destruct (workers s !! i) as [[| | | | | url depth load_failed |]|] eqn:Hw;
      try done.
    destruct ok; injection Hstep as <-.
    + by eapply t_closed.
    + by eapply t_close_error.
Qed.

Lemma transition_step s s' : transition s s' → ∃ ev, step ev s = Some s'.
Proof.
  destruct 1 as [i url depth q Hw Hq Hc|i url depth q Hw Hq Hc Hs
                |i url depth q Hw Hq Hc Hs Hb|i url depth q Hw Hq Hc Hs Hb
                |i url depth Hw|i url depth Hw|i url depth Hw|i url depth Hw
                |i url depth pd inv Hw Hc Hu|i url depth pd inv Hw Hc Hu
                |i url depth Hw Hc|i url depth hrefs Hw
                |i url depth load_failed Hw|i url depth load_failed Hw].
  - exists (Dequeue i). cbn. rewrite Hw, Hq. cbn.
    by destruct (Z.leb_spec (max_pages config) (page_count s)); [|lia].
  - exists (Dequeue i). cbn. rewrite Hw, Hq. cbn.
    destruct (Z.leb_spec (max_pages config) (page_count s)); [lia|].
    unfold scrape_page_begin. by rewrite bool_decide_eq_true_2.
  - exists (Dequeue i). cbn. rewrite Hw, Hq. cbn.
    destruct (Z.leb_spec (max_pages config) (page_count s)); [lia|].
    unfold scrape_page_begin. rewrite bool_decide_eq_false_2 by done.
    change (respect_robots_txt config && negb (check_robots_txt url)) with
      (respect_robots_txt config && false). by rewrite andb_false_r, Hb.
  - exists (Dequeue i). cbn. rewrite Hw, Hq. cbn.
    destruct (Z.leb_spec (max_pages config) (page_count s)); [lia|].
    unfold scrape_page_begin. rewrite bool_decide_eq_false_2 by done.
    change (respect_robots_txt config && negb (check_robots_txt url)) with
      (respect_robots_txt config && false). by rewrite andb_false_r, Hb.
  - exists (PageOpened i true). cbn. by rewrite Hw.
  - exists (PageOpened i false). cbn. by rewrite Hw.
  - exists (Navigated i true). cbn. by rewrite Hw.
  - exists (Navigated i false). cbn. by rewrite Hw.
  - exists (Collected i pd). cbn. by rewrite Hw, Hc, Hu.
  - exists (Collected i pd). cbn. by rewrite Hw, Hc, Hu.
  - exists (Collected i None). cbn. by rewrite Hw, Hc.
  - exists (Hrefs i hrefs). cbn. by rewrite Hw.
  - exists (Closed i true). cbn. by rewrite Hw.
  - exists (Closed i false). cbn. by rewrite Hw.
Qed.

Lemma tally_cons p w ws :
  tally p (w :: ws) = (if p w then 1 else 0) + tally p ws.
Proof.
  unfold tally. rewrite filter_cons.
  destruct (p w); [rewrite decide_True by done|rewrite decide_False by done];
    cbn [length]; lia.
Qed.

Lemma tally_insert p ws i w w' :
  ws !! i = Some w →
  tally p (<[i := w']> ws)
  = tally p ws - (if p w then 1 else 0) + (if p w' then 1 else 0).
Proof.
  revert i. induction ws as [|x ws IH]; intros i Hi; [done|].
  destruct i as [|i]; cbn in Hi.
  - injection Hi as ->. change (<[0%nat := w']> (w :: ws)) with (w' :: ws).
    rewrite !tally_cons. lia.
  - change (<[S i := w']> (x :: ws)) with (x :: <[i := w']> ws).
    rewrite !tally_cons, (IH i Hi). lia.
Qed.

Lemma tally_replicate p n : p WGet = false → tally p (replicate n WGet) = 0.
Proof.
  intros Hp. induction n as [|n IH]; [done|].
  cbn [replicate]. by rewrite tally_cons, Hp, IH.
Qed.

Lemma tally_zero p ws :
  tally p ws = 0 → ∀ i w, ws !! i = Some w → p w = false.
Proof.
  induction ws as [|x ws IH]; intros Hz i w Hi; [done|].
  rewrite tally_cons in Hz.
  assert (0 ≤ tally p ws) by (unfold tally; lia).
  destruct i as [|i]; cbn in Hi.
  - injection Hi as ->. destruct (p w); [lia|done].
  - apply (IH ltac:(destruct (p x); lia) i w Hi).
Qed.

Lemma tally_pos p ws :
  0 < tally p ws → ∃ i w, ws !! i = Some w ∧ p w = true.
Proof.
  induction ws as [|x ws IH]; intros Hp.
  - unfold tally in Hp. cbn in Hp. lia.
  - rewrite tally_cons in Hp. destruct (p x) eqn:Hx.
    + by exists 0%nat, x.
    + destruct (IH ltac:(lia)) as (i & w & Hi & Hw). by exists (S i), w.
Qed.

(** [update_inventory] never touches the seed, the [links] list or the
    metadata, and adds at most one page. *)
Lemma update_inventory_frame inv page_data inv' returned :
  UICollector.update_inventory inv page_data = (inv', returned) →
  inv_seed inv' = inv_seed inv ∧ inv_links inv' = inv_links inv
  ∧ inv_meta inv' = inv_meta inv
  ∧ (length (inv_pages inv') ≤ S (length (inv_pages inv)))%nat
  ∧ (returned = false → inv_pages inv' = inv_pages inv).
Proof.
  unfold UICollector.update_inventory.
  destruct (UICollector.falsy page_data).
  { intros [= <- <-]. split_and!; try done. lia. }
  destruct page_data as [pd|]; [|intros [= <- <-]; split_and!; try done; lia].
  destruct (pd_url pd); intros [= <- <-]; cbn; split_and!; try done; try lia.
  rewrite length_app. cbn. lia.
Qed.

(** What [_discover_links] appends went through all of its filters. *)
Lemma discover_loop_discovered current_url current_depth hrefs s :
  ∃ new,
    discover_loop config start_url current_url current_depth hrefs s
    = mkState (to_visit s ++ new) (unfinished_tasks s + Z.of_nat (length new))
        (seen_urls s) (failed_urls s) (page_count s) (inventory s)
        (workers s) (opened s)
    ∧ Forall (discovered config start_url current_url current_depth hrefs) new.
Proof.
  revert s. induction hrefs as [|href hrefs IH]; intros s.
  - exists []. split; [|constructor].
    destruct s; cbn. rewrite app_nil_r. f_equal. lia.
  - assert (Hweak : ∀ new,
      Forall (discovered config start_url current_url current_depth hrefs) new →
      Forall (discovered config start_url current_url current_depth (href :: hrefs)) new).
    { intros new Hf. eapply Forall_impl; [exact Hf|].
      intros item (Hd & Hne & (h & Hh & Hn) & Ha & Ho).
      split_and!; try done. exists h. split; [by right|done]. }
    cbn [discover_loop].
    destruct (URLUtils.normalize_link current_url href) as [next_url|] eqn:Hn.
    2: { destruct (IH s) as (new & -> & Hnew). exists new. split; [done|auto]. }
    destruct (decide (next_url = EmptyString)) as [|Hne].
    { destruct (IH s) as (new & -> & Hnew). exists new. split; [done|auto]. }
    destruct (respect_robots_txt config) eqn:Hr; cbn.
    + destruct (URLUtils.is_asset_url next_url) eqn:Ha.
      { destruct (IH s) as (new & -> & Hnew). exists new. split; [done|auto]. }
      unfold enqueue. destruct (should_visit config next_url current_depth s).
      * destruct (IH (put (next_url, current_depth + 1) s)) as (new & -> & Hnew).
        exists ((next_url, current_depth + 1) :: new). split.
        -- cbn. rewrite <- app_assoc. cbn. f_equal. lia.
        -- constructor; [|auto]. split_and!; cbn; try done; try congruence.
           exists href. split; [by left|done].
      * destruct (IH s) as (new & -> & Hnew). exists new. split; [done|auto].
    + destruct (URLUtils.is_same_origin start_url next_url) as [[]|] eqn:Ho; cbn.
      * destruct (URLUtils.is_asset_url next_url) eqn:Ha.
        { destruct (IH s) as (new & -> & Hnew). exists new. split; [done|auto]. }
        unfold enqueue. destruct (should_visit config next_url current_depth s).
        -- destruct (IH (put (next_url, current_depth + 1) s)) as (new & -> & Hnew).
           exists ((next_url, current_depth + 1) :: new). split.
           ++ cbn. rewrite <- app_assoc. cbn. f_equal. lia.
           ++ constructor; [|auto]. split_and!; cbn; try done; try congruence.
              exists href. split; [by left|done].
        -- destruct (IH s) as (new & -> & Hnew). exists new. split; [done|auto].
      * destruct (IH s) as (new & -> & Hnew). exists new. split; [done|auto].
      * exists []. split; [|constructor].
        destruct s; cbn. rewrite app_nil_r. f_equal. lia.
Qed.

Lemma discover_links_discovered current_url current_depth hrefs s :
  ∃ new,
    discover_links config start_url current_url current_depth hrefs s
    = mkState (to_visit s ++ new) (unfinished_tasks s + Z.of_nat (length new))
        (seen_urls s) (failed_urls s) (page_count s) (inventory s)
        (workers s) (opened s)
    ∧ Forall (discovered config start_url current_url current_depth (default [] hrefs)) new.
Proof.
  destruct hrefs as [hrefs|]; [apply discover_loop_discovered|].
  exists []. split; [|constructor].
  destruct s; cbn. rewrite app_nil_r. f_equal. lia.
Qed.

Lemma ledger_start s0 :
  start config start_url start_stamp = Some s0 → ledger s0.
Proof.
  intros (_ & _ & Hq & Hn & _ & Hf & Hc & Hws & Ho & Hs1 & Hs2 & Hs3 & Hs4)%CrawlFacts.start_Some.
  split; rewrite ?Hq, ?Hn, ?Hf, ?Hc, ?Hws, ?Ho, ?Hs1, ?Hs2, ?Hs3, ?Hs4; cbn.
  - rewrite tally_replicate by done. lia.
  - intros i w u d Hw Hh. apply lookup_replicate in Hw as [-> _]. done.
  - intros u Hu. by apply not_elem_of_empty in Hu.
  - intros u d Hin. by apply elem_of_nil in Hin.
  - rewrite tally_replicate by done. lia.
  - rewrite tally_replicate by done. lia.
  - done.
  - intros item Hin. apply list_elem_of_singleton in Hin as ->. by left.
Qed.

Lemma provenance_depth item :
  provenance config start_url item → 0 ≤ snd item.
Proof. intros [->|[? _]]; cbn; lia. Qed.

Lemma ledger_transition s s' : ledger s → transition s s' → ledger s'.
Proof.
  intros [Hacc Hheld Hfail Hallow [Hpc Hcnt] Hpages (Hseed & Hlinks & Hmeta) Hprov] Ht.
  assert (Hsub : ∀ url depth q, to_visit s = (url, depth) :: q →
            ∀ item, item ∈ q ++ opened s → item ∈ to_visit s ++ opened s).
  { intros url depth q Hq item Hin. rewrite Hq, <- app_comm_cons. by right. }
  destruct Ht as [i url depth q Hw Hq Hc|i url depth q Hw Hq Hc Hs
                 |i url depth q Hw Hq Hc Hs Hb|i url depth q Hw Hq Hc Hs Hb
                 |i url depth Hw|i url depth Hw|i url depth Hw|i url depth Hw
                 |i url depth pd inv Hw Hcol Hu|i url depth pd inv Hw Hcol Hu
                 |i url depth Hw Hcol|i url depth hrefs Hw
                 |i url depth load_failed Hw|i url depth load_failed Hw].
  - (* the entry is dropped under the cap *)
    rewrite Hq in Hacc. cbn [length] in Hacc.
    split; cbn; rewrite ?(tally_insert _ _ _ _ _ Hw); cbn; try done; try lia.
    + intros j w u d Hl Hh. apply CrawlFacts.holds_insert in Hl as [->|Hl]; [done|eauto].
    + intros item Hin. eauto.
  - (* the URL was seen before *)
    rewrite Hq in Hacc. cbn [length] in Hacc.
    split; cbn; rewrite ?(tally_insert _ _ _ _ _ Hw); cbn; try done; try lia.
    + intros j w u d Hl Hh. apply CrawlFacts.holds_insert in Hl as [->|Hl]; [done|eauto].
    + intros item Hin. eauto.
  - (* the URL matches the blocklist *)
    rewrite Hq in Hacc. cbn [length] in Hacc.
    split; cbn; rewrite ?(tally_insert _ _ _ _ _ Hw); cbn; try done; try lia.
    + intros j w u d Hl Hh. apply CrawlFacts.holds_insert in Hl as [->|Hl]; [done|eauto].
    + intros item Hin. eauto.
  - (* a page is opened *)
    rewrite Hq in Hacc. cbn [length] in Hacc.
    split; cbn; rewrite ?(tally_insert _ _ _ _ _ Hw), ?length_app; cbn; try done; try lia.
    + intros j w u d Hl Hh. apply elem_of_app.
      apply CrawlFacts.holds_insert in Hl as [->|Hl]; [|eauto].
      injection Hh as <- <-. right. by left.
    + intros u Hu. rewrite fmap_app. apply elem_of_app. left. auto.
    + intros u d Hin. apply elem_of_app in Hin as [Hin|Hin]; [eauto|].
      by apply list_elem_of_singleton in Hin as [= -> ->].
    + intros item Hin. rewrite app_assoc in Hin.
      apply elem_of_app in Hin as [Hin|Hin]; [eauto|].
      apply list_elem_of_singleton in Hin as ->.
      apply Hprov. rewrite Hq, <- app_comm_cons. left.
  - (* the renderer page is ready *)
    split; cbn; rewrite ?(tally_insert _ _ _ _ _ Hw); cbn; try done; try lia.
    intros j w u d Hl Hh. apply CrawlFacts.holds_insert in Hl as [->|Hl]; [|eauto].
    injection Hh as <- <-. eapply Hheld; [exact Hw|done].
  - (* the renderer page cannot be opened *)
    split; cbn; rewrite ?(tally_insert _ _ _ _ _ Hw); cbn; try done; try lia.
    intros j w u d Hl Hh. apply CrawlFacts.holds_insert in Hl as [->|Hl]; [done|eauto].
  - (* the page has loaded *)
    split; cbn; rewrite ?(tally_insert _ _ _ _ _ Hw); cbn; try done; try lia.
    intros j w u d Hl Hh. apply CrawlFacts.holds_insert in Hl as [->|Hl]; [|eauto].
    injection Hh as <- <-. eapply Hheld; [exact Hw|done].
  - (* the page has not loaded *)
    split; cbn; rewrite ?(tally_insert _ _ _ _ _ Hw); cbn; try done; try lia.
    intros j w u d Hl Hh. apply CrawlFacts.holds_insert in Hl as [->|Hl]; [|eauto].
    injection Hh as <- <-. eapply Hheld; [exact Hw|done].
  - (* the page data is merged *)
    destruct (update_inventory_frame _ _ _ _ Hu) as (Hs1 & Hs2 & Hs3 & Hs4 & _).
    split; cbn; rewrite ?(tally_insert _ _ _ _ _ Hw); cbn; try done; try lia.
    + intros j w u d Hl Hh. apply CrawlFacts.holds_insert in Hl as [->|Hl]; [|eauto].
      injection Hh as <- <-. eapply Hheld; [exact Hw|done].
    + by rewrite Hs1, Hs2, Hs3.
  - (* merging the page data raises *)
    assert (Ho : (url, depth) ∈ opened s) by (eapply Hheld; [exact Hw|done]).
    destruct (update_inventory_frame _ _ _ _ Hu) as (Hs1 & Hs2 & Hs3 & _ & Hs5).
    split; cbn; rewrite ?(tally_insert _ _ _ _ _ Hw), ?Hs5 by done; cbn;
      try done; try lia.
    + intros j w u d Hl Hh. apply CrawlFacts.holds_insert in Hl as [->|Hl]; [|eauto].
      by injection Hh as <- <-.
    + intros u Hin. apply elem_of_union in Hin as [Hin|Hin]; [auto|].
      apply elem_of_singleton in Hin as ->.
      apply list_elem_of_fmap. by exists (url, depth).
    + by rewrite Hs1, Hs2, Hs3.
  - (* the inventory is switched off *)
    split; cbn; rewrite ?(tally_insert _ _ _ _ _ Hw); cbn; try done; try lia.
    intros j w u d Hl Hh. apply CrawlFacts.holds_insert in Hl as [->|Hl]; [|eauto].
    injection Hh as <- <-. eapply Hheld; [exact Hw|done].
  - (* the links are enqueued *)
    assert (Ho : (url, depth) ∈ opened s) by (eapply Hheld; [exact Hw|done]).
    destruct (discover_links_discovered url depth hrefs s) as (new & -> & Hnew).
    split; cbn; rewrite ?(tally_insert _ _ _ _ _ Hw), ?length_app; cbn;
      try done; try lia.
    + intros j w u d Hl Hh. apply CrawlFacts.holds_insert in Hl as [->|Hl]; [|eauto].
      by injection Hh as <- <-.
    + intros item Hin. rewrite <- app_assoc in Hin.
      apply elem_of_app in Hin as [Hin|Hin].
      { apply Hprov, elem_of_app. by left. }
      apply elem_of_app in Hin as [Hin|Hin].
      * rewrite Forall_forall in Hnew.
        destruct (Hnew _ Hin) as (Hd & Hne & _ & Ha & Hor).
        right. split_and!; try done.
        assert (0 ≤ depth); [|lia].
        apply (provenance_depth (url, depth)), Hprov, elem_of_app. by right.
      * apply Hprov, elem_of_app. by right.
  - (* the page is closed *)
    assert (Ho : (url, depth) ∈ opened s) by (eapply Hheld; [exact Hw|done]).
    destruct load_failed;
      split; cbn; rewrite ?(tally_insert _ _ _ _ _ Hw); cbn; try done; try lia;
      try (intros j w u d Hl Hh;
           apply CrawlFacts.holds_insert in Hl as [->|Hl]; [done|eauto]).
    intros u Hu. apply elem_of_union in Hu as [Hu|Hu]; [auto|].
    apply elem_of_singleton in Hu as ->.
    apply list_elem_of_fmap. by exists (url, depth).
  - (* closing the page raises *)
    split; cbn; rewrite ?(tally_insert _ _ _ _ _ Hw); cbn; try done; try lia.
    intros j w u d Hl Hh. apply CrawlFacts.holds_insert in Hl as [->|Hl]; [done|eauto].
Qed.

Lemma ledger_exec evs s s' : ledger s → exec evs s = Some s' → ledger s'.
Proof.
  revert s. induction evs as [|ev evs IH]; intros s Hl Hex; cbn in Hex.
  - by injection Hex as <-.
  - destruct (step ev s) as [s1|] eqn:Hs; [|done]. cbn in Hex.
    eapply IH; [|exact Hex]. eapply ledger_transition; [exact Hl|].
    by eapply step_transition.
Qed.

Lemma ledger_reachable s :
  reachable config start_url start_stamp s → ledger s.
Proof.
  intros (s0 & evs & Hs0 & Hex).
  eapply ledger_exec; [|exact Hex]. by apply ledger_start.
Qed.

End facts.
End LedgerFacts.

Section books.
Context `{UrlLib}.
Variable config : ScraperConfig.
Variable start_url : string.
Variable start_stamp : string.

Import SiteScraper Crawl Ledger.

(** X1. [unfinished_tasks] of the queue is at every moment the number of
    entries waiting in the queue plus the number of workers that have an
    entry in hand.  So [to_visit.join()] returns only when the queue is
    empty and every worker is waiting in [get()] or has left. *)
Theorem queue_accounting (s : state) :
  reachable config start_url start_stamp s →
  unfinished_tasks s = Z.of_nat (length (to_visit s)) + tally holding (workers s)
  ∧ (joined s →
     to_visit s = [] ∧ ∀ i w, workers s !! i = Some w → w = WGet ∨ w = WExit).
Proof.
  intros Hreach. apply (LedgerFacts.ledger_reachable _ _ start_stamp) in Hreach.
  pose proof (queue_account _ _ _ _ Hreach) as Hacc. split; [done|].
  unfold joined. intros Hj.
  assert (0 ≤ tally holding (workers s)) by (unfold tally; lia).
  split.
  - destruct (to_visit s); [done|]. cbn [length] in Hacc. lia.
  - intros i w Hw.
    assert (Hz : tally holding (workers s) = 0) by lia.
    pose proof (LedgerFacts.tally_zero _ _ Hz i w Hw). destruct w; auto; done.
Qed.

(** X2. A session that is not joined and in which some worker has not
    left can always go on: some worker has a step to take.  A session
    hangs only once every worker has left. *)
Theorem live_worker_can_step (s : state) :
  reachable config start_url start_stamp s →
  ¬ joined s →
  (∃ i w, workers s !! i = Some w ∧ w ≠ WExit) →
  ∃ ev s', step config start_url ev s = Some s'.
Proof.
  intros Hreach Hnj (i & w & Hw & Hlive).
  apply (LedgerFacts.ledger_reachable _ _ start_stamp) in Hreach.
  pose proof (queue_account _ _ _ _ Hreach) as Hacc.
  assert (Hnn : 0 ≤ tally holding (workers s)) by (unfold tally; lia).
  destruct (decide (tally holding (workers s) = 0)) as [Hz|Hp].
  - pose proof (LedgerFacts.tally_zero _ _ Hz i w Hw) as Hh.
    destruct w; try done.
    destruct (to_visit s) as [|[url depth] q] eqn:Hq.
    { unfold joined in Hnj. cbn [length] in Hacc. lia. }
    exists (Dequeue i). cbn. rewrite Hw, Hq. cbn.
    destruct (max_pages config <=? page_count s); eauto.
  - destruct (LedgerFacts.tally_pos holding (workers s)) as (j & w' & Hj & Hh); [lia|].
    destruct w' as [|u d|u d|u d|u d|u d f|]; try done.
    + exists (PageOpened j true). cbn. rewrite Hj. eauto.
    + exists (Navigated j true). cbn. rewrite Hj. eauto.
    + exists (Collected j None). cbn. rewrite Hj.
      destruct (collect_ui_inventory config); cbn; eauto.
    + exists (Hrefs j None). cbn. rewrite Hj. eauto.
    + exists (Closed j true). cbn. rewrite Hj. eauto.
Qed.

(** X5. Every page counted in [page_count] was opened, and pages are
    opened for distinct URLs of [seen_urls]: [page_count] never exceeds
    the number of pages opened, which never exceeds the size of
    [seen_urls]. *)
Theorem counted_pages_were_opened (s : state) :
  reachable config start_url start_stamp s →
  0 ≤ page_count s
  ∧ page_count s ≤ Z.of_nat (length (opened s))
  ∧ (length (opened s) ≤ size (seen_urls s))%nat.
Proof.
  intros Hreach.
  pose proof (LedgerFacts.ledger_reachable _ _ start_stamp _ Hreach) as Hl.
  pose proof (CrawlFacts.invariant_reachable _ _ start_stamp _ Hreach) as Hi.
  destruct (counted_opened _ _ _ _ Hl) as [Hpc Hcnt].
  assert (0 ≤ tally loading (workers s)) by (unfold tally; lia).
  split_and!; [done|lia|].
  rewrite <- (length_fmap fst (opened s)).
  rewrite <- (size_list_to_set (C:=gset string)) by apply (opened_once _ _ Hi).
  apply subseteq_size. intros u Hu. apply elem_of_list_to_set in Hu.
  apply list_elem_of_fmap in Hu as ([u' d] & -> & Hin). by eapply opened_seen.
Qed.

(** X6. A URL that matches the blocklist is never opened in the renderer,
    and only URLs for which a page was opened get into [failed_urls]: a
    blocked or a duplicate entry never counts as a failure. *)
Theorem blocked_urls_are_never_opened (s : state) :
  reachable config start_url start_stamp s →
  (∀ url depth, (url, depth) ∈ opened s →
     URLUtils.matches_blocklist url (block_host_patterns config) = false)
  ∧ (∀ url, url ∈ failed_urls s →
       url ∈ (opened s).*1
       ∧ URLUtils.matches_blocklist url (block_host_patterns config) = false).
Proof.
  intros Hreach. apply (LedgerFacts.ledger_reachable _ _ start_stamp) in Hreach.
  split; [apply (opened_allowed _ _ _ _ Hreach)|].
  intros url Hf. pose proof (failed_opened _ _ _ _ Hreach url Hf) as Ho.
  split; [done|]. apply list_elem_of_fmap in Ho as ([u d] & -> & Hin).
  by eapply opened_allowed.
Qed.

(** X7. Every entry of the frontier, waiting or taken up, is the seed at
    depth 0 or a link that [_discover_links] let through: its depth is at
    least 1, its URL is not empty and is not an asset URL, and, unless
    [respect_robots_txt] is set, it has the origin of the seed. *)
Theorem frontier_entries_are_filtered (s : state) (item : string * Z) :
  reachable config start_url start_stamp s →
  item ∈ to_visit s ++ opened s →
  item = (start_url, 0)
  ∨ (1 ≤ snd item ∧ fst item ≠ EmptyString
     ∧ URLUtils.is_asset_url (fst item) = false
     ∧ (respect_robots_txt config = false →
        URLUtils.is_same_origin start_url (fst item) = Some true)).
Proof.
  intros Hreach. apply (LedgerFacts.ledger_reachable _ _ start_stamp) in Hreach.
  apply (frontier_provenance _ _ _ _ Hreach).
Qed.

(** X8. During a session the inventory keeps the seed, its [links] list
    stays empty and its metadata stay as [__init__] set them, so that
    [total_pages] is 0 whatever [page_count] is; and it never holds more
    page records than pages were counted. *)
Theorem inventory_books (s : state) :
  reachable config start_url start_stamp s →
  inv_seed (inventory s) = start_url
  ∧ inv_links (inventory s) = []
  ∧ inv_meta (inventory s) = mkMeta 0 0 start_stamp EmptyString
  ∧ Z.of_nat (length (inv_pages (inventory s))) ≤ page_count s.
Proof.
  intros Hreach. apply (LedgerFacts.ledger_reachable _ _ start_stamp) in Hreach.
  destruct (inventory_frame _ _ _ _ Hreach) as (Hs1 & Hs2 & Hs3).
  pose proof (pages_counted _ _ _ _ Hreach).
  assert (0 ≤ tally processing (workers s)) by (unfold tally; lia).
  split_and!; try done. lia.
Qed.

End books.

Module GrowthFacts.
Section facts.
Context `{UrlLib}.
Variable config : ScraperConfig.
Variable start_url : string.

Import SiteScraper Crawl Ledger.

Lemma add_all_union xs (X : gset string) :
  UICollector.add_all xs X = X ∪ list_to_set xs.
Proof.
  unfold UICollector.add_all. revert X.
  induction xs as [|x xs IH]; intros X; cbn.
  - by rewrite union_empty_r_L.
  - rewrite IH. by rewrite <- (assoc_L (∪)).
Qed.

Lemma update_inventory_grows inv page_data inv' returned :
  UICollector.update_inventory inv page_data = (inv', returned) →
  inventory_grows inv inv'.
Proof.
  unfold UICollector.update_inventory, inventory_grows.
  destruct (UICollector.falsy page_data); [by intros [= <- <-]|].
  destruct page_data as [pd|]; [|by intros [= <- <-]].
  destruct (pd_url pd); intros [= <- <-]; cbn; rewrite !add_all_union;
    split_and!;
    first [reflexivity | apply union_subseteq_l | by apply prefix_app_r].
Qed.

Lemma inventory_grows_refl inv : inventory_grows inv inv.
Proof. by unfold inventory_grows. Qed.

Lemma inventory_grows_trans a b c :
  inventory_grows a b → inventory_grows b c → inventory_grows a c.
Proof.
  unfold inventory_grows.
  intros (A1&A2&A3&A4&A5&A6&A7) (B1&B2&B3&B4&B5&B6&B7).
  split_and!;
    [by transitivity (inv_pages b)|by transitivity (inv_fonts b)
    |by transitivity (inv_colors b)|by transitivity (inv_buttons b)
    |by transitivity (inv_canvases b)|by transitivity (inv_interactive_controls b)
    |by transitivity (inv_components b)].
Qed.

Lemma exited_insert (ws : list wstate) i j w w' :
  ws !! i = Some w → w ≠ WExit →
  ws !! j = Some WExit → <[i := w']> ws !! j = Some WExit.
Proof.
  intros Hi Hw Hj. destruct (decide (i = j)) as [->|Hne]; [congruence|].
  by rewrite list_lookup_insert_ne.
Qed.

Lemma transition_grows s s' :
  transition config start_url s s' → grows s s'.
Proof.
  destruct 1 as [i url depth q Hw Hq Hc|i url depth q Hw Hq Hc Hs
                |i url depth q Hw Hq Hc Hs Hb|i url depth q Hw Hq Hc Hs Hb
                |i url depth Hw|i url depth Hw|i url depth Hw|i url depth Hw
                |i url depth pd inv Hw Hcol Hu|i url depth pd inv Hw Hcol Hu
                |i url depth Hw Hcol|i url depth hrefs Hw
                |i url depth [] Hw|i url depth load_failed Hw];
    try (destruct (CrawlFacts.discover_links_appends config start_url url depth hrefs s)
           as (new & -> & _));
    unfold grows; cbn; rewrite ?length_insert;
    (split_and!;
     [try done; try apply union_subseteq_l
     |try done; try apply union_subseteq_l
     |lia
     |try done; try by apply prefix_app_r
     |try apply inventory_grows_refl; try by eapply update_inventory_grows
     |done
     |intros j Hj; by eapply exited_insert]).
Qed.

Lemma grows_refl s : grows s s.
Proof. unfold grows. split_and!; first [done | apply inventory_grows_refl]. Qed.

Lemma grows_trans a b c : grows a b → grows b c → grows a c.
Proof.
  unfold grows. intros (S1&F1&P1&O1&I1&L1&E1) (S2&F2&P2&O2&I2&L2&E2).
  split_and!.
  - by transitivity (seen_urls b).
  - by transitivity (failed_urls b).
  - lia.
  - by transitivity (opened b).
  - by eapply inventory_grows_trans.
  - congruence.
  - auto.
Qed.

Lemma exec_grows evs s s' :
  SiteScraper.exec config start_url evs s = Some s' → grows s s'.
Proof.
  revert s. induction evs as [|ev evs IH]; intros s Hex; cbn in Hex.
  - injection Hex as <-. apply grows_refl.
  - destruct (SiteScraper.step config start_url ev s) as [s1|] eqn:Hs; [|done].
    cbn in Hex. eapply grows_trans; [|by apply IH].
    by eapply transition_grows, LedgerFacts.step_transition.
Qed.

End facts.
End GrowthFacts.

Section growth.
Context `{UrlLib}.
Variable config : ScraperConfig.
Variable start_url : string.

Import SiteScraper Crawl Ledger.

(** X3. Nothing is ever taken back during a session: from a state to any
    later one, [seen_urls] and [failed_urls] only gain URLs, [page_count]
    does not decrease, the pages opened so far stay the first ones
    opened, and the inventory keeps its page records, buttons, canvases,
    controls and components in place and its fonts and colors. *)
Theorem session_only_grows (s s' : state) :
  follows config start_url s s' →
  seen_urls s ⊆ seen_urls s'
  ∧ failed_urls s ⊆ failed_urls s'
  ∧ page_count s ≤ page_count s'
  ∧ opened s `prefix_of` opened s'
  ∧ inv_pages (inventory s) `prefix_of` inv_pages (inventory s')
  ∧ inv_fonts (inventory s) ⊆ inv_fonts (inventory s')
  ∧ inv_colors (inventory s) ⊆ inv_colors (inventory s')
  ∧ inv_buttons (inventory s) `prefix_of` inv_buttons (inventory s')
  ∧ inv_canvases (inventory s) `prefix_of` inv_canvases (inventory s')
  ∧ inv_interactive_controls (inventory s)
      `prefix_of` inv_interactive_controls (inventory s')
  ∧ inv_components (inventory s) `prefix_of` inv_components (inventory s').
Proof.
  intros [evs Hex]. apply GrowthFacts.exec_grows in Hex.
  destruct Hex as (?&?&?&?&(?&?&?&?&?&?&?)&_&_). by split_and!.
Qed.

(** X9. The pool keeps its size, and a worker that has left [_worker],
    by the [return] under the page cap or by an exception, never takes
    an entry again. *)
Theorem exited_worker_stays_out (s s' : state) (i : nat) :
  follows config start_url s s' →
  workers s !! i = Some WExit →
  length (workers s') = length (workers s)
  ∧ workers s' !! i = Some WExit.
Proof.
  intros [evs Hex] Hi. apply GrowthFacts.exec_grows in Hex.
  destruct Hex as (_&_&_&_&_&Hlen&Hex). auto.
Qed.

End growth.

(* ===================================================================== *)
(** ** Failed navigations and [failed_urls] *)
(* ===================================================================== *)

Module FailureFacts.
Section facts.
Context `{UrlLib}.
Variable config : ScraperConfig.
Variable start_url : string.
Variable start_stamp : string.

Import SiteScraper Crawl Ledger.

Abbreviation step := (SiteScraper.step config start_url).
Abbreviation exec := (SiteScraper.exec config start_url).

(** What every step does: it resumes one worker, which keeps its entry,
    drops it or, from [get()], takes up a URL that was not seen; it adds to
    [failed_urls] at most the URL this worker has in hand; and it puts in
    the queue only URLs that are not in [seen_urls]. *)
Lemma step_shape ev s s' :
  step ev s = Some s' →
  ∃ w w',
    workers s !! worker_of ev = Some w
    ∧ workers s' = <[worker_of ev := w']> (workers s)
    ∧ seen_urls s ⊆ seen_urls s'
    ∧ failed_urls s'
      = failed_urls s ∪ from_option singleton ∅ (records_failure config ev s)
    ∧ (∀ u, records_failure config ev s = Some u → ∃ d, holds w = Some (u, d))
    ∧ (∀ u d, holds w' = Some (u, d) →
         (holds w = Some (u, d)
          ∧ (clean w' = true →
             clean w = true ∧ records_failure config ev s = None))
         ∨ ((u ∉ seen_urls s) ∧ u ∈ seen_urls s'
            ∧ records_failure config ev s = None))
    ∧ (∀ u d f, w = WClose u d f → holds w' = None)
    ∧ (∀ item, item ∈ to_visit s' → item ∈ to_visit s ∨ fst item ∉ seen_urls s).
Proof.
  intros Hstep.
  destruct ev as [i|i ok|i ok|i pd|i hrefs|i ok]; cbn in Hstep;
    destruct (workers s !! i) as [w|] eqn:Hw; try done.
  - (* Dequeue *)
    destruct w; try done.
    destruct (to_visit s) as [|[url depth] q] eqn:Hq; [done|].
    assert (Hsub : ∀ item, item ∈ q → item ∈ (url, depth) :: q ∨ fst item ∉ seen_urls s).
    { intros item Hin. left. by right. }
    cbn in Hstep. destruct (max_pages config <=? page_count s).
    { injection Hstep as <-. exists WGet, WExit. cbn. rewrite Hw. cbn. rewrite ?union_empty_r_L.
      by split_and!. }
    injection Hstep as <-. unfold scrape_page_begin.
    change (seen_urls (set_to_visit q s)) with (seen_urls s).
    case_bool_decide as Hseen.
    { exists WGet, WGet. cbn. rewrite Hw. cbn. rewrite ?union_empty_r_L. by split_and!. }
    change (respect_robots_txt config && negb (check_robots_txt url)) with
      (respect_robots_txt config && false). rewrite andb_false_r.
    destruct (URLUtils.matches_blocklist url (block_host_patterns config)).
    + exists WGet, WGet. cbn. rewrite Hw. cbn. rewrite ?union_empty_r_L.
      split_and!; try done; try apply union_subseteq_l.
    + exists WGet, (WNewPage url depth). cbn. rewrite Hw. cbn. rewrite ?union_empty_r_L.
      split_and!; try done; [apply union_subseteq_l|].
      intros u d [= <- <-]. right. split_and!; [done| |done].
      apply elem_of_union_r. by apply elem_of_singleton.
  - (* PageOpened *)
    destruct w as [| url depth | | | | |]; try done.
    destruct ok; injection Hstep as <-.
    + exists (WNewPage url depth), (WGoto url depth). cbn. rewrite Hw. cbn. rewrite ?union_empty_r_L. split_and!; try done; auto;
        try (intros u d [= <- <-]; by left).
    + exists (WNewPage url depth), WExit. cbn. rewrite Hw. cbn. rewrite ?union_empty_r_L. split_and!; try done; auto.
  - (* Navigated *)
    destruct w as [| | url depth | | | |]; try done.
    destruct ok; injection Hstep as <-.
    + exists (WGoto url depth), (WProcess url depth). cbn. rewrite Hw. cbn. rewrite ?union_empty_r_L. split_and!; try done; auto;
        try (intros u d [= <- <-]; by left).
    + exists (WGoto url depth), (WClose url depth true). cbn. rewrite Hw. cbn. rewrite ?union_empty_r_L. split_and!; try done; auto;
        try (intros u d [= <- <-]; by left).
  - (* Collected *)
    destruct w as [| | | url depth | | |]; try done.
    destruct (collect_ui_inventory config) eqn:Hc.
    + destruct (UICollector.update_inventory (inventory s) pd) as [inv []] eqn:Hu;
        injection Hstep as <-.
      * exists (WProcess url depth), (WLinks url depth). cbn.
        rewrite Hw, Hc, Hu. cbn. rewrite union_empty_r_L.
        split_and!; try done; auto;
          try (intros u d [= <- <-]; by left).
      * exists (WProcess url depth), (WClose url depth false). cbn.
        rewrite Hw, Hc, Hu. cbn.
        split_and!; try done; auto.
        -- intros u [= <-]. by exists depth.
        -- intros u d [= <- <-]. by left.
    + injection Hstep as <-.
      exists (WProcess url depth), (WLinks url depth). cbn.
      rewrite Hw, Hc. cbn. rewrite union_empty_r_L.
      split_and!; try done; auto;
        try (intros u d [= <- <-]; by left).
  - (* Hrefs *)
    destruct w as [| | | | url depth | |]; try done.
    injection Hstep as <-.
    destruct (CrawlFacts.discover_links_appends config start_url url depth hrefs s)
      as (new & -> & Hnew).
    exists (WLinks url depth), (WClose url depth false). cbn. rewrite Hw. cbn. rewrite ?union_empty_r_L. split_and!; try done.
    + intros u d [= <- <-]. by left.
    + intros item Hin. apply elem_of_app in Hin as [Hin|Hin]; [by left|].
      right. rewrite Forall_forall in Hnew. by destruct (Hnew _ Hin) as (_ & _ & ? & _).
  - (* Closed *)
    destruct w as [| | | | | url depth load_failed |]; try done.
    destruct ok; [destruct load_failed|]; injection Hstep as <-.
    + exists (WClose url depth true), WGet. cbn. rewrite Hw. cbn.
      split_and!; try done; auto. intros u [= <-]. by exists depth.
    + exists (WClose url depth false), WGet. cbn. rewrite Hw. cbn. rewrite ?union_empty_r_L.
      split_and!; try done; auto.
    + exists (WClose url depth load_failed), WExit. cbn. rewrite Hw. cbn. rewrite ?union_empty_r_L. split_and!; try done; auto.
Qed.

Lemma exec_app evs1 evs2 s :
  exec (evs1 ++ evs2) s = exec evs1 s ≫= exec evs2.
Proof.
  revert s. induction evs1 as [|ev evs1 IH]; intros s; [done|].
  cbn. destruct (step ev s) as [s1|]; cbn; [apply IH|done].
Qed.

Lemma exec_failed evs s s' u :
  exec evs s = Some s' →
  u ∈ failed_urls s'
  ↔ u ∈ failed_urls s
    ∨ ∃ evs1 ev evs2 s1,
        evs = evs1 ++ ev :: evs2 ∧ exec evs1 s = Some s1
        ∧ records_failure config ev s1 = Some u.
Proof.
  revert s. induction evs as [|ev evs IH]; intros s Hex; cbn in Hex.
  - injection Hex as <-. split; [by left|].
    intros [Hu|(evs1 & ev & evs2 & s1 & Heq & _)]; [done|]. by destruct evs1.
  - destruct (step ev s) as [s1|] eqn:Hs; [|done]. cbn in Hex.
    destruct (step_shape _ _ _ Hs) as (w & w' & _ & _ & _ & Hf & _).
    rewrite (IH s1 Hex), Hf. split.
    + intros [Hu|(evs1 & ev' & evs2 & s2 & -> & Hex1 & Hr)].
      * apply elem_of_union in Hu as [Hu|Hu]; [by left|].
        right. exists [], ev, evs, s. split_and!; [done|done|].
        destruct (records_failure config ev s) as [u'|]; cbn in Hu.
        -- by apply elem_of_singleton in Hu as ->.
        -- by apply elem_of_empty in Hu.
      * right. exists (ev :: evs1), ev', evs2, s2. split_and!; [done| |done].
        cbn. by rewrite Hs.
    + intros [Hu|(evs1 & ev' & evs2 & s2 & Heq & Hex1 & Hr)].
      * left. by apply elem_of_union_l.
      * destruct evs1 as [|e evs1]; cbn in Heq, Hex1.
        -- injection Heq as <- <-. injection Hex1 as <-. left. rewrite Hr. cbn.
           apply elem_of_union_r. by apply elem_of_singleton.
        -- injection Heq as <- ->. rewrite Hs in Hex1. cbn in Hex1.
           right. by exists evs1, ev', evs2, s2.
Qed.

Lemma custody_start s0 :
  start config start_url start_stamp = Some s0 → custody s0.
Proof.
  intros (_ & _ & _ & _ & _ & _ & _ & Hws & _)%CrawlFacts.start_Some.
  split; rewrite Hws.
  - intros i j wi wj u d d' Hi _ Hh. apply lookup_replicate in Hi as [-> _]. done.
  - intros i w u d Hi Hh. apply lookup_replicate in Hi as [-> _]. done.
Qed.

Lemma custody_step ev s s' :
  Crawl.invariant config s → custody s → step ev s = Some s' → custody s'.
Proof.
  intros Hinv [Hone Hclean] Hs.
  destruct (step_shape _ _ _ Hs)
    as (w & w' & Hw & Hws & Hseen & Hf & Hrec & Hheld & _ & _).
  split.
  - rewrite Hws. intros a b wa wb u d d' Ha Hb Hha Hhb.
    apply list_lookup_insert_Some in Ha as [(<- & <- & _)|[Hna Ha]];
      apply list_lookup_insert_Some in Hb as [(<- & <- & _)|[Hnb Hb]]; try done.
    + destruct (Hheld _ _ Hha) as [[Hh _]|(Hns & _)].
      * eapply Hone; [exact Hw|exact Hb|exact Hh|exact Hhb].
      * destruct Hns. eapply (held_seen _ _ Hinv); [exact Hb|exact Hhb].
    + destruct (Hheld _ _ Hhb) as [[Hh _]|(Hns & _)].
      * eapply Hone; [exact Ha|exact Hw|exact Hha|exact Hh].
      * destruct Hns. eapply (held_seen _ _ Hinv); [exact Ha|exact Hha].
    + eapply Hone; [exact Ha|exact Hb|exact Hha|exact Hhb].
  - rewrite Hws, Hf. intros j x u d Hj Hh Hc.
    apply list_lookup_insert_Some in Hj as [(<- & <- & _)|[Hne Hj]].
    + destruct (Hheld _ _ Hh) as [[Hh0 Hcl]|(Hns & _ & Hr)].
      * destruct (Hcl Hc) as [Hc0 Hr]. rewrite Hr. cbn. rewrite union_empty_r_L.
        eapply Hclean; [exact Hw|exact Hh0|exact Hc0].
      * rewrite Hr. cbn. rewrite union_empty_r_L. intros Hu. apply Hns.
        by apply (failed_seen _ _ Hinv).
    + intros Hu. apply elem_of_union in Hu as [Hu|Hu].
      { by eapply Hclean. }
      destruct (records_failure config ev s) as [u'|] eqn:Hr; cbn in Hu;
        [|by apply elem_of_empty in Hu].
      apply elem_of_singleton in Hu as ->. destruct (Hrec _ eq_refl) as [d0 Hh0].
      apply Hne. eapply Hone; [exact Hw|exact Hj|exact Hh0|exact Hh].
Qed.

Lemma custody_reachable s :
  reachable config start_url start_stamp s → custody s.
Proof.
  intros (s0 & evs & Hs0 & Hex).
  pose proof (CrawlFacts.invariant_start _ _ _ _ Hs0) as Hinv.
  pose proof (custody_start _ Hs0) as Hcus. clear Hs0.
  revert s0 Hinv Hcus Hex. induction evs as [|ev evs IH]; intros s0 Hinv Hcus Hex;
    cbn in Hex.
  - by injection Hex as <-.
  - destruct (step ev s0) as [s1|] eqn:Hs; [|done]. cbn in Hex.
    eapply (IH s1); [|by eapply custody_step|exact Hex].
    by eapply CrawlFacts.invariant_step.
Qed.

(** As long as the page of the failed navigation is not closed without
    error, no failure of the URL is recorded. *)
Lemma unrecorded_step i url depth ev s s' :
  unrecorded i url depth s → step ev s = Some s' → ev ≠ Closed i true →
  unrecorded i url depth s'.
Proof.
  intros (Hseen & Hnf & Hhold) Hs Hev.
  destruct (step_shape _ _ _ Hs)
    as (w & w' & Hw & Hws & Hsub & Hf & Hrec & Hheld & Hcl & _).
  split_and!.
  - by apply Hsub.
  - rewrite Hf. intros Hu. apply elem_of_union in Hu as [Hu|Hu]; [done|].
    destruct (records_failure config ev s) as [u'|] eqn:Hr; cbn in Hu;
      [|by apply elem_of_empty in Hu].
    apply elem_of_singleton in Hu as <-. destruct (Hrec _ eq_refl) as [d0 Hh0].
    destruct (Hhold _ _ _ Hw Hh0) as [Hi ->].
    destruct ev as [j|j ok|j ok|j pd|j hrefs|j ok]; cbn in Hr, Hw, Hi;
      try done; rewrite Hw in Hr; try done.
    destruct ok; [|done]. by subst j.
  - rewrite Hws. intros j x d Hj Hh.
    apply list_lookup_insert_Some in Hj as [(<- & <- & _)|[Hne Hj]]; [|eauto].
    destruct (Hheld _ _ Hh) as [[Hh0 _]|(Hns & _)]; [|done].
    destruct (Hhold _ _ _ Hw Hh0) as [Hi ->].
    by rewrite (Hcl _ _ _ eq_refl) in Hh.
Qed.

Lemma unrecorded_exec i url depth evs s s' :
  unrecorded i url depth s → exec evs s = Some s' → Closed i true ∉ evs →
  unrecorded i url depth s'.
Proof.
  revert s. induction evs as [|ev evs IH]; intros s Hu Hex Hnin; cbn in Hex.
  - by injection Hex as <-.
  - destruct (step ev s) as [s1|] eqn:Hs; [|done]. cbn in Hex.
    apply not_elem_of_cons in Hnin as [Hne Hnin].
    eapply (IH s1); [|exact Hex|exact Hnin].
    eapply unrecorded_step; [exact Hu|exact Hs|]. by intros ->.
Qed.

Lemma step_other_worker ev s s' i :
  step ev s = Some s' → worker_of ev ≠ i → workers s' !! i = workers s !! i.
Proof.
  intros Hs Hne. destruct (step_shape _ _ _ Hs) as (w & w' & _ & Hws & _).
  rewrite Hws. by apply list_lookup_insert_ne.
Qed.

Lemma step_at_close ev s s' i url depth f :
  workers s !! i = Some (WClose url depth f) → worker_of ev = i →
  step ev s = Some s' → ∃ ok, ev = Closed i ok.
Proof.
  intros Hw <- Hs.
  destruct ev as [j|j ok|j ok|j pd|j hrefs|j ok]; cbn in Hw, Hs;
    rewrite Hw in Hs; try done.
  by exists ok.
Qed.

Lemma step_at_exit ev s i :
  workers s !! i = Some WExit → worker_of ev = i → step ev s = None.
Proof.
  intros Hw <-.
  destruct ev as [j|j ok|j ok|j pd|j hrefs|j ok]; cbn in Hw |- *; by rewrite Hw.
Qed.

(** A worker that has left is never resumed. *)
Lemma exited_no_event evs s s' i :
  workers s !! i = Some WExit → exec evs s = Some s' →
  ∀ ev, ev ∈ evs → worker_of ev ≠ i.
Proof.
  revert s. induction evs as [|ev0 evs IH]; intros s Hw Hex ev Hin.
  - by apply elem_of_nil in Hin.
  - cbn in Hex. destruct (step ev0 s) as [s1|] eqn:Hs; [|done]. cbn in Hex.
    assert (Hne : worker_of ev0 ≠ i).
    { intros Hi. by rewrite (step_at_exit _ _ _ Hw Hi) in Hs. }
    apply elem_of_cons in Hin as [->|Hin]; [done|].
    eapply (IH s1); [|exact Hex|exact Hin].
    by rewrite (step_other_worker _ _ _ _ Hs Hne).
Qed.

(** Once the page of a failed navigation is closed, the URL is in
    [failed_urls] for the rest of the session. *)
Lemma closing_recorded i url depth evs s s' :
  workers s !! i = Some (WClose url depth true) → exec evs s = Some s' →
  Closed i true ∈ evs → url ∈ failed_urls s'.
Proof.
  revert s. induction evs as [|ev evs IH]; intros s Hw Hex Hin.
  - by apply elem_of_nil in Hin.
  - cbn in Hex. destruct (step ev s) as [s1|] eqn:Hs; [|done]. cbn in Hex.
    destruct (decide (worker_of ev = i)) as [Hi|Hi].
    + destruct (step_at_close _ _ _ _ _ _ _ Hw Hi Hs) as [ok ->].
      cbn in Hs. rewrite Hw in Hs. destruct ok; injection Hs as <-.
      * destruct (GrowthFacts.exec_grows _ _ _ _ _ Hex) as (_ & Hsub & _).
        apply Hsub. cbn. apply elem_of_union_r. by apply elem_of_singleton.
      * apply elem_of_cons in Hin as [[=]|Hin]. exfalso.
        eapply (exited_no_event evs (leave i s) s' i); [|exact Hex|exact Hin|done].
        cbn. apply list_lookup_insert_eq. by eapply lookup_lt_Some.
    + apply elem_of_cons in Hin as [<-|Hin]; [done|].
      eapply (IH s1); [|exact Hex|exact Hin].
      by rewrite (step_other_worker _ _ _ _ Hs Hi).
Qed.

(** After a failed navigation the worker is closing the page until its
    next event, which is the outcome of [page.close()]: the URL is in
    [failed_urls] from then on if it returned; the worker is gone and the
    URL stays out of [failed_urls] if it raised. *)
Lemma close_outcome i url depth evs s s' :
  unrecorded i url depth s → workers s !! i = Some (WClose url depth true) →
  exec evs s = Some s' →
  match next_event i evs with
  | None => workers s' !! i = Some (WClose url depth true) ∧ url ∉ failed_urls s'
  | Some ev =>
      (ev = Closed i true ∧ url ∈ failed_urls s')
      ∨ (ev = Closed i false ∧ workers s' !! i = Some WExit ∧ url ∉ failed_urls s')
  end.
Proof.
  revert s. induction evs as [|ev evs IH]; intros s Hun Hw Hex; cbn in Hex.
  - injection Hex as <-. cbn. split; [done|]. by destruct Hun as (_ & ? & _).
  - destruct (step ev s) as [s1|] eqn:Hs; [|done]. cbn in Hex. cbn [next_event].
    destruct (decide (worker_of ev = i)) as [Hi|Hi].
    + destruct (step_at_close _ _ _ _ _ _ _ Hw Hi Hs) as [ok ->].
      destruct ok; [left|right].
      * split; [done|]. eapply (closing_recorded i url depth (Closed i true :: evs) s).
        -- exact Hw.
        -- cbn [SiteScraper.exec]. rewrite Hs. exact Hex.
        -- by left.
      * assert (Hun1 : unrecorded i url depth s1).
        { eapply unrecorded_step; [exact Hun|exact Hs|done]. }
        assert (Hw1 : workers s1 !! i = Some WExit).
        { cbn in Hs. rewrite Hw in Hs. injection Hs as <-. cbn.
          apply list_lookup_insert_eq. by eapply lookup_lt_Some. }
        split_and!; [done| |].
        -- destruct (GrowthFacts.exec_grows _ _ _ _ _ Hex)
             as (_ & _ & _ & _ & _ & _ & Hexit). by apply Hexit.
        -- eapply unrecorded_exec in Hun1 as (_ & ? & _); [done|exact Hex|].
           intros Hin. by eapply (exited_no_event evs s1 s' i Hw1 Hex _ Hin).
    + eapply (IH s1); [|by rewrite (step_other_worker _ _ _ _ Hs Hi)|exact Hex].
      eapply unrecorded_step; [exact Hun|exact Hs|]. by intros ->.
Qed.

(** A worker whose [page.close()] raises is gone. *)
Lemma close_error_exits i evs s s' :
  exec evs s = Some s' → Closed i false ∈ evs → workers s' !! i = Some WExit.
Proof.
  revert s. induction evs as [|ev evs IH]; intros s Hex Hin.
  - by apply elem_of_nil in Hin.
  - cbn in Hex. destruct (step ev s) as [s1|] eqn:Hs; [|done]. cbn in Hex.
    apply elem_of_cons in Hin as [<-|Hin]; [|by eapply IH].
    destruct (GrowthFacts.exec_grows _ _ _ _ _ Hex) as (_ & _ & _ & _ & _ & _ & Hexit).
    apply Hexit. cbn in Hs.
    destruct (workers s !! i) as [[| | | | | u d f |]|] eqn:Hw; try done.
    injection Hs as <-. cbn. apply list_lookup_insert_eq. by eapply lookup_lt_Some.
Qed.

(** A URL of [seen_urls] is never put in the queue again. *)
Lemma seen_not_enqueued evs s s' url :
  url ∈ seen_urls s → exec evs s = Some s' →
  ∀ d, (url, d) ∈ to_visit s' → (url, d) ∈ to_visit s.
Proof.
  revert s. induction evs as [|ev evs IH]; intros s Hseen Hex d Hin; cbn in Hex.
  - by injection Hex as <-.
  - destruct (step ev s) as [s1|] eqn:Hs; [|done]. cbn in Hex.
    destruct (step_shape _ _ _ Hs) as (w & w' & _ & _ & Hsub & _ & _ & _ & _ & Hq).
    destruct (Hq _ (IH s1 (Hsub _ Hseen) Hex d Hin)) as [?|Hns]; [done|].
    by destruct Hns.
Qed.

(** [retry_failed_pages] and [max_retries] are read by no step. *)
Lemma retry_settings_exec enabled retries evs s :
  SiteScraper.exec (retry_settings enabled retries config) start_url evs s
  = exec evs s.
Proof.
  revert s. induction evs as [|ev evs IH]; intros s; [done|]. cbn [SiteScraper.exec].
  assert (SiteScraper.step (retry_settings enabled retries config) start_url ev s
          = step ev s) as -> by (by destruct ev).
  destruct (step ev s) as [s1|]; cbn; [apply IH|done].
Qed.

End facts.
End FailureFacts.

Section failures.
Context `{UrlLib}.
Variable config : ScraperConfig.
Variable start_url : string.
Variable start_stamp : string.

Import SiteScraper Crawl Ledger.

(** C4 (amended). At every point of a session, and so at its end, every
    URL that a worker has taken up, and every URL for which a page was
    opened, is in [seen_urls], and [failed_urls] is a subset of the URLs
    for which a page was opened, hence of [seen_urls]: a URL in
    [failed_urls] is in both sets, and the two sets are disjoint only
    when [failed_urls] is empty.  A URL is in [failed_urls] exactly when,
    at some point of the session, [page.close()] returned after its
    navigation had failed, or [update_inventory] raised on its page data;
    no other failure is recorded. *)
Theorem failed_within_seen (s0 s : state) (evs : list event) :
  start config start_url start_stamp = Some s0 →
  exec config start_url evs s0 = Some s →
  (∀ i w url depth,
     workers s !! i = Some w → holds w = Some (url, depth) → url ∈ seen_urls s)
  ∧ (∀ url depth, (url, depth) ∈ opened s → url ∈ seen_urls s)
  ∧ failed_urls s ⊆ seen_urls s
  ∧ (∀ url, url ∈ failed_urls s → url ∈ (opened s).*1)
  ∧ (seen_urls s ## failed_urls s ↔ failed_urls s = ∅)
  ∧ (∀ url,
       url ∈ failed_urls s
       ↔ ∃ evs1 ev evs2 s1,
           evs = evs1 ++ ev :: evs2 ∧ exec config start_url evs1 s0 = Some s1
           ∧ records_failure config ev s1 = Some url)
  ∧ (∀ ev s1 url,
       records_failure config ev s1 = Some url
       ↔ ∃ i depth,
           (ev = Closed i true ∧ workers s1 !! i = Some (WClose url depth true))
           ∨ (∃ page_data,
                ev = Collected i page_data
                ∧ workers s1 !! i = Some (WProcess url depth)
                ∧ collect_ui_inventory config = true
                ∧ (UICollector.update_inventory (inventory s1) page_data).2 = false)).
Proof.
  intros Hs0 Hex.
  assert (Hreach : reachable config start_url start_stamp s) by (by exists s0, evs).
  pose proof (CrawlFacts.invariant_reachable _ _ _ _ Hreach) as Hinv.
  pose proof (LedgerFacts.ledger_reachable _ _ _ _ Hreach) as Hled.
  split_and!.
  - apply (held_seen _ _ Hinv).
  - apply (opened_seen _ _ Hinv).
  - apply (failed_seen _ _ Hinv).
  - apply (failed_opened _ _ _ _ Hled).
  - pose proof (failed_seen _ _ Hinv) as Hsub. split.
    + intros Hd. apply set_eq. intros u. split; [|by intros ?%elem_of_empty].
      intros Hu. destruct (Hd u (Hsub u Hu) Hu).
    + intros -> u _ Hu. by apply elem_of_empty in Hu.
  - intros url. rewrite (FailureFacts.exec_failed _ _ _ _ _ _ Hex).
    apply CrawlFacts.start_Some in Hs0 as (_ & _ & _ & _ & _ & -> & _).
    split; [intros [Hu|Hr]; [by apply elem_of_empty in Hu|done]|by right].
  - intros ev s1 url. split.
    + destruct ev as [i|i ok|i ok|i pd|i hrefs|i ok]; cbn; try done.
      * destruct (workers s1 !! i) as [[| | | u d | | |]|] eqn:Hw; try done.
        destruct (collect_ui_inventory config) eqn:Hc; [|done]. cbn.
        destruct (UICollector.update_inventory (inventory s1) pd) as [inv []] eqn:Hu;
          [done|].
        intros [= <-]. exists i, d. right. exists pd. by rewrite Hu.
      * destruct ok; [|done].
        destruct (workers s1 !! i) as [[| | | | | u d [] |]|] eqn:Hw; try done.
        intros [= <-]. exists i, d. by left.
    + intros (i & depth & [[-> Hw]|(pd & -> & Hw & Hc & Hu)]); cbn; rewrite Hw.
      * done.
      * by rewrite Hc, Hu.
Qed.

(** C3 (amended). When the navigation to a dequeued URL fails, nothing is
    enqueued and no retry count exists: the worker closes the page.  If
    [page.close()] returns, the URL is added to [failed_urls] and the
    worker goes back to the queue; if it raises, the worker task ends and
    the URL never gets into [failed_urls].  Either way the URL is in
    [seen_urls] and stays there, no new queue entry is made for it and no
    page is opened for it again, and once in [failed_urls] it stays there
    for the rest of the session.  [retry_failed_pages] and [max_retries]
    are read by no step of the crawl. *)
Theorem navigation_failure_is_final (s s' : state) (i : nat) (url : string)
    (depth : Z) (evs : list event) :
  reachable config start_url start_stamp s →
  workers s !! i = Some (WGoto url depth) →
  exec config start_url (Navigated i false :: evs) s = Some s' →
  step config start_url (Navigated i false) s
  = Some (set_worker i (WClose url depth true) s)
  ∧ (∀ s1, workers s1 !! i = Some (WClose url depth true) →
       step config start_url (Closed i true) s1 = Some (finish i (failed_add url s1))
       ∧ step config start_url (Closed i false) s1 = Some (leave i s1))
  ∧ url ∈ seen_urls s ∧ (url ∉ failed_urls s)
  ∧ url ∈ seen_urls s'
  ∧ (∀ d, (url, d) ∈ to_visit s' → (url, d) ∈ to_visit s)
  ∧ (∃ more, opened s' = opened s ++ more ∧ url ∉ more.*1)
  ∧ match next_event i evs with
    | None => workers s' !! i = Some (WClose url depth true) ∧ url ∉ failed_urls s'
    | Some ev =>
        (ev = Closed i true ∧ url ∈ failed_urls s')
        ∨ (ev = Closed i false ∧ workers s' !! i = Some WExit
           ∧ url ∉ failed_urls s')
    end
  ∧ (Closed i true ∈ evs → url ∈ failed_urls s')
  ∧ (Closed i true ∉ evs → url ∉ failed_urls s')
  ∧ (Closed i false ∈ evs → workers s' !! i = Some WExit)
  ∧ (∀ enabled retries,
       exec (retry_settings enabled retries config) start_url
         (Navigated i false :: evs) s = Some s').
Proof.
  intros Hreach Hw Hex.
  pose proof (CrawlFacts.invariant_reachable _ _ _ _ Hreach) as Hinv.
  pose proof (LedgerFacts.ledger_reachable _ _ _ _ Hreach) as Hled.
  pose proof (FailureFacts.custody_reachable _ _ _ _ Hreach) as [Hone Hclean].
  assert (Hs1 : step config start_url (Navigated i false) s
                = Some (set_worker i (WClose url depth true) s)).
  { cbn. by rewrite Hw. }
  assert (Hseen : url ∈ seen_urls s) by (eapply (held_seen _ _ Hinv); [exact Hw|done]).
  assert (Hnf : url ∉ failed_urls s) by (eapply Hclean; [exact Hw|done|done]).
  assert (Hwi : workers (set_worker i (WClose url depth true) s) !! i
                = Some (WClose url depth true)).
  { cbn. apply list_lookup_insert_eq. by eapply lookup_lt_Some. }
  destruct (GrowthFacts.exec_grows _ _ _ _ _ Hex) as (Hsub & _ & _ & [more Hmore] & _).
  pose proof Hex as Hfull.
  cbn [SiteScraper.exec] in Hex. rewrite Hs1 in Hex. cbn in Hex.
  assert (Hun : unrecorded i url depth (set_worker i (WClose url depth true) s)).
  { split_and!; [done|done|]. cbn. intros j w d Hj Hh.
    apply list_lookup_insert_Some in Hj as [(<- & <- & _)|[Hne Hj]]; [done|].
    destruct Hne. eapply Hone; [exact Hw|exact Hj|done|exact Hh]. }
  split_and!; [done| |done|done| | | | | | | |].
  - intros s1 Hw1. cbn. by rewrite Hw1.
  - by apply Hsub.
  - intros d Hin.
    change (to_visit s) with (to_visit (set_worker i (WClose url depth true) s)).
    eapply FailureFacts.seen_not_enqueued; [|exact Hex|exact Hin]. done.
  - exists more. split; [done|]. intros Hin.
    assert (Hreach' : reachable config start_url start_stamp s').
    { destruct Hreach as (s0 & evs0 & Hs0 & Hex0). exists s0, (evs0 ++ Navigated i false :: evs).
      split; [done|]. rewrite FailureFacts.exec_app, Hex0. exact Hfull. }
    pose proof (opened_once _ _ (CrawlFacts.invariant_reachable _ _ _ _ Hreach')) as Hnd.
    rewrite Hmore, fmap_app in Hnd. apply NoDup_app in Hnd as (_ & Hdis & _).
    apply (Hdis url); [|done]. apply list_elem_of_fmap. exists (url, depth).
    split; [done|]. eapply (held_opened _ _ _ _ Hled); [exact Hw|done].
  - eapply FailureFacts.close_outcome; [exact Hun|exact Hwi|exact Hex].
  - intros Hin. by eapply FailureFacts.closing_recorded.
  - intros Hnin.
    eapply FailureFacts.unrecorded_exec in Hun as (_ & ? & _); [done|exact Hex|done].
  - intros Hin. eapply FailureFacts.close_error_exits; [exact Hex|exact Hin].
  - intros enabled retries. by rewrite FailureFacts.retry_settings_exec.
Qed.

End failures.

Section failed_sessions.
Import SiteScraper Crawl Ledger.
Import (hints) PyUrl.

(** C3 (counterexample). Defaults, that is [retry_failed_pages] set and
    [max_retries = 3]: the first failed navigation, once the page is
    closed, puts the seed in [failed_urls]; the queue stays empty, the
    queue is joined and no event is enabled any more: there is no second
    attempt. *)
Lemma failed_navigation_is_not_retried :
  let s := Demo.final default_config Demo.seed_fails in
  retry_failed_pages default_config = true
  ∧ max_retries default_config = 3
  ∧ Demo.after default_config Demo.seed_fails = Some s
  ∧ Demo.site ∈ failed_urls s
  ∧ to_visit s = []
  ∧ joined s
  ∧ stuck default_config Demo.site s.
Proof.
  assert (Hw : workers (Demo.final default_config Demo.seed_fails)
               = [WGet; WGet; WGet; WGet]) by (by vm_compute).
  assert (Hq : to_visit (Demo.final default_config Demo.seed_fails) = [])
    by (by vm_compute).
  split_and!.
  - done.
  - done.
  - by vm_compute.
  - apply (bool_decide_unpack _). by vm_compute.
  - exact Hq.
  - unfold joined. by vm_compute.
  - intros [i|i ok|i ok|i pd|i hrefs|i ok]; unfold step; rewrite Hw, ?Hq;
      by destruct i as [|[|[|[|[|i]]]]].
Qed.

(** C3 (witness). The seed does not load: it ends in [failed_urls] when
    its page is closed, and outside [failed_urls] when closing raises. *)
Lemma navigation_failure_is_final_witness :
  Demo.site ∈ failed_urls (Demo.final default_config Demo.seed_fails)
  ∧ Demo.site ∉ failed_urls (Demo.final default_config Demo.seed_close_fails).
Proof.
  assert (Hreach : reachable default_config Demo.site Demo.stamp
                     (Demo.final default_config Demo.seed_loading)).
  { exists (Demo.fresh default_config), Demo.seed_loading.
    split; vm_compute; reflexivity. }
  split.
  - destruct (navigation_failure_is_final default_config Demo.site Demo.stamp
                (Demo.final default_config Demo.seed_loading)
                (Demo.final default_config Demo.seed_fails)
                0 Demo.site 0 [Closed 0 true] Hreach)
      as (_ & _ & _ & _ & _ & _ & _ & _ & Hin & _).
    + vm_compute. reflexivity.
    + vm_compute. reflexivity.
    + apply Hin. apply list_elem_of_singleton. reflexivity.
  - destruct (navigation_failure_is_final default_config Demo.site Demo.stamp
                (Demo.final default_config Demo.seed_loading)
                (Demo.final default_config Demo.seed_close_fails)
                0 Demo.site 0 [Closed 0 false] Hreach)
      as (_ & _ & _ & _ & _ & _ & _ & _ & _ & Hout & _).
    + vm_compute. reflexivity.
    + vm_compute. reflexivity.
    + apply Hout. intros Hin. apply list_elem_of_singleton in Hin. discriminate Hin.
Defined.

(** C4 (counterexample). The seed does not load: at the end of the
    session it is in [seen_urls] and in [failed_urls]. *)
Lemma failed_url_is_also_seen :
  let s := Demo.final default_config Demo.seed_fails in
  Demo.after default_config Demo.seed_fails = Some s
  ∧ joined s
  ∧ Demo.site ∈ seen_urls s
  ∧ Demo.site ∈ failed_urls s
  ∧ ¬ (seen_urls s ## failed_urls s).
Proof.
  assert (Hs : Demo.site ∈ seen_urls (Demo.final default_config Demo.seed_fails)).
  { apply (bool_decide_unpack _). by vm_compute. }
  assert (Hf : Demo.site ∈ failed_urls (Demo.final default_config Demo.seed_fails)).
  { apply (bool_decide_unpack _). by vm_compute. }
  split_and!.
  - by vm_compute.
  - unfold joined. by vm_compute.
  - exact Hs.
  - exact Hf.
  - intros Hd. exact (Hd _ Hs Hf).
Qed.

(** C4 (witness). *)
Lemma failed_within_seen_witness :
  failed_urls (Demo.final default_config Demo.seed_fails)
  ⊆ seen_urls (Demo.final default_config Demo.seed_fails).
Proof.
  destruct (failed_within_seen default_config Demo.site Demo.stamp
              (Demo.fresh default_config)
              (Demo.final default_config Demo.seed_fails) Demo.seed_fails)
    as (_ & _ & Hsub & _).
  - vm_compute. reflexivity.
  - vm_compute. reflexivity.
  - exact Hsub.
Defined.

End failed_sessions.

(* ===================================================================== *)
(** ** URLUtils: origin, path, letter case, whitespace *)
(* ===================================================================== *)

Module UrlFacts.
Import StrFacts StripFacts.

Lemma lower_ascii_idemp c : Str.lower_ascii (Str.lower_ascii c) = Str.lower_ascii c.
Proof. by destruct c as [[] [] [] [] [] [] [] []]. Qed.

Lemma lower_idemp s : Str.lower (Str.lower s) = Str.lower s.
Proof.
  induction s as [|c s IH]; [done|]. cbn [Str.lower]. by rewrite lower_ascii_idemp, IH.
Qed.

Lemma lower_ascii_newline c : Str.lower_ascii c = "010"%char → c = "010"%char.
Proof. by destruct c as [[] [] [] [] [] [] [] []]. Qed.

Lemma lower_rev_app s acc :
  Str.lower (String.rev_app s acc) = String.rev_app (Str.lower s) (Str.lower acc).
Proof.
  revert acc. induction s as [|c s IH]; intros acc; [done|].
  cbn [String.rev_app Str.lower]. by rewrite IH.
Qed.

Lemma lower_rev s : Str.lower (String.rev s) = String.rev (Str.lower s).
Proof. apply lower_rev_app. Qed.

(** The end of a string that [is_asset_url] accepts, read backwards and
    in lower case. *)
Lemma asset_url_end url :
  URLUtils.is_asset_url url = true →
  ∃ ending rest,
    ending ∈ URLUtils.asset_endings
    ∧ (Str.lower (String.rev url) = String.rev ending +:+ rest
       ∨ Str.lower (String.rev url) = String "010" (String.rev ending +:+ rest)).
Proof.
  intros Ha. apply AssetFacts.asset_url_iff in Ha
    as (pre & w & tail & -> & Hw & Ht).
  exists (Str.lower w), (Str.lower (String.rev pre)). split; [done|].
  rewrite !rev_app, !lower_app, !lower_rev, app_assoc.
  destruct Ht as [-> | ->]; [left|right]; done.
Qed.

(** The last character of an asset URL, or the one before its final
    newline, is in lower case one of nine. *)
Lemma asset_url_last url :
  URLUtils.is_asset_url url = true →
  ∃ c rest,
    c ∈ ["f"; "p"; "g"; "o"; "4"; "v"; "3"; "2"; "t"]%char
    ∧ (Str.lower (String.rev url) = String c rest
       ∨ Str.lower (String.rev url) = String "010" (String c rest)).
Proof.
  intros Ha. apply asset_url_end in Ha as (ending & rest & He & Hr).
  repeat (apply elem_of_cons in He as [->|He]); try (by apply elem_of_nil in He);
    (destruct Hr as [Hr|Hr]; rewrite Hr; eexists _, _;
     [split; [|left; reflexivity] | split; [|right; reflexivity]];
     apply (bool_decide_unpack _); reflexivity).
Qed.

Lemma lstrip_idemp s : Str.lstrip (Str.lstrip s) = Str.lstrip s.
Proof.
  induction s as [|c s IH]; [done|]. cbn [Str.lstrip].
  destruct (Str.isspace c) eqn:Hc; [done|]. cbn [Str.lstrip]. by rewrite Hc.
Qed.

Lemma lstrip_head s :
  Str.lstrip s = "" ∨ ∃ c t, Str.lstrip s = String c t ∧ Str.isspace c = false.
Proof.
  induction s as [|c s IH]; [by left|]. cbn [Str.lstrip].
  destruct (Str.isspace c) eqn:Hc; [done|]. right. by exists c, s.
Qed.

Lemma strip_idemp s : Str.strip (Str.strip s) = Str.strip s.
Proof.
  unfold Str.strip.
  assert (Hl : Str.lstrip (Str.rstrip (Str.lstrip s)) = Str.rstrip (Str.lstrip s)).
  { destruct (lstrip_head s) as [->|(c & t & -> & Hc)]; [done|].
    unfold Str.rstrip. rewrite rev_cons.
    destruct (lstrip_stops (String.rev t) "" c Hc) as [a' ->].
    rewrite rev_app. change (String.rev (String c "")) with (String c "").
    rewrite app_cons. cbn [Str.lstrip]. by rewrite Hc. }
  rewrite Hl. unfold Str.rstrip at 1. unfold Str.rstrip at 1.
  rewrite rev_involutive, lstrip_idemp. done.
Qed.

End UrlFacts.

Section url_utils.
Context `{UrlLib}.

(** X10. [is_same_origin] looks at the scheme and the netloc only and is
    an equivalence on the URLs that parse: it holds between a URL and
    itself, does not depend on the order of its arguments, is transitive,
    and two URLs of the same origin compare alike with any third URL.  It
    raises exactly when one of the two URLs does not parse. *)
Theorem same_origin_is_an_equivalence (a b c : string) :
  (is_Some (urlparse a) → URLUtils.is_same_origin a a = Some true)
  ∧ URLUtils.is_same_origin a b = URLUtils.is_same_origin b a
  ∧ (URLUtils.is_same_origin a b = Some true →
     URLUtils.is_same_origin b c = Some true →
     URLUtils.is_same_origin a c = Some true)
  ∧ (URLUtils.is_same_origin a b = Some true →
     URLUtils.is_same_origin a c = URLUtils.is_same_origin b c)
  ∧ (URLUtils.is_same_origin a b = None ↔ urlparse a = None ∨ urlparse b = None).
Proof.
  unfold URLUtils.is_same_origin.
  destruct (urlparse a) as [pa|], (urlparse b) as [pb|], (urlparse c) as [pc|];
    cbn; split_and!; try done; try (by intros [? [=]]);
    try (intros _; by rewrite bool_decide_eq_true_2);
    try (f_equal; apply bool_decide_ext; split; congruence);
    try (intros [= Hab%bool_decide_eq_true] [= Hbc%bool_decide_eq_true];
         f_equal; apply bool_decide_eq_true_2; congruence);
    try (intros [= Hab%bool_decide_eq_true]; f_equal; apply bool_decide_ext;
         split; congruence);
    try (split; [done|by intros [|]]); try (split; auto).
Qed.

(** X11. [sanitize_path] returns the path component of the URL, with
    [index.html] appended when the path is empty or ends in a slash: the
    result is never empty and never ends in a slash.  It raises exactly
    when the URL does not parse. *)
Theorem sanitize_path_names_a_file (url p : string) :
  URLUtils.sanitize_path url = Some p →
  p ≠ EmptyString ∧ Str.endswith p "/" = false
  ∧ ∃ u, urlparse url = Some u
         ∧ (p = path u ∨ p = path u +:+ "index.html").
Proof.
  unfold URLUtils.sanitize_path. destruct (urlparse url) as [u|]; [|done].
  cbn [mbind option_bind].
  assert (Hidx : ∀ x, x +:+ "index.html" ≠ "" ∧ Str.endswith (x +:+ "index.html") "/" = false).
  { intros x. split.
    - destruct x; discriminate.
    - unfold Str.endswith. by rewrite StripFacts.rev_app. }
  case_bool_decide as He; cbn [orb].
  - intros [= <-]. destruct (Hidx (path u)). split_and!; eauto.
  - destruct (Str.endswith (path u) "/") eqn:Hs; intros [= <-].
    + destruct (Hidx (path u)). split_and!; eauto.
    + split_and!; eauto.
Qed.

(** X14. [normalize_link] ignores the whitespace around an href that has
    other characters; an href made of whitespace only is not rejected as
    the empty href is: it is resolved as the empty reference, which
    [urljoin] turns into the base URL. *)
Theorem normalize_link_strips_whitespace (base href : string) :
  (Str.strip href ≠ EmptyString →
   URLUtils.normalize_link base (Str.strip href) = URLUtils.normalize_link base href)
  ∧ (href ≠ EmptyString → Str.strip href = EmptyString →
     URLUtils.normalize_link base href
     = (abs_url ← urljoin base EmptyString; fst <$> urldefrag abs_url)).
Proof.
  split.
  - intros Hne. assert (href ≠ EmptyString) by (by intros ->).
    unfold URLUtils.normalize_link.
    rewrite !decide_False by done. by rewrite UrlFacts.strip_idemp.
  - intros Hne Hs. unfold URLUtils.normalize_link.
    rewrite decide_False by done. rewrite Hs.
    change (Str.startswith_any "" ["mailto:"; "tel:"; "javascript:"; "#"]) with false.
    destruct (urljoin base "") as [abs_url|]; [|done]. cbn.
    by destruct (urldefrag abs_url) as [[]|].
Qed.

End url_utils.

(** X12. On a URL of ASCII characters [is_asset_url] does not depend on
    the letter case: it gives the URL and its lower-cased form the same
    answer. *)
Theorem is_asset_url_ignores_case (url : string) :
  Str.isascii url = true →
  URLUtils.is_asset_url (Str.lower url) = URLUtils.is_asset_url url.
Proof.
  intros _.
  apply eq_true_iff_eq. rewrite !AssetFacts.asset_url_iff. split.
  - intros (pre & w & tail & Hl & Hw & Ht).
    apply StrFacts.lower_app_inv in Hl as (pre' & wt & -> & _ & Hwt).
    apply StrFacts.lower_app_inv in Hwt as (w' & tail' & -> & <- & <-).
    exists pre', w', tail'. split; [done|].
    rewrite UrlFacts.lower_idemp in Hw. split; [done|].
    destruct Ht as [Ht|Ht].
    + left. by destruct tail'.
    + right. destruct tail' as [|c [|]]; try done.
      cbn in Ht. injection Ht as Hc. by rewrite (UrlFacts.lower_ascii_newline c Hc).
  - intros (pre & w & tail & -> & Hw & Ht).
    exists (Str.lower pre), (Str.lower w), (Str.lower tail).
    rewrite !StrFacts.lower_app, UrlFacts.lower_idemp. split_and!; [done|done|].
    by destruct Ht as [-> | ->]; [left|right].
Qed.

(** X12 (witness). *)
Lemma is_asset_url_ignores_case_witness :
  URLUtils.is_asset_url (Str.lower "https://x.com/LOGO.PNG")
  = URLUtils.is_asset_url "https://x.com/LOGO.PNG".
Proof. apply is_asset_url_ignores_case. reflexivity. Defined.

(** C8 (the code at the failing input). The path of
    ["https://x.com/a.woff2?v=1"] is [/a.woff2], which ends in an asset
    extension, yet [is_asset_url] answers false: the pattern is searched
    in the whole URL string and anchored at its end, so that any URL
    followed by the query string [?v=1] is taken for a page.  Conversely
    the path of ["https://x.com/page?f=a.png"] is [/page], and
    [is_asset_url] answers true.  On the two examples of the claim, which
    have no query string, the answers are as the claim says. *)
Theorem is_asset_url_misses_query_string :
  Spec.isAssetUrl (H:=PyUrl.lib) "https://x.com/a.woff2?v=1" = Some true
  ∧ URLUtils.is_asset_url "https://x.com/a.woff2?v=1" = false
  ∧ (∀ url, URLUtils.is_asset_url (url +:+ "?v=1") = false)
  ∧ Spec.isAssetUrl (H:=PyUrl.lib) "https://x.com/page?f=a.png" = Some false
  ∧ URLUtils.is_asset_url "https://x.com/page?f=a.png" = true
  ∧ URLUtils.is_asset_url "https://x.com/a.woff2" = true
  ∧ URLUtils.is_asset_url "https://x.com/page" = false.
Proof.
  split_and!; try (by vm_compute).
  intros url. apply not_true_is_false. intros Ha.
  apply UrlFacts.asset_url_last in Ha as (c & rest & Hc & Hr).
  rewrite StripFacts.rev_app, StrFacts.lower_app in Hr.
  destruct Hr as [Hr|Hr]; [|discriminate Hr].
  injection Hr as <- _. by apply (bool_decide_pack _) in Hc.
Qed.

(** X13. A URL that ends in [.css] or [.js] is never an asset URL for
    [is_asset_url], whatever comes before: style sheets and scripts are
    queued as pages like any other link. *)
Theorem stylesheets_and_scripts_are_not_assets (pre : string) :
  URLUtils.is_asset_url (pre +:+ ".css") = false
  ∧ URLUtils.is_asset_url (pre +:+ ".js") = false.
Proof.
  split; apply not_true_is_false; intros Ha;
    apply UrlFacts.asset_url_last in Ha as (c & rest & Hc & Hr);
    rewrite StripFacts.rev_app, StrFacts.lower_app in Hr;
    (destruct Hr as [Hr|Hr]; [|discriminate Hr]);
    injection Hr as <- _; by apply (bool_decide_pack _) in Hc.
Qed.

(* ===================================================================== *)
(** ** FileUtils.safe_filename *)
(* ===================================================================== *)

(** X15. [safe_filename] keeps the length of the name, leaves none of the
    characters of its class in the result, changes nothing when applied a
    second time, and returns the name itself exactly when the name has
    none of these characters. *)
Theorem safe_filename_is_safe (filename : string) :
  String.length (FileUtils.safe_filename filename) = String.length filename
  ∧ (∀ c, Str.contains c (FileUtils.safe_filename filename) = true →
          FileUtils.unsafe_char c = false)
  ∧ FileUtils.safe_filename (FileUtils.safe_filename filename)
    = FileUtils.safe_filename filename
  ∧ (FileUtils.safe_filename filename = filename
     ↔ ∀ c, Str.contains c filename = true → FileUtils.unsafe_char c = false).
Proof.
  induction filename as [|a rest (IHlen & IHsafe & IHidem & IHfix)].
  { by split_and!. }
  cbn [FileUtils.safe_filename String.length Str.contains]. split_and!.
  - by rewrite IHlen.
  - intros c. destruct (decide (_ = c)) as [<-|_]; [|apply IHsafe].
    intros _. by destruct (FileUtils.unsafe_char a) eqn:Ha.
  - rewrite IHidem. f_equal.
    destruct (FileUtils.unsafe_char a) eqn:Ha; [done|]. by rewrite Ha.
  - split.
    + intros [= Ha Hrest] c. destruct (decide (a = c)) as [<-|_].
      * intros _. destruct (FileUtils.unsafe_char a) eqn:Hu; [|done].
        by rewrite <- Ha in Hu.
      * by apply IHfix.
    + intros Hall. f_equal.
      * rewrite (Hall a); [done|]. by rewrite decide_True.
      * apply IHfix. intros c Hc. apply Hall.
        destruct (decide (a = c)); done.
Qed.

(* ===================================================================== *)
(** ** UICollector: merging and finalizing *)
(* ===================================================================== *)

Module InventoryFacts.

Lemma merge_css_snoc items kv m :
  UICollector.merge_css (items ++ [kv]) m
  = match kv.2 with
    | JStr v =>
        if decide (v = EmptyString) then UICollector.merge_css items m
        else <[kv.1 := v]> (UICollector.merge_css items m)
    | _ => UICollector.merge_css items m
    end.
Proof. unfold UICollector.merge_css. by rewrite foldl_app. Qed.

Lemma sorted_permutation (X : gset string) : UICollector.sorted X ≡ₚ elements X.
Proof. apply merge_sort_Permutation. Qed.

End InventoryFacts.

(** X16. [update_inventory] with page data that carry a URL adds exactly
    one page record, for that URL and with at most 200 links, at most 100
    buttons, and every font and color of the page to the sets.  With page
    data that are not empty but lack the URL it raises after the fonts and
    colors are merged, and everything else is untouched. *)
Theorem update_inventory_merges_a_page (inv : Inventory) (pd : PageData) :
  UICollector.falsy (Some pd) = false →
  let ui_data := default UICollector.empty_ui_data (pd_ui_data pd) in
  ∃ inv' returned,
    UICollector.update_inventory inv (Some pd) = (inv', returned)
    ∧ inv_fonts inv' = inv_fonts inv ∪ list_to_set (default [] (ui_fonts ui_data))
    ∧ inv_colors inv' = inv_colors inv ∪ list_to_set (default [] (ui_colors ui_data))
    ∧ match pd_url pd with
      | Some url =>
          returned = true
          ∧ (∃ page, inv_pages inv' = inv_pages inv ++ [page]
                     ∧ pr_url page = url ∧ (length (pr_links page) ≤ 200)%nat)
          ∧ (∃ buttons, inv_buttons inv' = inv_buttons inv ++ buttons
                        ∧ (length buttons ≤ 100)%nat)
      | None =>
          returned = false
          ∧ inv_pages inv' = inv_pages inv
          ∧ inv_buttons inv' = inv_buttons inv
          ∧ inv_css_variables inv' = inv_css_variables inv
          ∧ inv_canvases inv' = inv_canvases inv
          ∧ inv_interactive_controls inv' = inv_interactive_controls inv
          ∧ inv_components inv' = inv_components inv
      end.
Proof.
  intros Hf ui_data. unfold UICollector.update_inventory. rewrite Hf.
  fold ui_data. unfold UICollector.get_list.
  destruct (pd_url pd) as [url|]; eexists _, _; (split; [reflexivity|]); cbn;
    rewrite !GrowthFacts.add_all_union; split_and!; try done.
  - eexists. split; [reflexivity|]. cbn. split; [done|]. rewrite length_take. lia.
  - eexists. split; [reflexivity|]. rewrite length_take. lia.
Qed.

(** X17. The loop over [css_variables] is last-writer-wins among the
    values that are non-empty strings: after it, a key holds the last such
    value given for it, or what it held before when there is none; other
    values, empty or not strings, never reach the inventory, so a map
    without empty values stays without them. *)
Theorem css_variables_last_writer_wins
    (items : list (string * json)) (m : gmap string string) (k : string) :
  UICollector.merge_css items m !! k
  = from_option Some (m !! k)
      (last (omap (λ kv, if decide (kv.1 = k) then
                            match kv.2 with
                            | JStr v => if decide (v = EmptyString) then None else Some v
                            | _ => None
                            end
                          else None) items))
  ∧ ((∀ k' v, m !! k' = Some v → v ≠ EmptyString) →
     ∀ k' v, UICollector.merge_css items m !! k' = Some v → v ≠ EmptyString).
Proof.
  induction items as [|kv items [IH1 IH2]] using rev_ind; [done|].
  rewrite InventoryFacts.merge_css_snoc, omap_app.
  destruct kv as [k0 j]. cbn [omap list_omap fst snd]. split.
  - destruct j as [|b|n|v|js|fs]; try (destruct (decide (k0 = k)); cbn;
      by rewrite ?app_nil_r).
    destruct (decide (v = EmptyString)) as [->|Hv].
    { destruct (decide (k0 = k)); cbn; by rewrite ?app_nil_r. }
    destruct (decide (k0 = k)) as [->|Hk]; cbn.
    + by rewrite lookup_insert_eq, last_snoc.
    + by rewrite lookup_insert_ne, app_nil_r.
  - intros Hm k' v'. destruct j as [|b|n|v|js|fs]; try apply (IH2 Hm).
    destruct (decide (v = EmptyString)) as [->|Hv]; [apply (IH2 Hm)|].
    destruct (decide (k0 = k')) as [->|Hk].
    + rewrite lookup_insert_eq. by intros [= <-].
    + rewrite lookup_insert_ne by done. apply (IH2 Hm).
Qed.

(** X18. [finalize_inventory] turns the two sets into ascending lists
    without repetition that hold exactly the elements of the sets, stamps
    the end time and keeps everything else. *)
Theorem finalize_inventory_sorts (now : string) (inv : Inventory) :
  let final := UICollector.finalize_inventory now inv in
  Sorted String.le (UICollector.fin_fonts final) ∧ NoDup (UICollector.fin_fonts final)
  ∧ (∀ font, font ∈ UICollector.fin_fonts final ↔ font ∈ inv_fonts inv)
  ∧ length (UICollector.fin_fonts final) = size (inv_fonts inv)
  ∧ Sorted String.le (UICollector.fin_colors final) ∧ NoDup (UICollector.fin_colors final)
  ∧ (∀ color, color ∈ UICollector.fin_colors final ↔ color ∈ inv_colors inv)
  ∧ length (UICollector.fin_colors final) = size (inv_colors inv)
  ∧ scraping_end (UICollector.fin_meta final) = now
  ∧ scraping_start (UICollector.fin_meta final) = scraping_start (inv_meta inv)
  ∧ UICollector.fin_pages final = inv_pages inv
  ∧ UICollector.fin_css_variables final = inv_css_variables inv.
Proof.
  assert (Hs : ∀ X : gset string,
    Sorted String.le (UICollector.sorted X) ∧ NoDup (UICollector.sorted X)
    ∧ (∀ x, x ∈ UICollector.sorted X ↔ x ∈ X)
    ∧ length (UICollector.sorted X) = size X).
  { intros X. pose proof (InventoryFacts.sorted_permutation X) as Hp. split_and!.
    - apply (Sorted_merge_sort String.le).
    - rewrite Hp. apply NoDup_elements.
    - intros x. rewrite Hp. apply elem_of_elements.
    - by rewrite Hp. }
  cbn. destruct (Hs (inv_fonts inv)) as (?&?&?&?), (Hs (inv_colors inv)) as (?&?&?&?).
  by split_and!.
Qed.

(* ===================================================================== *)
(** ** The command line *)
(* ===================================================================== *)

(** X23. The options [--no-screenshots], [--no-html], [--no-assets],
    [--no-ui-inventory] and [--respect-robots] are parsed and never
    applied: the configuration that [main] builds takes these settings
    from the configuration file or the defaults, and the only option that
    reaches [respect_robots_txt] is [--cross-origin], which clears it. *)
Theorem output_options_never_reach_the_config (args : Args) :
  let base := default default_config (arg_config args) in
  save_screenshots (Cli.main_config args) = save_screenshots base
  ∧ save_html (Cli.main_config args) = save_html base
  ∧ save_assets (Cli.main_config args) = save_assets base
  ∧ collect_ui_inventory (Cli.main_config args) = collect_ui_inventory base
  ∧ respect_robots_txt (Cli.main_config args)
    = (if arg_cross_origin args then false else respect_robots_txt base)
  ∧ retry_failed_pages (Cli.main_config args) = retry_failed_pages base
  ∧ block_host_patterns (Cli.main_config args) = block_host_patterns base.
Proof.
  unfold Cli.main_config, Cli.override.
  destruct (arg_max_pages args), (arg_max_depth args), (arg_concurrency args),
    (arg_timeout args), (arg_delay args), (arg_user_agent args) as [ua|],
    (arg_cross_origin args);
    try destruct (decide (ua = EmptyString)); by cbn.
Qed.

(** X24. The core options override the configuration file, which
    overrides the defaults, and an option that is not given leaves the
    setting alone; [headless], however, is always taken from the command
    line, where it is off unless [--headless] is given, whatever the file
    or the defaults say. *)
Theorem command_line_overrides (args : Args) :
  let base := default default_config (arg_config args) in
  max_pages (Cli.main_config args) = default (max_pages base) (arg_max_pages args)
  ∧ max_depth (Cli.main_config args) = default (max_depth base) (arg_max_depth args)
  ∧ concurrency_pages (Cli.main_config args)
    = default (concurrency_pages base) (arg_concurrency args)
  ∧ navigation_timeout_ms (Cli.main_config args)
    = default (navigation_timeout_ms base) (arg_timeout args)
  ∧ page_delay_ms (Cli.main_config args) = default (page_delay_ms base) (arg_delay args)
  ∧ headless (Cli.main_config args) = arg_headless args
  ∧ headless (Cli.main_config (Cli.args_of_url (arg_url args))) = false.
Proof.
  unfold Cli.main_config, Cli.override.
  destruct (arg_max_pages args), (arg_max_depth args), (arg_concurrency args),
    (arg_timeout args), (arg_delay args), (arg_user_agent args) as [ua|],
    (arg_cross_origin args);
    try destruct (decide (ua = EmptyString)); by cbn.
Qed.

(* ===================================================================== *)
(** ** AssetProcessor.handle_response *)
(* ===================================================================== *)

Module HandlerFacts.
Section facts.
Context `{UrlLib} `{PathLib}.
Variable config : ScraperConfig.
Variable output_dir : Path.

Import AssetProcessor.

Abbreviation asset_invariant := (AssetProcessor.asset_invariant config output_dir).

Lemma wants_body_acceptable response saved :
  wants_body config response saved = true →
  acceptable config response ∧ resp_url response ∉ saved.
Proof.
  unfold wants_body, acceptable.
  destruct (save_assets config); [|done]. cbn.
  destruct (URLUtils.matches_blocklist _ _); [done|].
  case_bool_decide as Hct; [done|].
  destruct (existsb _ _); [|done]. cbn.
  case_bool_decide as Hs; [done|]. done.
Qed.

Lemma save_body_invariant response body io_ok a :
  acceptable config response → asset_invariant a →
  asset_invariant (save_body output_dir response body io_ok a).
Proof.
  intros Hacc [Hf Hw Hs]. unfold save_body.
  destruct body as [body|]; [|done].
  case_bool_decide as Hb; [done|].
  destruct (asset_path output_dir response) as [path|] eqn:Hp; [|done].
  destruct io_ok; [|done]. split; cbn.
  - apply Forall_app. split; [done|]. constructor; [|constructor].
    split; [done|]. by exists response.
  - done.
  - rewrite Hs, fmap_app, list_to_set_app_L. cbn. by rewrite union_empty_r_L.
Qed.

Lemma asset_step_invariant ev a a' :
  asset_invariant a → asset_step config output_dir ev a = Some a' → asset_invariant a'.
Proof.
  intros Hinv. destruct ev as [response|k body io_ok]; cbn.
  - destruct (wants_body config response (saved_assets a)) eqn:Hw; intros [= <-]; [|done].
    destruct Hinv as [Hf Hwt Hs]. split; cbn; [done| |done].
    apply Forall_app. split; [done|]. constructor; [|constructor].
    by apply wants_body_acceptable in Hw as [? _].
  - destruct (waiting a !! k) as [response|] eqn:Hk; intros [= <-].
    destruct Hinv as [Hf Hwt Hs]. apply save_body_invariant.
    + rewrite Forall_forall in Hwt. apply Hwt. by eapply list_elem_of_lookup_2.
    + split; cbn; [done| |done]. by apply Forall_delete.
Qed.

Lemma asset_exec_invariant evs a a' :
  asset_invariant a → asset_exec config output_dir evs a = Some a' → asset_invariant a'.
Proof.
  revert a. induction evs as [|ev evs IH]; intros a Hinv Hex; cbn in Hex.
  - by injection Hex as <-.
  - destruct (asset_step config output_dir ev a) as [a1|] eqn:Hs; [|done]. cbn in Hex.
    eapply IH; [|exact Hex]. by eapply asset_step_invariant.
Qed.

Lemma asset_init_invariant : asset_invariant asset_init.
Proof. split; cbn; by try constructor. Qed.

(** When no two handlers overlap, no URL is written twice. *)
Lemma handle_all_once rs a :
  waiting a = [] →
  saved_assets a = list_to_set (stored_url <$> files a) →
  NoDup (stored_url <$> files a) →
  NoDup (stored_url <$> files (handle_all config output_dir rs a)).
Proof.
  revert a. induction rs as [|[[response body] io_ok] rs IH]; intros a Hw Hs Hn; [done|].
  cbn [handle_all]. unfold handle_response.
  destruct (wants_body config response (saved_assets a)) eqn:Hwant; [|by apply IH].
  apply wants_body_acceptable in Hwant as [_ Hfresh].
  unfold save_body. destruct body as [body|]; [|by apply IH].
  case_bool_decide; [by apply IH|].
  destruct (asset_path output_dir response); [|by apply IH].
  destruct io_ok; [|by apply IH]. apply IH; cbn.
  - done.
  - rewrite Hs, fmap_app, list_to_set_app_L. cbn. by rewrite union_empty_r_L.
  - rewrite fmap_app. apply NoDup_app. split; [done|]. split; [|apply NoDup_singleton].
    intros url Hin Hu. apply list_elem_of_singleton in Hu as ->.
    apply Hfresh. rewrite Hs. by apply elem_of_list_to_set.
Qed.

End facts.
End HandlerFacts.

Section asset_processor.
Context `{UrlLib} `{PathLib}.
Variable config : ScraperConfig.
Variable output_dir : Path.

Import AssetProcessor.

(** X19. Whatever responses arrive and however their handlers overlap,
    a file is written only with [save_assets] set, for a URL that does not
    match the blocklist, for a content type that one of
    [save_content_types] begins, and with a body that is not empty. *)
Theorem written_assets_passed_the_filters
    (evs : list asset_event) (a : assets) (f : Stored) :
  asset_exec config output_dir evs asset_init = Some a →
  f ∈ files a →
  save_assets config = true
  ∧ URLUtils.matches_blocklist (stored_url f) (block_host_patterns config) = false
  ∧ stored_body f ≠ EmptyString
  ∧ ∃ response,
      resp_url response = stored_url f
      ∧ content_type_of response ≠ EmptyString
      ∧ existsb (Str.startswith (content_type_of response)) (save_content_types config) = true
      ∧ asset_path output_dir response = Some (stored_path f).
Proof.
  intros Hex Hin.
  apply (HandlerFacts.asset_exec_invariant _ _ _ _ _
           (HandlerFacts.asset_init_invariant config output_dir)) in Hex.
  destruct Hex as [Hf _ _]. rewrite Forall_forall in Hf.
  destruct (Hf _ Hin) as (Hb & response & (Hs & Hbl & Hct & Hty) & Hu & Hp).
  split_and!; try done; [by rewrite <- Hu|]. by exists response.
Qed.

(** X20. [saved_assets] is at every moment the set of the URLs for which
    a file was written, and a response for one of these URLs is dropped
    when it arrives. *)
Theorem saved_assets_are_the_written_urls
    (evs : list asset_event) (a : assets) :
  asset_exec config output_dir evs asset_init = Some a →
  (∀ url, url ∈ saved_assets a
          ↔ ∃ f, f ∈ files a ∧ stored_url f = url)
  ∧ (∀ response, resp_url response ∈ saved_assets a →
       asset_step config output_dir (Arrives response) a = Some a).
Proof.
  intros Hex.
  apply (HandlerFacts.asset_exec_invariant _ _ _ _ _
           (HandlerFacts.asset_init_invariant config output_dir)) in Hex.
  destruct Hex as [_ _ Hs]. split.
  - intros url. rewrite Hs, elem_of_list_to_set, list_elem_of_fmap.
    split; [intros (f & -> & Hin)|intros (f & Hin & <-)]; by exists f.
  - intros response Hin. cbn. unfold wants_body.
    destruct (negb (save_assets config)); [done|].
    destruct (URLUtils.matches_blocklist _ _); [done|].
    case_bool_decide; [done|]. destruct (negb (existsb _ _)); [done|].
    by rewrite bool_decide_eq_true_2.
Qed.

(** X21. When the handlers run one after the other, every URL is written
    at most once. *)
Theorem sequential_handlers_write_once
    (rs : list (Response * option string * bool)) :
  NoDup (stored_url
           <$> files (handle_all config output_dir rs asset_init)).
Proof. apply HandlerFacts.handle_all_once; cbn; by try constructor. Qed.

(** X22. The at-most-once rule is only as good as the order of events:
    when a second response for a URL arrives before the body of the first
    is written, both handlers write the file. *)
Theorem overlapping_handlers_write_twice
    (response : Response) (body : string) (path : Path) :
  wants_body config response ∅ = true →
  body ≠ EmptyString →
  asset_path output_dir response = Some path →
  ∃ a, asset_exec config output_dir
         [Arrives response; Arrives response;
          BodyRead 0 (Some body) true; BodyRead 0 (Some body) true]
         asset_init = Some a
       ∧ files a
         = [mkStored (resp_url response) path body;
            mkStored (resp_url response) path body].
Proof.
  intros Hw Hb Hp. eexists. cbn. rewrite Hw. cbn. rewrite Hw. cbn.
  unfold save_body. rewrite !bool_decide_eq_false_2 by done. rewrite Hp. cbn.
  rewrite Hp. by split.
Qed.

End asset_processor.

Section empty_pool.
Context `{UrlLib}.
Variable config : ScraperConfig.
Variable start_url : string.
Variable start_stamp : string.

Import SiteScraper.

(** X25. When [urlparse] rejects the start URL the constructor raises,
    and with a negative [concurrency_pages] the session fails at the
    construction of the semaphore: in both cases no session starts.  With
    a start URL that parses and [concurrency_pages = 0] the session, once
    the browser is launched, starts without workers: the seed stays in the
    queue, no step is ever taken and [to_visit.join()] never returns. *)
Theorem pool_without_workers :
  (urlparse start_url = None → start config start_url start_stamp = None)
  ∧ (concurrency_pages config < 0 → start config start_url start_stamp = None)
  ∧ (urlparse start_url ≠ None → concurrency_pages config = 0 →
     ∃ s0, start config start_url start_stamp = Some s0
           ∧ to_visit s0 = [(start_url, 0)]
           ∧ ¬ joined s0
           ∧ stuck config start_url s0
           ∧ ∀ s, reachable config start_url start_stamp s → s = s0).
Proof.
  unfold start. split_and!.
  - intros Hp. by rewrite bool_decide_eq_true_2.
  - intros Hn. destruct (bool_decide _); [done|].
    by destruct (Z.ltb_spec (concurrency_pages config) 0); [|lia].
  - intros Hp Hz. rewrite bool_decide_eq_false_2 by done.
    rewrite Hz. cbn [Z.ltb Z.compare Z.to_nat replicate].
    eexists. split; [reflexivity|].
    assert (Hstuck : ∀ ev inv,
      step config start_url ev
        (put (start_url, 0) (mkState [] 0 ∅ ∅ 0 inv [] [])) = None).
    { by intros [i|i ok|i ok|i pd|i hrefs|i ok] inv. }
    split_and!; try done.
    + intros ev. apply Hstuck.
    + intros s (s0 & evs & Hs0 & Hex). unfold start in Hs0.
      rewrite bool_decide_eq_false_2 in Hs0 by done. rewrite Hz in Hs0.
      injection Hs0 as <-. destruct evs as [|ev evs]; cbn in Hex.
      * by injection Hex.
      * by rewrite Hstuck in Hex.
Qed.

End empty_pool.

(* ===================================================================== *)
(** ** The properties above on explicit sessions *)
(* ===================================================================== *)

Section on_explicit_sessions.
Import SiteScraper Crawl Ledger.
Import (hints) PyUrl.
Import (hints) Demo.

(** X1 (witness). *)
Lemma queue_accounting_witness :
  unfinished_tasks (Demo.final (Demo.config 2 3 2) Demo.race)
  = Z.of_nat (length (to_visit (Demo.final (Demo.config 2 3 2) Demo.race)))
    + tally holding (workers (Demo.final (Demo.config 2 3 2) Demo.race)).
Proof.
  apply (queue_accounting (Demo.config 2 3 2) Demo.site Demo.stamp
           (Demo.final (Demo.config 2 3 2) Demo.race)).
  exists (Demo.fresh (Demo.config 2 3 2)), Demo.race. split; vm_compute; reflexivity.
Defined.

(** X2 (witness). *)
Lemma live_worker_can_step_witness :
  ∃ ev s', step default_config Demo.site ev
             (Demo.final default_config Demo.seed_loading) = Some s'.
Proof.
  apply (live_worker_can_step default_config Demo.site Demo.stamp
           (Demo.final default_config Demo.seed_loading)).
  - exists (Demo.fresh default_config), Demo.seed_loading.
    split; vm_compute; reflexivity.
  - unfold joined. vm_compute. discriminate.
  - exists 0%nat, (WGoto Demo.site 0). split; [vm_compute; reflexivity|discriminate].
Defined.

(** X3 (witness). *)
Lemma session_only_grows_witness :
  page_count (Demo.final default_config Demo.seed_loading)
  ≤ page_count (Demo.final default_config Demo.seed_loaded).
Proof.
  apply (session_only_grows default_config Demo.site
           (Demo.final default_config Demo.seed_loading)
           (Demo.final default_config Demo.seed_loaded)).
  exists [Navigated 0 true]. vm_compute. reflexivity.
Defined.

(** X4 (witness). *)
Lemma page_count_bound_witness :
  page_count (Demo.final (Demo.config 2 3 2) Demo.race)
  ≤ Z.max 0 (max_pages (Demo.config 2 3 2) + concurrency_pages (Demo.config 2 3 2) - 1).
Proof.
  apply (CrawlFacts.page_count_bound (Demo.config 2 3 2) Demo.site Demo.stamp
           (Demo.final (Demo.config 2 3 2) Demo.race)).
  exists (Demo.fresh (Demo.config 2 3 2)), Demo.race. split; vm_compute; reflexivity.
Defined.

(** X5 (witness). *)
Lemma counted_pages_were_opened_witness :
  0 ≤ page_count (Demo.final (Demo.config 2 3 2) Demo.race)
  ∧ page_count (Demo.final (Demo.config 2 3 2) Demo.race)
    ≤ Z.of_nat (length (opened (Demo.final (Demo.config 2 3 2) Demo.race)))
  ∧ (length (opened (Demo.final (Demo.config 2 3 2) Demo.race))
     ≤ size (seen_urls (Demo.final (Demo.config 2 3 2) Demo.race)))%nat.
Proof.
  apply (counted_pages_were_opened (Demo.config 2 3 2) Demo.site Demo.stamp
           (Demo.final (Demo.config 2 3 2) Demo.race)).
  exists (Demo.fresh (Demo.config 2 3 2)), Demo.race. split; vm_compute; reflexivity.
Defined.

(** X6 (witness). *)
Lemma blocked_urls_are_never_opened_witness :
  URLUtils.matches_blocklist "https://ex.com/b" (block_host_patterns (Demo.config 2 3 2))
  = false.
Proof.
  apply (blocked_urls_are_never_opened (Demo.config 2 3 2) Demo.site Demo.stamp
           (Demo.final (Demo.config 2 3 2) Demo.race)) with (depth := 1).
  - exists (Demo.fresh (Demo.config 2 3 2)), Demo.race. split; vm_compute; reflexivity.
  - apply (bool_decide_unpack _). vm_compute. reflexivity.
Defined.

(** X7 (witness). *)
Lemma frontier_entries_are_filtered_witness :
  ("https://ex.com/b", 1) = (Demo.site, 0)
  ∨ (1 ≤ 1 ∧ "https://ex.com/b" ≠ EmptyString
     ∧ URLUtils.is_asset_url "https://ex.com/b" = false
     ∧ (respect_robots_txt (Demo.config 2 3 2) = false →
        URLUtils.is_same_origin Demo.site "https://ex.com/b" = Some true)).
Proof.
  apply (frontier_entries_are_filtered (Demo.config 2 3 2) Demo.site Demo.stamp
           (Demo.final (Demo.config 2 3 2) Demo.race) ("https://ex.com/b", 1)).
  - exists (Demo.fresh (Demo.config 2 3 2)), Demo.race. split; vm_compute; reflexivity.
  - apply (bool_decide_unpack _). vm_compute. reflexivity.
Defined.

(** X8 (witness). *)
Lemma inventory_books_witness :
  inv_seed (inventory (Demo.final (Demo.config 2 3 2) Demo.race)) = Demo.site
  ∧ inv_links (inventory (Demo.final (Demo.config 2 3 2) Demo.race)) = []
  ∧ inv_meta (inventory (Demo.final (Demo.config 2 3 2) Demo.race))
    = mkMeta 0 0 Demo.stamp EmptyString
  ∧ Z.of_nat (length (inv_pages (inventory (Demo.final (Demo.config 2 3 2) Demo.race))))
    ≤ page_count (Demo.final (Demo.config 2 3 2) Demo.race).
Proof.
  apply (inventory_books (Demo.config 2 3 2) Demo.site Demo.stamp
           (Demo.final (Demo.config 2 3 2) Demo.race)).
  exists (Demo.fresh (Demo.config 2 3 2)), Demo.race. split; vm_compute; reflexivity.
Defined.

(** X9 (witness). *)
Lemma exited_worker_stays_out_witness :
  length (workers (Demo.final (Demo.config 1 3 2) (Demo.capped ++ [Dequeue 1])))
  = length (workers (Demo.final (Demo.config 1 3 2) Demo.capped))
  ∧ workers (Demo.final (Demo.config 1 3 2) (Demo.capped ++ [Dequeue 1])) !! 0%nat
    = Some WExit.
Proof.
  apply (exited_worker_stays_out (Demo.config 1 3 2) Demo.site
           (Demo.final (Demo.config 1 3 2) Demo.capped)
           (Demo.final (Demo.config 1 3 2) (Demo.capped ++ [Dequeue 1])) 0).
  - exists [Dequeue 1]. vm_compute. reflexivity.
  - vm_compute. reflexivity.
Defined.

(** X25 (witness). *)
Lemma pool_without_workers_witness :
  ∃ s0, start (Demo.config 5 3 0) Demo.site Demo.stamp = Some s0
        ∧ to_visit s0 = [(Demo.site, 0)]
        ∧ ¬ joined s0
        ∧ stuck (Demo.config 5 3 0) Demo.site s0
        ∧ ∀ s, reachable (Demo.config 5 3 0) Demo.site Demo.stamp s → s = s0.
Proof.
  apply (proj2 (proj2 (pool_without_workers (Demo.config 5 3 0) Demo.site Demo.stamp))).
  - vm_compute. discriminate.
  - reflexivity.
Defined.

(** X10 (witness). *)
Lemma same_origin_is_an_equivalence_witness :
  URLUtils.is_same_origin "https://ex.com/a" "https://ex.com/c?x=1" = Some true.
Proof.
  apply (proj1 (proj2 (proj2 (same_origin_is_an_equivalence
           "https://ex.com/a" "https://ex.com/b#top" "https://ex.com/c?x=1"))));
    vm_compute; reflexivity.
Defined.

(** X11 (witness). *)
Lemma sanitize_path_names_a_file_witness :
  "/blog/index.html" ≠ EmptyString ∧ Str.endswith "/blog/index.html" "/" = false
  ∧ ∃ u, urlparse "https://ex.com/blog/" = Some u
         ∧ ("/blog/index.html" = path u ∨ "/blog/index.html" = path u +:+ "index.html").
Proof.
  apply (sanitize_path_names_a_file "https://ex.com/blog/" "/blog/index.html").
  vm_compute. reflexivity.
Defined.

(** X14 (witness). *)
Lemma normalize_link_strips_whitespace_witness :
  URLUtils.normalize_link "https://example.com/page" (Str.strip "  /about  ")
  = URLUtils.normalize_link "https://example.com/page" "  /about  ".
Proof.
  apply (proj1 (normalize_link_strips_whitespace "https://example.com/page" "  /about  ")).
  vm_compute. discriminate.
Defined.

(** X16 (witness). *)
Lemma update_inventory_merges_a_page_witness :
  ∃ inv' returned,
    UICollector.update_inventory UICollector.init (Some Demo.styled_page) = (inv', returned)
    ∧ inv_fonts inv' = inv_fonts UICollector.init ∪ list_to_set ["Arial"]
    ∧ inv_colors inv' = inv_colors UICollector.init ∪ list_to_set ["rgb(0, 0, 0)"]
    ∧ returned = true
    ∧ (∃ page, inv_pages inv' = inv_pages UICollector.init ++ [page]
               ∧ pr_url page = Demo.site ∧ (length (pr_links page) ≤ 200)%nat)
    ∧ (∃ buttons, inv_buttons inv' = inv_buttons UICollector.init ++ buttons
                  ∧ (length buttons ≤ 100)%nat).
Proof.
  apply (update_inventory_merges_a_page UICollector.init Demo.styled_page).
  reflexivity.
Defined.

(** X17 (witness). *)
Lemma css_variables_last_writer_wins_witness :
  UICollector.merge_css
    [("--primary", JStr "red"); ("--primary", JStr "blue"); ("--primary", JStr "");
     ("--primary", JNum 4)]
    {[ "--primary" := "green" ]} !! "--primary"
  = Some "blue".
Proof.
  exact (proj1 (css_variables_last_writer_wins
           [("--primary", JStr "red"); ("--primary", JStr "blue");
            ("--primary", JStr ""); ("--primary", JNum 4)]
           {[ "--primary" := "green" ]} "--primary")).
Defined.

(** X19 (witness). *)
Lemma written_assets_passed_the_filters_witness :
  save_assets default_config = true
  ∧ URLUtils.matches_blocklist "https://ex.com/static/site.css"
      (block_host_patterns default_config) = false
  ∧ ("body{}" : string) ≠ EmptyString
  ∧ ∃ response,
      resp_url response = "https://ex.com/static/site.css"
      ∧ AssetProcessor.content_type_of response ≠ EmptyString
      ∧ existsb (Str.startswith (AssetProcessor.content_type_of response))
          (save_content_types default_config) = true
      ∧ AssetProcessor.asset_path (H0:=Demo.paths) ("out" : string) response
        = Some ("out/ex.com/static/site.css" : string).
Proof.
  apply (written_assets_passed_the_filters (H0:=Demo.paths) default_config ("out" : string)
           Demo.asset_run Demo.asset_final Demo.css_file).
  - vm_compute. reflexivity.
  - vm_compute. left.
Defined.

(** X20 (witness). *)
Lemma saved_assets_are_the_written_urls_witness :
  AssetProcessor.asset_step (H0:=Demo.paths) default_config ("out" : string)
    (AssetProcessor.Arrives Demo.css_response) Demo.asset_final
  = Some Demo.asset_final.
Proof.
  apply (saved_assets_are_the_written_urls (H0:=Demo.paths) default_config ("out" : string)
           Demo.asset_run Demo.asset_final).
  - vm_compute. reflexivity.
  - apply (bool_decide_unpack _). vm_compute. reflexivity.
Defined.

(** X22 (witness). *)
Lemma overlapping_handlers_write_twice_witness :
  ∃ a, AssetProcessor.asset_exec (H0:=Demo.paths) default_config ("out" : string)
         [AssetProcessor.Arrives Demo.css_response;
          AssetProcessor.Arrives Demo.css_response;
          AssetProcessor.BodyRead 0 (Some "body{}") true;
          AssetProcessor.BodyRead 0 (Some "body{}") true]
         AssetProcessor.asset_init = Some a
       ∧ AssetProcessor.files a = [Demo.css_file; Demo.css_file].
Proof.
  apply (overlapping_handlers_write_twice (H0:=Demo.paths) default_config ("out" : string)
           Demo.css_response "body{}" ("out/ex.com/static/site.css" : string)).
  - vm_compute. reflexivity.
  - discriminate.
  - vm_compute. reflexivity.
Defined.

End on_explicit_sessions.
